(** * Texas Hold'em simulator: cards, hand evaluation, winner resolution,
      equity simulation and the call decision model.

    A shallow embedding of the Python package [texas_holdem]
    ([cards.py], [hand_eval.py], [game.py], [equity.py], [strategy.py])
    and of the dealing code of the page [app.py].

    Conventions of the embedding.
    - Python [int] is [Z]; positions produced by [enumerate] are [nat].
    - A [list] is a Rocq list, a [dict] is a [gmap], a [set] is a [gset].
    - A raised exception is a value of [error]; a function that can raise
      returns a [result].  A method of a mutable object is a state
      transformer [M S A := S -> result A * S]: the state survives a
      raised exception, as the object does in Python.
    - [float] in [strategy.py] is IEEE binary64, embedded as Rocq's
      primitive floats, with Python's comparison based [min]/[max].
    - In [equity.py] the probabilities are quotients of two integer
      counters; CPython returns the binary64 nearest to the quotient, the
      embedding keeps the exact quotient in [Q]. *)

From Stdlib Require Import ZArith QArith Bool List Lia Ascii String Permutation.
From Stdlib Require Import Floats.PrimFloat Floats.SpecFloat Floats.FloatOps
  Floats.FloatAxioms.
From stdpp Require Import base option list sorting gmap.

Close Scope Q_scope.
Local Open Scope Z_scope.

(* ================================================================== *)
(** * cards.py: suits, ranks, cards                                    *)
(* ================================================================== *)

(** [class Suit(IntEnum)] *)
Inductive Suit := CLUBS | DIAMONDS | HEARTS | SPADES.

Definition Suit_value (s : Suit) : Z :=
  match s with CLUBS => 0 | DIAMONDS => 1 | HEARTS => 2 | SPADES => 3 end.

Definition Suit_of_value (z : Z) : option Suit :=
  match z with
  | 0 => Some CLUBS | 1 => Some DIAMONDS | 2 => Some HEARTS | 3 => Some SPADES
  | _ => None
  end.

(** Iteration order of [for suit in Suit]. *)
Definition all_suits : list Suit := [CLUBS; DIAMONDS; HEARTS; SPADES].

(** [class Rank(IntEnum)] *)
Inductive Rank :=
  | TWO | THREE | FOUR | FIVE | SIX | SEVEN | EIGHT | NINE | TEN
  | JACK | QUEEN | KING | ACE.

Definition Rank_value (r : Rank) : Z :=
  match r with
  | TWO => 2 | THREE => 3 | FOUR => 4 | FIVE => 5 | SIX => 6 | SEVEN => 7
  | EIGHT => 8 | NINE => 9 | TEN => 10 | JACK => 11 | QUEEN => 12
  | KING => 13 | ACE => 14
  end.

Definition Rank_of_value (z : Z) : option Rank :=
  match z with
  | 2 => Some TWO | 3 => Some THREE | 4 => Some FOUR | 5 => Some FIVE
  | 6 => Some SIX | 7 => Some SEVEN | 8 => Some EIGHT | 9 => Some NINE
  | 10 => Some TEN | 11 => Some JACK | 12 => Some QUEEN | 13 => Some KING
  | 14 => Some ACE
  | _ => None
  end.

(** Iteration order of [for rank in Rank]. *)
Definition all_ranks : list Rank :=
  [TWO; THREE; FOUR; FIVE; SIX; SEVEN; EIGHT; NINE; TEN; JACK; QUEEN; KING; ACE].

(** [Rank.label], a string of one character. *)
Definition Rank_label (r : Rank) : ascii :=
  match r with
  | TWO => "2" | THREE => "3" | FOUR => "4" | FIVE => "5" | SIX => "6"
  | SEVEN => "7" | EIGHT => "8" | NINE => "9" | TEN => "T" | JACK => "J"
  | QUEEN => "Q" | KING => "K" | ACE => "A"
  end%char.

(** [@dataclass(frozen=True, order=True) class Card]: equality and hashing
    are structural, on the pair (rank, suit). *)
Record Card := mkCard { rank : Rank; suit : Suit }.

#[global] Instance Suit_eq_dec : EqDecision Suit.
Proof. solve_decision. Defined.
#[global] Instance Rank_eq_dec : EqDecision Rank.
Proof. solve_decision. Defined.
#[global] Instance Card_eq_dec : EqDecision Card.
Proof. solve_decision. Defined.

#[global] Instance Suit_countable : Countable Suit.
Proof. refine (inj_countable Suit_value Suit_of_value _); by intros []. Defined.
#[global] Instance Rank_countable : Countable Rank.
Proof. refine (inj_countable Rank_value Rank_of_value _); by intros []. Defined.
#[global] Instance Card_countable : Countable Card.
Proof.
  refine (inj_countable' (λ c, (rank c, suit c)) (λ p, mkCard p.1 p.2) _).
  by intros [].
Defined.

(* ================================================================== *)
(** * Exceptions                                                       *)
(* ================================================================== *)

(** Where a card was seen by [validate_unique_cards]: the labels
    [f"player {i} hole"] and [f"board[{j}]"]. *)
Inductive Origin :=
  | PlayerHole (i : nat)
  | BoardAt (j : nat).

#[global] Instance Origin_eq_dec : EqDecision Origin.
Proof. solve_decision. Defined.

(** The three [raise] sites reached from [Card.from_str]. *)
Inductive CardFormatIssue :=
  | BadLength     (* "Card string must have length 2, got ..." *)
  | BadRankChar   (* "Invalid rank character: ..." *)
  | BadSuitChar.  (* "Invalid suit character: ..." *)

(** One constructor per failure of the package, named after the error
    taxonomy of the specification; the comment gives the Python exception
    that the source raises. The payload is what the message is formatted
    from. *)
Inductive error :=
  | InvalidCardFormat (why : CardFormatIssue)  (* ValueError *)
  | InvalidArgument          (* ValueError("n must be non-negative") *)
  | DeckExhausted            (* IndexError("Cannot draw from an empty deck") *)
  | InsufficientCards (n : Z) (left : nat)
                             (* IndexError("Cannot draw {n} cards, deck only has {left} left") *)
  | DuplicateCard (c : Card) (origin prev_origin : Origin)
                             (* ValueError("Duplicate card detected: ...") *)
  | TooFewHoleCards (i : nat)(* ValueError("Player {i} has fewer than 2 hole cards") *)
  | HeroTooFewHoleCards      (* ValueError("Hero must have at least 2 hole cards") *)
  | TooFewOpponents          (* ValueError("Need at least one opponent") *)
  | BoardSizeOutOfRange      (* ValueError("Board must have between 0 and 5 cards") *)
  | NoPlayers                (* ValueError("Need at least one player") *)
  | TooFewCards              (* ValueError("Need at least 5 cards to evaluate a poker hand") *)
  | InvalidHandSize          (* ValueError("Exactly 5 cards are required for _evaluate_5cards") *)
  | EmptyMax                 (* ValueError: max() of an empty sequence *)
  | ListIndexError           (* IndexError: list index out of range *)
  | ZeroDivision             (* ZeroDivisionError *)
  | Overflow                 (* OverflowError, from a float power *)
  | ReturnedNone.            (* not an exception: the function returned None *)

Inductive result (A : Type) :=
  | Ok (a : A)
  | Err (e : error).
Arguments Ok {A} a.
Arguments Err {A} e.

#[global] Instance CardFormatIssue_eq_dec : EqDecision CardFormatIssue.
Proof. solve_decision. Defined.
#[global] Instance error_eq_dec : EqDecision error.
Proof. solve_decision. Defined.
#[global] Instance result_eq_dec `{EqDecision A} : EqDecision (result A).
Proof. solve_decision. Defined.

#[global] Instance result_ret : MRet result := λ A a, Ok a.
#[global] Instance result_bind : MBind result := λ A B f r,
  match r with Ok a => f a | Err e => Err e end.
#[global] Instance result_fmap : FMap result := λ A B f r,
  match r with Ok a => Ok (f a) | Err e => Err e end.

(** State transformers whose state outlives an exception. *)
Definition M (S A : Type) : Type := S → result A * S.

#[global] Instance M_ret {S} : MRet (M S) := λ A a s, (Ok a, s).
#[global] Instance M_bind {S} : MBind (M S) := λ A B f m s,
  match m s with
  | (Ok a, s') => f a s'
  | (Err e, s') => (Err e, s')
  end.

Definition raise {S A} (e : error) : M S A := λ s, (Err e, s).

(** [[m for _ in range(k)]] *)
Fixpoint repeatM {S A} (k : nat) (m : M S A) : M S (list A) :=
  match k with
  | O => mret []
  | S k' => x ← m; xs ← repeatM k' m; mret (x :: xs)
  end.

(** [for x in xs: acc = step(acc, x)] where [step] may raise. *)
Fixpoint foldlM {A B} (step : B → A → result B) (acc : B) (xs : list A) : result B :=
  match xs with
  | [] => Ok acc
  | x :: xs' => acc' ← step acc x; foldlM step acc' xs'
  end.

(** [[f(x) for x in xs]] where [f] may raise. *)
Fixpoint mapR {A B} (f : A → result B) (xs : list A) : result (list B) :=
  match xs with
  | [] => Ok []
  | x :: xs' => y ← f x; ys ← mapR f xs'; Ok (y :: ys)
  end.

(* ================================================================== *)
(** * cards.py: parsing                                                *)
(* ================================================================== *)

(** The text is a [string] whose characters stand for the code points
    0..255.  [str.upper] maps [a]..[z] to [A]..[Z]; on no other code point
    of this range does it yield an ASCII character, so the other
    characters are left as they are: the dictionary lookups below miss
    them either way. *)
Definition upper (ch : ascii) : ascii :=
  let n := nat_of_ascii ch in
  if ((97 <=? n) && (n <=? 122))%nat then ascii_of_nat (n - 32) else ch.

(** [str.isspace] on the code points 0..255. *)
Definition isspace (ch : ascii) : bool :=
  let n := nat_of_ascii ch in
  ((9 <=? n) && (n <=? 13) || (28 <=? n) && (n <=? 32)
   || (n =? 133) || (n =? 160))%nat.

Fixpoint lstrip (s : string) : string :=
  match s with
  | String ch s' => if isspace ch then lstrip s' else s
  | EmptyString => EmptyString
  end.

Fixpoint rstrip (s : string) : string :=
  match s with
  | String ch s' =>
      match rstrip s' with
      | EmptyString => if isspace ch then EmptyString else String ch EmptyString
      | t => String ch t
      end
  | EmptyString => EmptyString
  end.

(** [text.strip()] *)
Definition strip (s : string) : string := rstrip (lstrip s).

(** [Suit.from_char] *)
Definition Suit_from_char (ch : ascii) : result Suit :=
  let ch := upper ch in
  match ch with
  | "C"%char => Ok CLUBS
  | "D"%char => Ok DIAMONDS
  | "H"%char => Ok HEARTS
  | "S"%char => Ok SPADES
  | _ => Err (InvalidCardFormat BadSuitChar)
  end.

(** [Rank.from_char] *)
Definition Rank_from_char (ch : ascii) : result Rank :=
  let ch := upper ch in
  match ch with
  | "2"%char => Ok TWO
  | "3"%char => Ok THREE
  | "4"%char => Ok FOUR
  | "5"%char => Ok FIVE
  | "6"%char => Ok SIX
  | "7"%char => Ok SEVEN
  | "8"%char => Ok EIGHT
  | "9"%char => Ok NINE
  | "T"%char => Ok TEN
  | "J"%char => Ok JACK
  | "Q"%char => Ok QUEEN
  | "K"%char => Ok KING
  | "A"%char => Ok ACE
  | _ => Err (InvalidCardFormat BadRankChar)
  end.

(** [Card.from_str] *)
Definition Card_from_str (text : string) : result Card :=
  let text := strip text in
  match text with
  | String r_ch (String s_ch EmptyString) =>
      r ← Rank_from_char r_ch;
      s ← Suit_from_char s_ch;
      Ok (mkCard r s)
  | _ => Err (InvalidCardFormat BadLength)
  end.

(* ================================================================== *)
(** * cards.py: the deck                                               *)
(* ================================================================== *)

(** The deck object is its field [_cards]; the live end is the end of the
    list. *)
Definition Deck := list Card.

(** [Deck.__init__] *)
Definition Deck_init (cards : option (list Card)) : Deck :=
  match cards with
  | None => s ← all_suits; r ← all_ranks; [mkCard r s]
  | Some cs => cs
  end.

(** [list.pop()]: the last element and the list without it. *)
Fixpoint pop {A} (l : list A) : option (A * list A) :=
  match l with
  | [] => None
  | x :: l' =>
      match pop l' with
      | None => Some (x, [])
      | Some (y, r) => Some (y, x :: r)
      end
  end.

(** [Deck.draw] *)
Definition Deck_draw : M Deck Card := λ cards,
  match pop cards with
  | None => (Err DeckExhausted, cards)
  | Some (c, cards') => (Ok c, cards')
  end.

(** [Deck.draw_many] *)
Definition Deck_draw_many (n : Z) : M Deck (list Card) := λ cards,
  if n <? 0 then raise InvalidArgument cards
  else if n >? Z.of_nat (length cards)
       then raise (InsufficientCards n (length cards)) cards
  else repeatM (Z.to_nat n) Deck_draw cards.

(** The slice [l[start:]] of Python, for any integer [start]. *)
Definition slice_from {A} (start : Z) (l : list A) : list A :=
  let len := Z.of_nat (length l) in
  let start := if start <? 0 then Z.max (start + len) 0 else Z.min start len in
  drop (Z.to_nat start) l.

(** [Deck.peek] *)
Definition Deck_peek (n : Z) : M Deck (list Card) := λ cards,
  if n <? 0 then raise InvalidArgument cards
  else (Ok (slice_from (- n) cards), cards).

(** [Deck.remaining] *)
Definition Deck_remaining : M Deck (list Card) := λ cards, (Ok cards, cards).

(* ================================================================== *)
(** * hand_eval.py                                                     *)
(* ================================================================== *)

(** [class HandCategory(IntEnum)] *)
Inductive HandCategory :=
  | HIGH_CARD | ONE_PAIR | TWO_PAIR | THREE_OF_A_KIND | STRAIGHT
  | FLUSH | FULL_HOUSE | FOUR_OF_A_KIND | STRAIGHT_FLUSH.

Definition HandCategory_value (c : HandCategory) : Z :=
  match c with
  | HIGH_CARD => 0 | ONE_PAIR => 1 | TWO_PAIR => 2 | THREE_OF_A_KIND => 3
  | STRAIGHT => 4 | FLUSH => 5 | FULL_HOUSE => 6 | FOUR_OF_A_KIND => 7
  | STRAIGHT_FLUSH => 8
  end.

(** [@dataclass(frozen=True, order=True) class HandValue] *)
Record HandValue := mkHandValue {
  category : HandCategory;
  tiebreaker : list Z
}.

#[global] Instance HandCategory_eq_dec : EqDecision HandCategory.
Proof. solve_decision. Defined.
#[global] Instance HandValue_eq_dec : EqDecision HandValue.
Proof. solve_decision. Defined.

(** Comparison of two tuples of integers: the first position where they
    differ decides; if one is a prefix of the other the shorter is
    smaller. *)
Fixpoint tuple_compare (a b : list Z) : comparison :=
  match a, b with
  | [], [] => Eq
  | [], _ :: _ => Lt
  | _ :: _, [] => Gt
  | x :: a', y :: b' =>
      match x ?= y with
      | Eq => tuple_compare a' b'
      | c => c
      end
  end.

(** The order generated by [order=True]: the tuples
    [(category, tiebreaker)] are compared. *)
Definition HandValue_compare (a b : HandValue) : comparison :=
  match HandCategory_value (category a) ?= HandCategory_value (category b) with
  | Eq => tuple_compare (tiebreaker a) (tiebreaker b)
  | c => c
  end.

(** [a > b], [a < b] and [a <= b] on hand values; [a == b] is structural
    equality. *)
Definition HandValue_gt (a b : HandValue) : bool :=
  match HandValue_compare a b with Gt => true | _ => false end.
Definition HandValue_lt (a b : HandValue) : bool :=
  match HandValue_compare a b with Lt => true | _ => false end.
Definition HandValue_le (a b : HandValue) : bool :=
  match HandValue_compare a b with Gt => false | _ => true end.

(** [sorted(xs, reverse=True)] on integers. *)
Definition sorted_desc (xs : list Z) : list Z := merge_sort (flip Z.le) xs.

(** [max(xs)]: the first of the greatest elements; raises on an empty
    sequence. *)
Definition py_max {A} (gt : A → A → bool) (xs : list A) : result A :=
  match xs with
  | [] => Err EmptyMax
  | x :: xs' => Ok (foldl (λ m y, if gt y m then y else m) x xs')
  end.

(** [Counter(xs)] *)
Definition Counter (xs : list Z) : gmap Z Z :=
  foldl (λ m x, <[x := default 0 (m !! x) + 1]> m) ∅ xs.

(** [(rank for rank, cnt in rank_counts.items() if cnt == n)] *)
Definition ranks_with (n : Z) (rank_counts : gmap Z Z) : list Z :=
  (filter (λ p, p.2 = n) (map_to_list rank_counts)).*1.

(** The straight test on [unique_ranks].  The source keeps two variables,
    [is_straight] and [straight_high], and sets both together: [Some h]
    stands for [is_straight = True] with [straight_high = h], [None] for
    [is_straight = False]. *)
Definition find_straight (unique_ranks : list Z) : option Z :=
  match unique_ranks with
  | [r0; _; _; _; r4] =>
      if bool_decide (unique_ranks = [14; 5; 4; 3; 2]) then Some 5
      else if r0 - r4 =? 4 then Some r0
      else None
  | _ => None
  end.

(** [_evaluate_5cards] *)
Definition evaluate_5cards (cards : list Card) : result HandValue :=
  if negb (length cards =? 5)%nat then Err InvalidHandSize else
  let ranks := (λ c, Rank_value (rank c)) <$> cards in
  let suits := suit <$> cards in
  let rank_counts := Counter ranks in
  let counts_signature := sorted_desc (map_to_list rank_counts).*2 in
  let is_flush := bool_decide (size (list_to_set suits : gset Suit) = 1%nat) in
  let unique_ranks := sorted_desc (elements (list_to_set ranks : gset Z)) in
  let straight := find_straight unique_ranks in
  match is_flush, straight with
  | true, Some straight_high => Ok (mkHandValue STRAIGHT_FLUSH [straight_high])
  | _, _ =>
  if bool_decide (counts_signature = [4; 1]) then
    four_rank ← py_max Z.gtb (ranks_with 4 rank_counts);
    kicker ← py_max Z.gtb (ranks_with 1 rank_counts);
    Ok (mkHandValue FOUR_OF_A_KIND [four_rank; kicker])
  else if bool_decide (counts_signature = [3; 2]) then
    trip_rank ← py_max Z.gtb (ranks_with 3 rank_counts);
    pair_rank ← py_max Z.gtb (ranks_with 2 rank_counts);
    Ok (mkHandValue FULL_HOUSE [trip_rank; pair_rank])
  else if is_flush then
    Ok (mkHandValue FLUSH (sorted_desc ranks))
  else match straight with
  | Some straight_high => Ok (mkHandValue STRAIGHT [straight_high])
  | None =>
  if bool_decide (counts_signature = [3; 1; 1]) then
    trip_rank ← py_max Z.gtb (ranks_with 3 rank_counts);
    let kickers := sorted_desc (ranks_with 1 rank_counts) in
    Ok (mkHandValue THREE_OF_A_KIND (trip_rank :: kickers))
  else if bool_decide (counts_signature = [2; 2; 1]) then
    let pair_ranks := sorted_desc (ranks_with 2 rank_counts) in
    kicker ← py_max Z.gtb (ranks_with 1 rank_counts);
    Ok (mkHandValue TWO_PAIR (pair_ranks ++ [kicker]))
  else if bool_decide (counts_signature = [2; 1; 1; 1]) then
    pair_rank ← py_max Z.gtb (ranks_with 2 rank_counts);
    let kickers := sorted_desc (ranks_with 1 rank_counts) in
    Ok (mkHandValue ONE_PAIR (pair_rank :: kickers))
  else
    Ok (mkHandValue HIGH_CARD (sorted_desc ranks))
  end
  end.

(** [itertools.combinations(l, k)]: the sub-sequences of [k] positions, in
    lexicographic order of the positions. *)
Fixpoint combinations {A} (l : list A) (k : nat) {struct l} : list (list A) :=
  match k, l with
  | O, _ => [[]]
  | S _, [] => []
  | S k', x :: l' => ((x ::.) <$> combinations l' k') ++ combinations l' k
  end.

(** One turn of the loop of [evaluate_best]. *)
Definition best_step (best : option HandValue) (combo : list Card)
  : result (option HandValue) :=
  hv ← evaluate_5cards combo;
  match best with
  | None => Ok (Some hv)
  | Some b => if HandValue_gt hv b then Ok (Some hv) else Ok best
  end.

(** [evaluate_best].  After the loop [best] is returned as it is; [None]
    (no combination seen) is reported as [ReturnedNone]. *)
Definition evaluate_best (cards : list Card) : result HandValue :=
  let n := length cards in
  if (n <? 5)%nat then Err TooFewCards
  else if (n =? 5)%nat then evaluate_5cards cards
  else
    best ← foldlM best_step None (combinations cards 5);
    match best with
    | Some hv => Ok hv
    | None => Err ReturnedNone
    end.

(* ================================================================== *)
(** * game.py                                                          *)
(* ================================================================== *)

(** The list [labeled_cards] built by the first two loops of
    [validate_unique_cards]. *)
Definition labeled_cards (hole_hands : list (list Card)) (board : list Card)
  : list (Origin * Card) :=
  mjoin (imap (λ i hole, (λ c, (PlayerHole i, c)) <$> hole) hole_hands)
  ++ imap (λ j c, (BoardAt j, c)) board.

(** One turn of the scanning loop: [seen] maps a card to where it was
    first met. *)
Definition seen_step (seen : gmap Card Origin) (oc : Origin * Card)
  : result (gmap Card Origin) :=
  let '(origin, card) := oc in
  match seen !! card with
  | Some prev_origin => Err (DuplicateCard card origin prev_origin)
  | None => Ok (<[card := origin]> seen)
  end.

(** [validate_unique_cards] *)
Definition validate_unique_cards (hole_hands : list (list Card)) (board : list Card)
  : result unit :=
  _ ← foldlM seen_step ∅ (labeled_cards hole_hands board);
  Ok tt.

(** [for i, hole in enumerate(hole_hands): if len(hole) < 2: raise ...],
    with [i] counted from [i0]. *)
Fixpoint check_hole_sizes (i0 : nat) (hole_hands : list (list Card)) : result unit :=
  match hole_hands with
  | [] => Ok tt
  | hole :: rest =>
      if (length hole <? 2)%nat then Err (TooFewHoleCards i0)
      else check_hole_sizes (S i0) rest
  end.

(** [[i for i, hv in enumerate(hand_values) if hv == best_value]] *)
Definition indices_equal_to (best_value : HandValue) (hand_values : list HandValue)
  : list nat :=
  (filter (λ p, p.2 = best_value) (imap (λ i hv, (i, hv)) hand_values)).*1.

(** [determine_winners] *)
Definition determine_winners (hole_hands : list (list Card)) (board : list Card)
  : result (list nat * list HandValue) :=
  match hole_hands with
  | [] => Err NoPlayers
  | _ =>
      _ ← validate_unique_cards hole_hands board;
      _ ← check_hole_sizes 0 hole_hands;
      hand_values ← mapR (λ hole, evaluate_best (hole ++ board)) hole_hands;
      best_value ← py_max HandValue_gt hand_values;
      let winner_indices := indices_equal_to best_value hand_values in
      Ok (winner_indices, hand_values)
  end.

(* ================================================================== *)
(** * equity.py                                                        *)
(* ================================================================== *)

(** [_build_reduced_deck] *)
Definition build_reduced_deck (used_cards : list Card) : Deck :=
  let full_deck := Deck_init None in
  let used_set : gset Card := list_to_set used_cards in
  let remaining_cards := filter (λ c, c ∉ used_set) full_deck in
  Deck_init (Some remaining_cards).

(** [counts[i] = v] and [counts[i] += 1], for a position [i]. *)
Definition list_assign (counts : list Z) (i : nat) (v : Z) : result (list Z) :=
  match counts !! i with
  | Some _ => Ok (<[i := v]> counts)
  | None => Err ListIndexError
  end.

Definition list_incr (counts : list Z) (i : nat) : result (list Z) :=
  match counts !! i with
  | Some v => Ok (<[i := v + 1]> counts)
  | None => Err ListIndexError
  end.

(** The exact quotient that [a / b] rounds to binary64, for integers [a]
    and [b]; division by zero raises. *)
Definition true_div (a b : Z) : result Q :=
  if b =? 0 then Err ZeroDivision else Ok (inject_Z a / inject_Z b)%Q.

(** [w / 1.0] for an integer [w]. *)
Definition div_one (w : Z) : Q := (inject_Z w / 1)%Q.

(** [for _ in range(k): st = body(st)], threading the generator. *)
Fixpoint loopM {S St} (k : nat) (body : St → M S St) (st : St) : M S St :=
  match k with
  | O => mret st
  | S k' => st' ← body st; loopM k' body st'
  end.

Definition lift {S A} (r : result A) : M S A := λ s, (r, s).

(** The counters after the complete-board branch of [simulate_equity]. *)
Definition complete_board_counts (num_players : nat) (winners : list nat)
  : result (list Z * list Z) :=
  let win_counts := replicate num_players 0 in
  let tie_counts := replicate num_players 0 in
  if bool_decide (length winners = 1%nat) then
    match winners with
    | w0 :: _ => win_counts ← list_assign win_counts w0 1; Ok (win_counts, tie_counts)
    | [] => Err ListIndexError
    end
  else
    tie_counts ← foldlM (λ tc w, list_assign tc w 1) tie_counts winners;
    Ok (win_counts, tie_counts).

(** The counters after one trial of the sampling loop of [simulate_equity]. *)
Definition record_winners (winners : list nat) (counts : list Z * list Z)
  : result (list Z * list Z) :=
  let '(win_counts, tie_counts) := counts in
  if bool_decide (length winners = 1%nat) then
    match winners with
    | w0 :: _ => win_counts ← list_incr win_counts w0; Ok (win_counts, tie_counts)
    | [] => Err ListIndexError
    end
  else
    tie_counts ← foldlM list_incr tie_counts winners;
    Ok (win_counts, tie_counts).

(** The hero's counters after one trial of
    [simulate_hero_vs_random_opponents]. *)
Definition record_hero (winners : list nat) (counts : Z * Z) : result (Z * Z) :=
  let '(hero_win, hero_tie) := counts in
  if bool_decide (length winners = 1%nat) then
    match winners with
    | w0 :: _ => if bool_decide (w0 = 0%nat) then Ok (hero_win + 1, hero_tie)
                 else Ok (hero_win, hero_tie)
    | [] => Err ListIndexError
    end
  else
    if bool_decide (0%nat ∈ winners) then Ok (hero_win, hero_tie + 1)
    else Ok (hero_win, hero_tie).

Section equity.
(** The module-level generator of [random]: its state is threaded through
    every call of [random.shuffle]. *)
Context {RNG : Type}.
Variable random_shuffle : list Card → RNG → list Card * RNG.

(** [Deck.shuffle], on a deck that is a local variable of the caller. *)
Definition Deck_shuffle (cards : Deck) : M RNG Deck := λ g,
  let '(cards', g') := random_shuffle cards g in (Ok cards', g').

(** The body of the sampling loop of [simulate_equity]. *)
Definition equity_trial (hole_hands : list (list Card)) (board known_cards : list Card)
    (cards_to_draw : Z) (counts : list Z * list Z) : M RNG (list Z * list Z) :=
  deck ← Deck_shuffle (build_reduced_deck known_cards);
  drawn ← lift (Deck_draw_many cards_to_draw deck).1;
  let full_board := board ++ drawn in
  r ← lift (determine_winners hole_hands full_board);
  lift (record_winners r.1 counts).

(** [simulate_equity] *)
Definition simulate_equity (hole_hands : list (list Card)) (board : list Card)
    (num_samples : Z) : M RNG (list Q * list Q) :=
  match hole_hands with
  | [] => raise NoPlayers
  | _ =>
    let num_players := length hole_hands in
    if (5 <? length board)%nat then raise BoardSizeOutOfRange else
    _ ← lift (check_hole_sizes 0 hole_hands);
    if (length board =? 5)%nat then
      r ← lift (determine_winners hole_hands board);
      counts ← lift (complete_board_counts num_players r.1);
      mret (div_one <$> counts.1, div_one <$> counts.2)
    else
      let win_counts := replicate num_players 0 in
      let tie_counts := replicate num_players 0 in
      let known_cards := mjoin hole_hands ++ board in
      let cards_to_draw := 5 - Z.of_nat (length board) in
      if cards_to_draw <? 0 then raise BoardSizeOutOfRange else
      counts ← loopM (Z.to_nat num_samples)
                 (equity_trial hole_hands board known_cards cards_to_draw)
                 (win_counts, tie_counts);
      win_probs ← lift (mapR (λ w, true_div w num_samples) counts.1);
      tie_probs ← lift (mapR (λ t, true_div t num_samples) counts.2);
      mret (win_probs, tie_probs)
  end.

(** The dealing part of a trial of [simulate_hero_vs_random_opponents],
    on the local deck: two cards to each opponent, then the missing
    board cards. *)
Definition deal_opponents_and_board (hero_hole : list Card) (num_opponents : Z)
    (cards_to_draw_board : Z) : M Deck (list (list Card) * list Card) :=
  opp_hands ← repeatM (Z.to_nat num_opponents) (Deck_draw_many 2);
  let hole_hands := [hero_hole] ++ opp_hands in
  drawn_board ← Deck_draw_many cards_to_draw_board;
  mret (hole_hands, drawn_board).

(** The body of the loop of [simulate_hero_vs_random_opponents]. *)
Definition hero_trial (hero_hole board : list Card) (num_opponents : Z)
    (cards_to_draw_board : Z) (counts : Z * Z) : M RNG (Z * Z) :=
  let used := hero_hole ++ board in
  let full_deck := Deck_init None in
  let used_set : gset Card := list_to_set used in
  let remaining_cards := filter (λ c, c ∉ used_set) full_deck in
  deck ← Deck_shuffle (Deck_init (Some remaining_cards));
  dealt ← lift (deal_opponents_and_board hero_hole num_opponents
                  cards_to_draw_board deck).1;
  let hole_hands := dealt.1 in
  let full_board := board ++ dealt.2 in
  _ ← lift (validate_unique_cards hole_hands full_board);
  r ← lift (determine_winners hole_hands full_board);
  lift (record_hero r.1 counts).

(** [simulate_hero_vs_random_opponents] *)
Definition simulate_hero_vs_random_opponents (hero_hole board : list Card)
    (num_opponents num_samples : Z) : M RNG (Q * Q) :=
  if (length hero_hole <? 2)%nat then raise HeroTooFewHoleCards else
  if (5 <? length board)%nat then raise BoardSizeOutOfRange else
  if num_opponents <? 1 then raise TooFewOpponents else
  let cards_to_draw_board := 5 - Z.of_nat (length board) in
  if cards_to_draw_board <? 0 then raise BoardSizeOutOfRange else
  counts ← loopM (Z.to_nat num_samples)
             (hero_trial hero_hole board num_opponents cards_to_draw_board)
             (0, 0);
  win_prob ← lift (true_div counts.1 num_samples);
  tie_prob ← lift (true_div counts.2 num_samples);
  mret (win_prob, tie_prob).
End equity.

(* ================================================================== *)
(** * strategy.py                                                      *)
(* ================================================================== *)

(** Decimal literals denote the nearest binary64 value, as in Python. *)
#[local] Set Warnings "-inexact-float".

(** [@dataclass class CallDecision] *)
Record CallDecision := mkCallDecision {
  pot : float;
  to_call : float;
  win_prob : float;
  tie_prob : float;      (* default 0.0 *)
  risk_factor : float    (* default 0.0 *)
}.

(** The builtins [min(a, b)] and [max(a, b)] on floats: the first argument
    is kept unless the second compares strictly better. *)
Definition float_min (a b : float) : float := if (b <? a)%float then b else a.
Definition float_max (a b : float) : float := if (a <? b)%float then b else a.

(** [CallDecision.lose_prob] *)
Definition lose_prob (self : CallDecision) : float :=
  let lp := (1 - win_prob self - tie_prob self)%float in
  float_max 0 (float_min 1 lp).

(** [ev_call_chips] *)
Definition ev_call_chips (decision : CallDecision) : float :=
  let P := pot decision in
  let C := to_call decision in
  let p_win := win_prob decision in
  let p_tie := tie_prob decision in
  let p_lose := lose_prob decision in
  (p_win * P + p_tie * (0.5 * P - 0.5 * C) - p_lose * C)%float.

(** Float division of Python: a zero divisor raises. *)
Definition float_div (a b : float) : result float :=
  if (b =? 0)%float then Err ZeroDivision else Ok (a / b)%float.

(** [math.copysign(u, x)] *)
Definition copysign (u x : float) : float :=
  if get_sign x then (- abs u)%float else abs u.

(** Defaults of the keyword arguments of [utility]. *)
Definition default_chip_scale : float := 100%float.
Definition default_slider_scale : float := 0.1%float.

Section utility.
(** The float power [b ** a] of Python, which is the [pow] of the C
    library behind a range check that may raise. *)
Variable float_pow : float → float → result float.

(** [utility] *)
Definition utility (delta_chips risk_style chip_scale slider_scale : float)
  : result float :=
  let x := delta_chips in
  if (x =? 0)%float then Ok 0%float else
  let r := (risk_style * slider_scale)%float in
  if (abs r <? 1e-12)%float then Ok x else
  let k := abs r in
  a_gain_loss ←
    (if (0 <? r)%float then
       a_loss ← float_div 1 (1 + k); Ok ((1 + k)%float, a_loss)
     else
       a_gain ← float_div 1 (1 + k); Ok (a_gain, (1 + k)%float));
  let '(a_gain, a_loss) := a_gain_loss in
  let a := if (0 <? x)%float then a_gain else a_loss in
  let C := float_max chip_scale 1e-9 in
  s ← float_div (abs x) C;
  let s := float_min s 1e12 in
  p ← float_pow (s + 1) a;
  u ← float_div (C * (p - 1)) a;
  Ok (copysign u x).

(** [ev_call_utility] *)
Definition ev_call_utility (decision : CallDecision) : result float :=
  let P := pot decision in
  let C := to_call decision in
  let p_win := win_prob decision in
  let p_tie := tie_prob decision in
  let p_lose := lose_prob decision in
  let r := risk_factor decision in
  let delta_win := P in
  let delta_tie := (0.5 * P - 0.5 * C)%float in
  let delta_lose := (- C)%float in
  let cs := float_max 1 C in
  u_win ← utility delta_win r cs default_slider_scale;
  u_tie ← utility delta_tie r cs default_slider_scale;
  u_lose ← utility delta_lose r cs default_slider_scale;
  Ok (p_win * u_win + p_tie * u_tie + p_lose * u_lose)%float.
End utility.

(* ================================================================== *)
(** * Vocabulary of the statements                                     *)
(* ================================================================== *)

(** The rank and suit characters of a card code, in upper case: the keys
    of the dictionaries of [Rank.from_char] and [Suit.from_char]. *)
Definition rank_chars : list ascii :=
  ["2"; "3"; "4"; "5"; "6"; "7"; "8"; "9"; "T"; "J"; "Q"; "K"; "A"]%char.
Definition suit_chars : list ascii := ["C"; "D"; "H"; "S"]%char.

(** The key of a suit in the dictionary of [Suit.from_char]. *)
Definition Suit_letter (s : Suit) : ascii :=
  match s with CLUBS => "C" | DIAMONDS => "D" | HEARTS => "H" | SPADES => "S" end%char.

(** The five cards of ranks A, 2, 3, 4, 5 and of ranks 6, 5, 4, 3, 2 of
    one suit. *)
Definition wheel_of (s : Suit) : list Card :=
  [mkCard ACE s; mkCard TWO s; mkCard THREE s; mkCard FOUR s; mkCard FIVE s].
Definition six_high_of (s : Suit) : list Card :=
  [mkCard SIX s; mkCard FIVE s; mkCard FOUR s; mkCard THREE s; mkCard TWO s].

(** What the dictionary [seen] of [validate_unique_cards] holds after the
    labelled cards [pre] have been scanned without a collision. *)
Definition seen_after (seen : gmap Card Origin) (pre : list (Origin * Card)) : Prop :=
  ∀ c o, seen !! c = Some o ↔ (o, c) ∈ pre.

(** The cards left when the used ones are taken out of the full deck: the
    list [remaining_cards] of [equity.py]. *)
Definition remaining_of (used : list Card) : list Card :=
  filter (λ c, c ∉ (list_to_set used : gset Card)) (Deck_init None).

(* ================================================================== *)
(** * More of hand_eval.py: comparison and description                 *)
(* ================================================================== *)

(** [compare_hands] *)
Definition compare_hands (cards1 cards2 : list Card) : result Z :=
  h1 ← evaluate_best cards1;
  h2 ← evaluate_best cards2;
  if HandValue_lt h1 h2 then Ok (-1)
  else if HandValue_gt h1 h2 then Ok 1
  else Ok 0.

(** What [describe_hand_value] and [describe_best_hand] can raise: the
    exceptions of the evaluator, a [KeyError] of the two rank
    dictionaries, the [ValueError] of a tuple assignment of the wrong
    length, and the [IndexError] of [r[0]] on an empty list. *)
Inductive describe_error :=
  | Evaluation (e : error)
  | RankKeyError (rank : Z)
  | UnpackError
  | EmptyTiebreaker.

Inductive described (A : Type) :=
  | Described (a : A)
  | NotDescribed (e : describe_error).
Arguments Described {A} a.
Arguments NotDescribed {A} e.

#[global] Instance described_ret : MRet described := λ A a, Described a.
#[global] Instance described_bind : MBind described := λ A B f r,
  match r with Described a => f a | NotDescribed e => NotDescribed e end.

Local Open Scope string_scope.

(** [_rank_word] *)
Definition rank_word (rank : Z) : described string :=
  match rank with
  | 2 => Described "Two" | 3 => Described "Three" | 4 => Described "Four"
  | 5 => Described "Five" | 6 => Described "Six" | 7 => Described "Seven"
  | 8 => Described "Eight" | 9 => Described "Nine" | 10 => Described "Ten"
  | 11 => Described "Jack" | 12 => Described "Queen" | 13 => Described "King"
  | 14 => Described "Ace"
  | _ => NotDescribed (RankKeyError rank)
  end.

(** [_rank_word_plural] *)
Definition rank_word_plural (rank : Z) : described string :=
  match rank with
  | 2 => Described "Twos" | 3 => Described "Threes" | 4 => Described "Fours"
  | 5 => Described "Fives" | 6 => Described "Sixes" | 7 => Described "Sevens"
  | 8 => Described "Eights" | 9 => Described "Nines" | 10 => Described "Tens"
  | 11 => Described "Jacks" | 12 => Described "Queens" | 13 => Described "Kings"
  | 14 => Described "Aces"
  | _ => NotDescribed (RankKeyError rank)
  end.

(** [[_rank_word(x) for x in r]], left to right. *)
Fixpoint rank_words (r : list Z) : described (list string) :=
  match r with
  | [] => Described []
  | x :: r' => w ← rank_word x; ws ← rank_words r'; Described (w :: ws)
  end.

(** [sep.join(words)] *)
Fixpoint join (sep : string) (words : list string) : string :=
  match words with
  | [] => ""
  | [w] => w
  | w :: ws => w ++ sep ++ join sep ws
  end.

(** [describe_hand_value] *)
Definition describe_hand_value (hv : HandValue) : described string :=
  let cat := category hv in
  let r := tiebreaker hv in
  match cat with
  | STRAIGHT_FLUSH =>
      match r with
      | [] => NotDescribed EmptyTiebreaker
      | high :: _ =>
          if Z.eqb high 14 then Described "Royal flush"
          else if Z.eqb high 5 then Described "Five-high straight flush"
          else w ← rank_word high; Described (w ++ "-high straight flush")
      end
  | FOUR_OF_A_KIND =>
      match r with
      | [four; kicker] =>
          f ← rank_word_plural four; k ← rank_word kicker;
          Described ("Four of a kind, " ++ f ++ " with " ++ k ++ " kicker")
      | _ => NotDescribed UnpackError
      end
  | FULL_HOUSE =>
      match r with
      | [trip; pair_rank] =>
          t ← rank_word_plural trip; p ← rank_word_plural pair_rank;
          Described ("Full house, " ++ t ++ " over " ++ p)
      | _ => NotDescribed UnpackError
      end
  | FLUSH =>
      ws ← rank_words r; Described ("Flush, " ++ join " " ws)
  | STRAIGHT =>
      match r with
      | [] => NotDescribed EmptyTiebreaker
      | high :: _ =>
          if Z.eqb high 5 then Described "Five-high straight"
          else w ← rank_word high; Described (w ++ "-high straight")
      end
  | THREE_OF_A_KIND =>
      match r with
      | [] => NotDescribed EmptyTiebreaker
      | trip :: [] =>
          t ← rank_word_plural trip; Described ("Three of a kind, " ++ t)
      | trip :: kickers =>
          ws ← rank_words kickers; t ← rank_word_plural trip;
          Described ("Three of a kind, " ++ t ++ " with " ++ join ", " ws
                     ++ " kickers")
      end
  | TWO_PAIR =>
      match r with
      | [high_pair; low_pair; kicker] =>
          h ← rank_word_plural high_pair; l ← rank_word_plural low_pair;
          k ← rank_word kicker;
          Described ("Two pair, " ++ h ++ " and " ++ l ++ " with " ++ k
                     ++ " kicker")
      | _ => NotDescribed UnpackError
      end
  | ONE_PAIR =>
      match r with
      | [] => NotDescribed EmptyTiebreaker
      | pair_rank :: [] =>
          p ← rank_word_plural pair_rank; Described ("Pair of " ++ p)
      | pair_rank :: kickers =>
          ws ← rank_words kickers; p ← rank_word_plural pair_rank;
          Described ("Pair of " ++ p ++ " with " ++ join ", " ws ++ " kickers")
      end
  | HIGH_CARD =>
      match r with
      | [] => NotDescribed EmptyTiebreaker
      | high :: _ =>
          ws ← rank_words r; h ← rank_word high;
          Described (h ++ "-high (" ++ join ", " ws ++ ")")
      end
  end.

Local Close Scope string_scope.

(** [describe_best_hand] *)
Definition describe_best_hand (cards : list Card) : described string :=
  match evaluate_best cards with
  | Ok hv => describe_hand_value hv
  | Err e => NotDescribed (Evaluation e)
  end.

(* ================================================================== *)
(** * More of strategy.py: the raise decision                          *)
(* ================================================================== *)

(** [@dataclass class RaiseDecision] *)
Record RaiseDecision := mkRaiseDecision {
  raise_pot : float;
  raise_to_call : float;
  bet_size : float;
  fold_prob : float;
  win_prob_call : float;
  tie_prob_call : float;                 (* default 0.0 *)
  raise_risk_factor : float;             (* default 0.0 *)
  expected_callers_when_called : float   (* default 1.0 *)
}.

(** [RaiseDecision.lose_prob_call] *)
Definition lose_prob_call (self : RaiseDecision) : float :=
  let lp := (1 - win_prob_call self - tie_prob_call self)%float in
  float_max 0 (float_min 1 lp).

(** [ev_raise_chips] *)
Definition ev_raise_chips (decision : RaiseDecision) : float :=
  let P := raise_pot decision in
  let C := raise_to_call decision in
  let B := bet_size decision in
  let pf_all := fold_prob decision in
  let k := float_max 1 (expected_callers_when_called decision) in
  let p_win := win_prob_call decision in
  let p_tie := tie_prob_call decision in
  let p_lose := lose_prob_call decision in
  let delta_win := (P + k * B)%float in
  let delta_tie := (0.5 * P + 0.5 * (k - 1) * B - 0.5 * C)%float in
  let delta_lose := (- B - C)%float in
  let ev_if_called :=
    (p_win * delta_win + p_tie * delta_tie + p_lose * delta_lose)%float in
  (pf_all * P + (1 - pf_all) * ev_if_called)%float.

Section raise_utility.
Variable float_pow : float → float → result float.

(** [ev_raise_utility] *)
Definition ev_raise_utility (decision : RaiseDecision) : result float :=
  let P := raise_pot decision in
  let C := raise_to_call decision in
  let B := bet_size decision in
  let pf_all := fold_prob decision in
  let r := raise_risk_factor decision in
  let k := float_max 1 (expected_callers_when_called decision) in
  let p_win := win_prob_call decision in
  let p_tie := tie_prob_call decision in
  let p_lose := lose_prob_call decision in
  let cs := float_max 1 (C + B) in
  u_fold ← utility float_pow P r cs default_slider_scale;
  let delta_win := (P + k * B)%float in
  let delta_tie := (0.5 * P + 0.5 * (k - 1) * B - 0.5 * C)%float in
  let delta_lose := (- B - C)%float in
  u_win_call ← utility float_pow delta_win r cs default_slider_scale;
  u_tie_call ← utility float_pow delta_tie r cs default_slider_scale;
  u_lose_call ← utility float_pow delta_lose r cs default_slider_scale;
  let eu_if_called :=
    (p_win * u_win_call + p_tie * u_tie_call + p_lose * u_lose_call)%float in
  Ok (pf_all * u_fold + (1 - pf_all) * eu_if_called)%float.
End raise_utility.

(** What [utility] returns at neutral risk: the chip delta, with 0.0 for
    a zero of either sign. *)
Definition neutral_utility (x : float) : float :=
  if (x =? 0)%float then 0%float else x.

(* ================================================================== *)
(** * app.py: dealing a new hand                                       *)
(* ================================================================== *)

Section app.
Context {RNG : Type}.
Variable random_shuffle : list Card → RNG → list Card * RNG.

(** [new_deck] *)
Definition new_deck : M RNG Deck :=
  Deck_shuffle random_shuffle (Deck_init None).

(** [deal_new_hand]: the deck, the hero's cards and the empty board.  The
    argument [num_opponents] is not used by the source. *)
Definition deal_new_hand (num_opponents : Z) : M RNG (Deck * list Card * list Card) :=
  deck ← new_deck;
  let '(r, deck') := Deck_draw_many 2 deck in
  hero ← lift r;
  let board : list Card := [] in
  mret (deck', hero, board).
End app.

(* ================================================================== *)
(** * app.py: the session and the buttons of the sidebar               *)
(* ================================================================== *)

(** The entries [deck], [hero] and [board] of [st.session_state]. *)
Record Session := mkSession {
  session_deck : option Deck;
  session_hero : option (list Card);
  session_board : list Card
}.

(** The session as the script initialises it. *)
Definition initial_session : Session := mkSession None None [].

(** The four buttons, in the order in which the script asks for them. *)
Inductive Button := NewHand | Flop | Turn | River.

(** The body shared by the buttons "Flop", "Turn" and "River": with a deck
    in the session and [opened] cards on the board, burn a card, draw
    [n] cards and extend the board with them.  The deck of the session is
    the object that [draw] and [draw_many] mutate, so it keeps what they
    did when one of them raises. *)
Definition on_street (opened : nat) (n : Z) : M Session unit := λ s,
  match session_deck s with
  | Some d =>
    if bool_decide (length (session_board s) = opened) then
      let '(r, d') := (_ ← Deck_draw; Deck_draw_many n) d in
      match r with
      | Ok cards =>
          (Ok tt, mkSession (Some d') (session_hero s) (session_board s ++ cards))
      | Err e => (Err e, mkSession (Some d') (session_hero s) (session_board s))
      end
    else (Ok tt, s)
  | None => (Ok tt, s)
  end.

Section page.
Context {RNG : Type}.
Variable random_shuffle : list Card → RNG → list Card * RNG.

(** The body of the button "Nova roka / Preflop". *)
Definition on_new_hand (num_opponents : Z) : M (Session * RNG) unit := λ '(s, g),
  let '(r, g') := deal_new_hand random_shuffle num_opponents g in
  match r with
  | Ok (deck, hero, board) => (Ok tt, (mkSession (Some deck) (Some hero) board, g'))
  | Err e => (Err e, (s, g'))
  end.

(** A handler that does not shuffle. *)
Definition in_session {A} (m : M Session A) : M (Session * RNG) A := λ '(s, g),
  let '(r, s') := m s in (r, (s', g)).

(** [if st.sidebar.button(...): body] *)
Definition when_pressed (pressed : bool) (body : M (Session * RNG) unit)
  : M (Session * RNG) unit :=
  if pressed then body else mret tt.

(** One run of the script, down to the last button. *)
Definition rerun (num_opponents : Z) (pressed : Button → bool)
  : M (Session * RNG) unit :=
  _ ← when_pressed (pressed NewHand) (on_new_hand num_opponents);
  _ ← when_pressed (pressed Flop) (in_session (on_street 0 3));
  _ ← when_pressed (pressed Turn) (in_session (on_street 3 1));
  when_pressed (pressed River) (in_session (on_street 4 1)).

(** Runs of the script one after the other, each with the number of
    opponents of the slider and the buttons pressed. *)
Fixpoint reruns (runs : list (Z * (Button → bool))) : M (Session * RNG) unit :=
  match runs with
  | [] => mret tt
  | (num_opponents, pressed) :: rest =>
      _ ← rerun num_opponents pressed; reruns rest
  end.
End page.

(** The number of samples of the page. *)
Definition page_samples : Z := 20000.

(** A session between two hands of the page: nothing dealt yet, or two
    cards for the hero, a board of 0, 3, 4 or 5 cards and the deck that
    is left after the burns, no card twice among them. *)
Definition dealt (s : Session) : Prop :=
  match session_deck s, session_hero s with
  | None, None => session_board s = []
  | Some deck, Some hero =>
      length hero = 2%nat
      ∧ NoDup (hero ++ session_board s ++ deck)
      ∧ (length (session_board s), length deck)
        ∈ [(0, 50); (3, 46); (4, 44); (5, 42)]%nat
  | _, _ => False
  end.

(** The length of the tiebreaker of each category. *)
Definition tiebreaker_arity (c : HandCategory) : nat :=
  match c with
  | STRAIGHT_FLUSH | STRAIGHT => 1
  | FOUR_OF_A_KIND | FULL_HOUSE => 2
  | THREE_OF_A_KIND | TWO_PAIR => 3
  | ONE_PAIR => 4
  | FLUSH | HIGH_CARD => 5
  end.

(** The ranks of a list of cards, as integers. *)
Definition ranks_of (cards : list Card) : list Z :=
  (λ c, Rank_value (rank c)) <$> cards.

(** The card [c] stands at the place that the label [o] names. *)
Definition stands_at (hole_hands : list (list Card)) (board : list Card)
    (o : Origin) (c : Card) : Prop :=
  match o with
  | PlayerHole i => ∃ hole, hole_hands !! i = Some hole ∧ c ∈ hole
  | BoardAt j => board !! j = Some c
  end.

(* ================================================================== *)
(** * Properties of the deck                                           *)
(* ================================================================== *)

Section deck_facts.
Implicit Types (cards : Deck) (c : Card).

Lemma pop_snoc {A} (l : list A) (x : A) : pop (l ++ [x]) = Some (x, l).
Proof.
  induction l as [|y l IH]; simpl; [done|].
  by rewrite IH.
Qed.

Lemma snoc_inv {A} (l : list A) : l ≠ [] → ∃ l' x, l = l' ++ [x].
Proof.
  destruct l as [|y l] using rev_ind; [done|]; eauto.
Qed.

Lemma Deck_draw_snoc cards c : Deck_draw (cards ++ [c]) = (Ok c, cards).
Proof. unfold Deck_draw. by rewrite pop_snoc. Qed.

Lemma Deck_draw_nil : Deck_draw [] = (Err DeckExhausted, []).
Proof. done. Qed.

(** [k] draws in a row, when the deck holds at least [k] cards: the last
    [k] cards come out, last card first, and the rest stays. *)
Lemma repeat_draw (k : nat) cards :
  (k ≤ length cards)%nat →
  repeatM k Deck_draw cards
  = (Ok (reverse (drop (length cards - k) cards)), take (length cards - k) cards).
Proof.
  revert cards. induction k as [|k IH]; intros cards Hk.
  - simpl. rewrite Nat.sub_0_r, drop_all, take_ge by lia. done.
  - destruct (snoc_inv cards) as (l & x & ->).
    { intros ->. simpl in Hk. lia. }
    rewrite length_app in *. simpl in *.
    unfold mbind, M_bind. rewrite Deck_draw_snoc.
    fold (@mbind (M Deck) _). unfold mbind, M_bind.
    rewrite IH by lia.
    replace (length l + 1 - S k)%nat with (length l - k)%nat by lia.
    rewrite drop_app_le, take_app_le by lia.
    by rewrite reverse_snoc.
Qed.
End deck_facts.

(** C7.  [draw_many(n)] raises [InvalidArgument] exactly when [n < 0] and
    [InsufficientCards] exactly when [n] exceeds the number of remaining
    cards; in both cases the deck keeps its cards.  Otherwise it is [n]
    draws in a row: it returns the last [n] cards of the deck, the last
    card first, and leaves the cards before them. *)
Theorem Deck_draw_many_spec (n : Z) (cards : Deck) :
  ((Deck_draw_many n cards).1 = Err InvalidArgument ↔ n < 0)
  ∧ ((∃ m left, (Deck_draw_many n cards).1 = Err (InsufficientCards m left))
     ↔ n > Z.of_nat (length cards))
  ∧ (n < 0 ∨ n > Z.of_nat (length cards) → (Deck_draw_many n cards).2 = cards)
  ∧ (0 ≤ n ≤ Z.of_nat (length cards) →
     Deck_draw_many n cards = repeatM (Z.to_nat n) Deck_draw cards
     ∧ Deck_draw_many n cards
       = (Ok (reverse (drop (length cards - Z.to_nat n) cards)),
          take (length cards - Z.to_nat n) cards)).
Proof.
  unfold Deck_draw_many, raise.
  destruct (Z.ltb_spec n 0) as [Hneg|Hnn]; simpl.
  { repeat split; try done; try lia.
    intros (m & left & [=]). }
  destruct (n >? Z.of_nat (length cards)) eqn:Hgt; simpl.
  { apply Z.gtb_lt in Hgt.
    repeat split; try done; try lia. eauto. }
  assert (n ≤ Z.of_nat (length cards)) as Hle.
  { rewrite Z.gtb_ltb in Hgt. by apply Z.ltb_ge in Hgt. }
  rewrite repeat_draw by lia. simpl.
  repeat split; try done; try lia.
  intros (m & left & [=]).
Qed.

(** C9 (the code at [n = 0]).  [peek(0)] returns every card of the deck,
    not the last zero cards: the slice [_cards[-0:]] is [_cards[0:]]. *)
Theorem Deck_peek_zero_whole_deck (cards : Deck) :
  Deck_peek 0 cards = (Ok cards, cards)
  ∧ (Deck_peek 0 (Deck_init None)).1 = Ok (Deck_init None)
  ∧ length (Deck_init None) = 52%nat.
Proof.
  split; [|done].
  unfold Deck_peek, slice_from. simpl.
  rewrite Z.min_l by lia. done.
Qed.

(** For [n >= 1], [peek(n)] returns the last [n] cards (all of them when
    [n] exceeds the size) and the deck keeps its cards. *)
Lemma Deck_peek_positive (n : Z) (cards : Deck) :
  1 ≤ n →
  Deck_peek n cards = (Ok (drop (length cards - Z.to_nat n) cards), cards).
Proof.
  intros Hn. unfold Deck_peek, slice_from.
  destruct (Z.ltb_spec n 0); [lia|].
  destruct (Z.ltb_spec (- n) 0); [|lia].
  do 3 f_equal. lia.
Qed.

(* ================================================================== *)
(** * Properties of card parsing                                       *)
(* ================================================================== *)

Lemma Rank_from_char_ok (ch : ascii) :
  upper ch ∈ rank_chars →
  ∃ r, Rank_from_char ch = Ok r ∧ Rank_label r = upper ch.
Proof.
  unfold Rank_from_char, rank_chars. intros H.
  repeat (apply elem_of_cons in H as [->|H]; [eexists; split; reflexivity|]).
  by apply elem_of_nil in H.
Qed.

Lemma Rank_from_char_err (ch : ascii) :
  upper ch ∉ rank_chars →
  Rank_from_char ch = Err (InvalidCardFormat BadRankChar).
Proof.
  unfold Rank_from_char, rank_chars. intros H.
  destruct (upper ch) as [[] [] [] [] [] [] [] []]; try reflexivity;
    exfalso; apply H; set_solver.
Qed.

Lemma Suit_from_char_ok (ch : ascii) :
  upper ch ∈ suit_chars →
  ∃ s, Suit_from_char ch = Ok s ∧ Suit_letter s = upper ch.
Proof.
  unfold Suit_from_char, suit_chars. intros H.
  repeat (apply elem_of_cons in H as [->|H]; [eexists; split; reflexivity|]).
  by apply elem_of_nil in H.
Qed.

Lemma Suit_from_char_err (ch : ascii) :
  upper ch ∉ suit_chars →
  Suit_from_char ch = Err (InvalidCardFormat BadSuitChar).
Proof.
  unfold Suit_from_char, suit_chars. intros H.
  destruct (upper ch) as [[] [] [] [] [] [] [] []]; try reflexivity;
    exfalso; apply H; set_solver.
Qed.

(** C8 as the claim states it fails: a text of three characters is
    accepted, because the text is stripped before its length is tested. *)
Lemma Card_from_str_padded_accepted :
  String.length " AS" ≠ 2%nat
  ∧ Card_from_str " AS" = Ok (mkCard ACE SPADES).
Proof. split; [by compute | reflexivity]. Qed.

(** C8, amended.  [Card.from_str] strips the white space at both ends of
    the text and decides on what is left: anything but two characters is
    [InvalidCardFormat]; of two characters, the first must be a rank
    character and the second a suit character, in either case, else
    [InvalidCardFormat]; and then the card of that rank and suit is
    returned. *)
Theorem Card_from_str_spec (text : string) :
  (String.length (strip text) ≠ 2%nat →
     Card_from_str text = Err (InvalidCardFormat BadLength))
  ∧ (∀ r_ch s_ch, strip text = String r_ch (String s_ch EmptyString) →
       (upper r_ch ∉ rank_chars →
          Card_from_str text = Err (InvalidCardFormat BadRankChar))
       ∧ (upper r_ch ∈ rank_chars → upper s_ch ∉ suit_chars →
          Card_from_str text = Err (InvalidCardFormat BadSuitChar))
       ∧ (upper r_ch ∈ rank_chars → upper s_ch ∈ suit_chars →
          ∃ r s, Card_from_str text = Ok (mkCard r s)
                 ∧ Rank_label r = upper r_ch ∧ Suit_letter s = upper s_ch)).
Proof.
  unfold Card_from_str. split.
  - intros Hlen. destruct (strip text) as [|a [|b [|c t]]]; try done.
  - intros r_ch s_ch ->. repeat split.
    + intros Hr. by rewrite (Rank_from_char_err _ Hr).
    + intros Hr Hs. destruct (Rank_from_char_ok _ Hr) as (r & -> & _).
      simpl. by rewrite (Suit_from_char_err _ Hs).
    + intros Hr Hs.
      destruct (Rank_from_char_ok _ Hr) as (r & -> & Hlr).
      destruct (Suit_from_char_ok _ Hs) as (s & -> & Hls).
      by exists r, s.
Qed.

(** Either case is accepted, and the text may be padded. *)
Example Card_from_str_examples :
  Card_from_str "td" = Ok (mkCard TEN DIAMONDS)
  ∧ Card_from_str "9H" = Ok (mkCard NINE HEARTS)
  ∧ Card_from_str "  Kc " = Ok (mkCard KING CLUBS)
  ∧ Card_from_str "10H" = Err (InvalidCardFormat BadLength)
  ∧ Card_from_str "1H" = Err (InvalidCardFormat BadRankChar)
  ∧ Card_from_str "AX" = Err (InvalidCardFormat BadSuitChar).
Proof. repeat split. Qed.

(* ================================================================== *)
(** * The wheel                                                        *)
(* ================================================================== *)

(** A property of every arrangement of a hand, checked on the list of its
    arrangements. *)
Lemma for_all_arrangements {A} (P : list A → Prop) (hand : list A) :
  Forall P (permutations hand) → ∀ l, l ≡ₚ hand → P l.
Proof.
  intros HP l Hl. rewrite Forall_forall in HP. apply HP.
  apply permutations_Permutation. by symmetry.
Qed.

Lemma wheel_arrangements (s : Suit) :
  Forall (λ l, evaluate_5cards l = Ok (mkHandValue STRAIGHT_FLUSH [5]))
         (permutations (wheel_of s)).
Proof. destruct s; apply (bool_decide_unpack _); vm_compute; exact I. Qed.

Lemma six_high_arrangements (s : Suit) :
  Forall (λ l, evaluate_5cards l = Ok (mkHandValue STRAIGHT_FLUSH [6]))
         (permutations (six_high_of s)).
Proof. destruct s; apply (bool_decide_unpack _); vm_compute; exact I. Qed.

(** C3.  In whatever order the cards are given, A-2-3-4-5 of one suit is a
    straight flush with tiebreaker (5,), 6-5-4-3-2 of one suit is a
    straight flush with tiebreaker (6,), and the first is strictly less
    than the second. *)
Theorem wheel_below_six_high (s s' : Suit) (wheel six : list Card) :
  wheel ≡ₚ wheel_of s →
  six ≡ₚ six_high_of s' →
  ∃ hw hs,
    evaluate_5cards wheel = Ok hw ∧ evaluate_5cards six = Ok hs
    ∧ hw = mkHandValue STRAIGHT_FLUSH [5]
    ∧ hs = mkHandValue STRAIGHT_FLUSH [6]
    ∧ HandValue_lt hw hs = true ∧ HandValue_gt hs hw = true.
Proof.
  intros Hw Hs.
  exists (mkHandValue STRAIGHT_FLUSH [5]), (mkHandValue STRAIGHT_FLUSH [6]).
  split; [|split].
  - by apply (for_all_arrangements _ _ (wheel_arrangements s)).
  - by apply (for_all_arrangements _ _ (six_high_arrangements s')).
  - done.
Qed.

Lemma wheel_below_six_high_witness :
  ∃ hw hs,
    evaluate_5cards (wheel_of SPADES) = Ok hw
    ∧ evaluate_5cards (six_high_of SPADES) = Ok hs
    ∧ hw = mkHandValue STRAIGHT_FLUSH [5]
    ∧ hs = mkHandValue STRAIGHT_FLUSH [6]
    ∧ HandValue_lt hw hs = true ∧ HandValue_gt hs hw = true.
Proof.
  apply (wheel_below_six_high SPADES SPADES); reflexivity.
Defined.

(* ================================================================== *)
(** * The call decision                                                *)
(* ================================================================== *)

Local Open Scope float_scope.

(** C5.  [ev_call_chips] is win_prob * pot + tie_prob * (0.5 * pot - 0.5 *
    to_call) - lose_prob * to_call in binary64 arithmetic, where
    [lose_prob] is lp = 1 - win_prob - tie_prob clamped to [0, 1]: lp
    itself when 0 < lp < 1, 1 when lp is not below 1, 0 when lp is below 1
    and not above 0.  For pot 100, to_call 50, win_prob 1.0 and tie_prob
    0.0 the value is 100. *)
Theorem ev_call_chips_spec (d : CallDecision) :
  let lp := 1 - win_prob d - tie_prob d in
  ev_call_chips d
  = win_prob d * pot d + tie_prob d * (0.5 * pot d - 0.5 * to_call d)
    - lose_prob d * to_call d
  ∧ lose_prob d = float_max 0 (float_min 1 lp)
  ∧ ((0 <? lp) = true → (lp <? 1) = true → lose_prob d = lp)
  ∧ ((lp <? 1) = false → lose_prob d = 1)
  ∧ ((lp <? 1) = true → (0 <? lp) = false → lose_prob d = 0)
  ∧ ev_call_chips (mkCallDecision 100 50 1 0 0) = 100.
Proof.
  intros lp. unfold ev_call_chips, lose_prob, float_max, float_min.
  fold lp. repeat split.
  - intros H0 H1. by rewrite H1, H0.
  - intros H1. by rewrite H1.
  - intros H1 H0. by rewrite H1, H0.
Qed.

(** C6.  With the default slider scale, [utility] maps a zero chip delta
    (of either sign) to 0 for every risk style and chip scale, and with
    risk style 0 (of either sign) it returns a nonzero chip delta
    unchanged for every chip scale; neither case reaches the power. *)
Theorem utility_identities (float_pow : float → float → result float)
    (x r chip_scale : float) :
  utility float_pow 0 r chip_scale default_slider_scale = Ok 0
  ∧ utility float_pow (-0) r chip_scale default_slider_scale = Ok 0
  ∧ ((x =? 0) = false →
       utility float_pow x 0 chip_scale default_slider_scale = Ok x
       ∧ utility float_pow x (-0) chip_scale default_slider_scale = Ok x).
Proof.
  repeat split; unfold utility; try reflexivity; by rewrite H.
Qed.

Lemma utility_identities_witness :
  utility (λ _ _, Err Overflow) 250 0 100 default_slider_scale = Ok 250.
Proof.
  apply (utility_identities (λ _ _, Err Overflow) 250 0 100). reflexivity.
Defined.

Local Close Scope float_scope.

(* ================================================================== *)
(** * The order of hand values                                         *)
(* ================================================================== *)

Section hand_order.
Implicit Types (a b c : HandValue) (s t u : list Z).

Lemma tuple_compare_refl s : tuple_compare s s = Eq.
Proof. induction s as [|x s IH]; simpl; [done|]. by rewrite Z.compare_refl. Qed.

Lemma tuple_compare_eq s t : tuple_compare s t = Eq → s = t.
Proof.
  revert t. induction s as [|x s IH]; intros [|y t]; simpl; try done.
  destruct (Z.compare_spec x y) as [->| |]; try done.
  intros Ht. f_equal; auto.
Qed.

Lemma tuple_compare_antisym s t :
  tuple_compare t s = CompOpp (tuple_compare s t).
Proof.
  revert t. induction s as [|x s IH]; intros [|y t]; simpl; try done.
  rewrite (Z.compare_antisym x y).
  destruct (x ?= y); simpl; auto.
Qed.

Lemma tuple_compare_trans s t u :
  tuple_compare s t ≠ Gt → tuple_compare t u ≠ Gt → tuple_compare s u ≠ Gt.
Proof.
  revert t u. induction s as [|x s IH]; intros [|y t] [|z u]; simpl; try done.
  destruct (Z.compare_spec x y), (Z.compare_spec y z), (Z.compare_spec x z);
    try done; try lia; eauto.
Qed.

Lemma HandCategory_value_inj (k k' : HandCategory) :
  HandCategory_value k = HandCategory_value k' → k = k'.
Proof. by destruct k, k'. Qed.

Lemma HandValue_compare_refl a : HandValue_compare a a = Eq.
Proof.
  unfold HandValue_compare. by rewrite Z.compare_refl, tuple_compare_refl.
Qed.

Lemma HandValue_compare_eq a b : HandValue_compare a b = Eq ↔ a = b.
Proof.
  split; [|intros ->; apply HandValue_compare_refl].
  unfold HandValue_compare. destruct a as [k s], b as [k' t]; simpl.
  destruct (Z.compare_spec (HandCategory_value k) (HandCategory_value k'));
    try done.
  intros Ht%tuple_compare_eq. f_equal; [by apply HandCategory_value_inj|done].
Qed.

Lemma HandValue_compare_antisym a b :
  HandValue_compare b a = CompOpp (HandValue_compare a b).
Proof.
  unfold HandValue_compare.
  rewrite (Z.compare_antisym (HandCategory_value (category a))).
  destruct (_ ?= _); simpl; auto using tuple_compare_antisym.
Qed.

Lemma HandValue_le_refl a : HandValue_le a a = true.
Proof. unfold HandValue_le. by rewrite HandValue_compare_refl. Qed.

Lemma HandValue_le_trans a b c :
  HandValue_le a b = true → HandValue_le b c = true → HandValue_le a c = true.
Proof.
  unfold HandValue_le, HandValue_compare.
  pose proof (tuple_compare_trans (tiebreaker a) (tiebreaker b) (tiebreaker c))
    as Htr.
  destruct (Z.compare_spec (HandCategory_value (category a))
                           (HandCategory_value (category b))),
           (Z.compare_spec (HandCategory_value (category b))
                           (HandCategory_value (category c))),
           (Z.compare_spec (HandCategory_value (category a))
                           (HandCategory_value (category c)));
    try done; try lia.
  destruct (tuple_compare (tiebreaker a) (tiebreaker b)),
           (tuple_compare (tiebreaker b) (tiebreaker c)),
           (tuple_compare (tiebreaker a) (tiebreaker c)); try done;
    exfalso; by apply Htr.
Qed.

Lemma HandValue_le_antisym a b :
  HandValue_le a b = true → HandValue_le b a = true → a = b.
Proof.
  unfold HandValue_le. rewrite (HandValue_compare_antisym a b).
  destruct (HandValue_compare a b) eqn:E; simpl; try done.
  intros _ _. by apply HandValue_compare_eq.
Qed.

Lemma HandValue_le_total a b :
  HandValue_le a b = true ∨ HandValue_le b a = true.
Proof.
  unfold HandValue_le. rewrite (HandValue_compare_antisym a b).
  destruct (HandValue_compare a b); simpl; auto.
Qed.

Lemma HandValue_gt_le a b : HandValue_gt a b = true → HandValue_le b a = true.
Proof.
  unfold HandValue_gt, HandValue_le. rewrite (HandValue_compare_antisym a b).
  by destruct (HandValue_compare a b).
Qed.

Lemma HandValue_not_gt_le a b : HandValue_gt a b = false → HandValue_le a b = true.
Proof.
  unfold HandValue_gt, HandValue_le. by destruct (HandValue_compare a b).
Qed.
End hand_order.

(* ================================================================== *)
(** * Combinations                                                     *)
(* ================================================================== *)

(** [combinations l k] lists the sub-sequences of [l] of length [k]. *)
Lemma elem_of_combinations {A} (l : list A) (k : nat) (c : list A) :
  c ∈ combinations l k ↔ c `sublist_of` l ∧ length c = k.
Proof.
  revert k c. induction l as [|x l IH]; intros [|k] c; simpl.
  - rewrite list_elem_of_singleton, sublist_nil_r.
    split; [by intros ->|by intros [? _]].
  - rewrite elem_of_nil, sublist_nil_r. split; [done|]. by intros [-> ?].
  - rewrite list_elem_of_singleton. split.
    + intros ->. split; [apply sublist_nil_l|done].
    + intros [_ H]. by destruct c.
  - rewrite elem_of_app, list_elem_of_fmap, sublist_cons_r.
    setoid_rewrite IH. split.
    + intros [(c' & -> & Hs & Hl)|[Hs Hl]]; simpl; [|by auto].
      split; [right; eauto|congruence].
    + intros [[Hs|(c' & -> & Hs)] Hl]; [by right|].
      left. exists c'. simpl in Hl. repeat split; [done|lia].
Qed.

Lemma combinations_length (cards : list Card) (combo : list Card) :
  combo ∈ combinations cards 5 → length combo = 5%nat.
Proof. by intros [_ ?]%elem_of_combinations. Qed.

Lemma combinations_cons_ne {A} (l : list A) (k : nat) :
  (k ≤ length l)%nat → combinations l k ≠ [].
Proof.
  revert k. induction l as [|x l IH]; intros [|k] Hk; simpl in *; try done; [lia|].
  intros [H _]%app_eq_nil. apply fmap_nil_inv in H. by apply (IH k); [lia|].
Qed.

(* ================================================================== *)
(** * The five-card evaluator returns                                  *)
(* ================================================================== *)

Lemma sorted_desc_Permutation (xs : list Z) : sorted_desc xs ≡ₚ xs.
Proof. apply merge_sort_Permutation. Qed.

Lemma py_max_ok {A} (gt : A → A → bool) (xs : list A) :
  xs ≠ [] → ∃ x, py_max gt xs = Ok x.
Proof. destruct xs; [done|]. simpl. eauto. Qed.

(** A count that occurs in the signature is the count of some rank. *)
Lemma ranks_with_nonempty (n : Z) (rank_counts : gmap Z Z) :
  n ∈ sorted_desc (map_to_list rank_counts).*2 → ranks_with n rank_counts ≠ [].
Proof.
  rewrite sorted_desc_Permutation.
  intros ([r n'] & -> & Hin)%list_elem_of_fmap. simpl.
  unfold ranks_with. intros Hnil%fmap_nil_inv.
  assert ((r, n') ∈ filter (λ p : Z * Z, p.2 = n') (map_to_list rank_counts)) as H.
  { by apply list_elem_of_filter. }
  rewrite Hnil in H. by apply elem_of_nil in H.
Qed.

Lemma py_max_ranks_with (n : Z) (rank_counts : gmap Z Z) (sig : list Z) :
  sorted_desc (map_to_list rank_counts).*2 = sig → n ∈ sig →
  ∃ r, py_max Z.gtb (ranks_with n rank_counts) = Ok r.
Proof. intros <- Hn. by apply py_max_ok, ranks_with_nonempty. Qed.

(** On five cards [_evaluate_5cards] raises nothing. *)
Lemma evaluate_5cards_total (cards : list Card) :
  length cards = 5%nat → ∃ hv, evaluate_5cards cards = Ok hv.
Proof.
  intros Hlen. unfold evaluate_5cards. rewrite Hlen. simpl.
  set (rc := Counter _).
  destruct (bool_decide (size _ = 1%nat)), (find_straight _); eauto;
    repeat case_bool_decide; eauto;
    repeat match goal with
    | H : sorted_desc _ = ?sig |- context [py_max Z.gtb (ranks_with ?n rc)] =>
        let r := fresh "r" in let Hr := fresh "Hr" in
        destruct (py_max_ranks_with n rc sig H) as [r Hr]; [set_solver|];
        rewrite Hr; simpl
    end; eauto.
Qed.

Lemma evaluate_5cards_wrong_size (cards : list Card) :
  length cards ≠ 5%nat → evaluate_5cards cards = Err InvalidHandSize.
Proof.
  intros Hlen. unfold evaluate_5cards.
  by destruct (Nat.eqb_spec (length cards) 5).
Qed.

(* ================================================================== *)
(** * The best hand of six or more cards                               *)
(* ================================================================== *)

(** The loop of [evaluate_best], started on a best value [b], over
    combinations that all evaluate: it ends on a value that is [b] or the
    value of one of the combinations, and that none of them exceeds. *)
Lemma best_loop_from (b : HandValue) (combos : list (list Card)) :
  (∀ combo, combo ∈ combos → length combo = 5%nat) →
  ∃ best,
    foldlM best_step (Some b) combos = Ok (Some best)
    ∧ HandValue_le b best = true
    ∧ (best = b ∨ ∃ combo, combo ∈ combos ∧ evaluate_5cards combo = Ok best)
    ∧ ∀ combo, combo ∈ combos →
        ∃ hv, evaluate_5cards combo = Ok hv ∧ HandValue_le hv best = true.
Proof.
  revert b. induction combos as [|c combos IH]; intros b Hlen.
  - exists b. repeat split; auto using HandValue_le_refl.
    intros combo []%elem_of_nil.
  - destruct (evaluate_5cards_total c) as [hv Hhv]; [apply Hlen; left|].
    assert (∀ combo, combo ∈ combos → length combo = 5%nat) as Hlen'.
    { intros combo ?. apply Hlen. by right. }
    simpl. unfold best_step at 2. rewrite Hhv. simpl.
    destruct (HandValue_gt hv b) eqn:Hgt; simpl.
    + destruct (IH hv Hlen') as (best & -> & Hle & Hfrom & Hmax).
      exists best. repeat split.
      * eapply HandValue_le_trans; [by apply HandValue_gt_le|done].
      * right. destruct Hfrom as [->|(combo & ? & ?)].
        -- exists c. split; [left|done].
        -- exists combo. split; [by right|done].
      * intros combo [->|Hin]%elem_of_cons; [eauto|auto].
    + destruct (IH b Hlen') as (best & -> & Hle & Hfrom & Hmax).
      exists best. repeat split; [done| |].
      * destruct Hfrom as [->|(combo & ? & ?)]; [by left|].
        right. exists combo. split; [by right|done].
      * intros combo [->|Hin]%elem_of_cons; [|auto].
        exists hv. split; [done|].
        eapply HandValue_le_trans; [by apply HandValue_not_gt_le|done].
Qed.

(** The loop started on [None], over a non-empty list of combinations. *)
Lemma best_loop (combos : list (list Card)) :
  combos ≠ [] →
  (∀ combo, combo ∈ combos → length combo = 5%nat) →
  ∃ best,
    foldlM best_step None combos = Ok (Some best)
    ∧ (∃ combo, combo ∈ combos ∧ evaluate_5cards combo = Ok best)
    ∧ ∀ combo, combo ∈ combos →
        ∃ hv, evaluate_5cards combo = Ok hv ∧ HandValue_le hv best = true.
Proof.
  destruct combos as [|c combos]; [done|]. intros _ Hlen.
  destruct (evaluate_5cards_total c) as [hv Hhv]; [apply Hlen; left|].
  simpl. unfold best_step at 2. rewrite Hhv. simpl.
  destruct (best_loop_from hv combos) as (best & -> & Hle & Hfrom & Hmax).
  { intros combo ?. apply Hlen. by right. }
  exists best. repeat split.
  - destruct Hfrom as [->|(combo & ? & ?)].
    + exists c. split; [left|done].
    + exists combo. split; [by right|done].
  - intros combo [->|Hin]%elem_of_cons; [eauto|auto].
Qed.

Lemma combinations_7_5 {A} (l : list A) :
  length l = 7%nat → length (combinations l 5) = 21%nat.
Proof.
  destruct l as [|a [|b [|c [|d [|e [|f [|g [|h l]]]]]]]]; done.
Qed.

Lemma combinations_6_5 {A} (l : list A) :
  length l = 6%nat → length (combinations l 5) = 6%nat.
Proof.
  destruct l as [|a [|b [|c [|d [|e [|f [|g l]]]]]]]; done.
Qed.

Lemma evaluate_best_too_few (cards : list Card) :
  (length cards < 5)%nat → evaluate_best cards = Err TooFewCards.
Proof.
  intros Hlt. unfold evaluate_best.
  by destruct (Nat.ltb_spec (length cards) 5); [|lia].
Qed.

Lemma evaluate_best_five (cards : list Card) :
  length cards = 5%nat → evaluate_best cards = evaluate_5cards cards.
Proof. intros Heq. unfold evaluate_best. by rewrite Heq. Qed.

Lemma evaluate_best_more (cards : list Card) :
  (5 < length cards)%nat →
  ∃ best,
    evaluate_best cards = Ok best
    ∧ (∃ combo, combo `sublist_of` cards ∧ length combo = 5%nat
                ∧ evaluate_5cards combo = Ok best)
    ∧ (∀ combo, combo `sublist_of` cards → length combo = 5%nat →
         ∃ hv, evaluate_5cards combo = Ok hv ∧ HandValue_le hv best = true).
Proof.
  intros Hgt. unfold evaluate_best.
  destruct (Nat.ltb_spec (length cards) 5); [lia|].
  destruct (Nat.eqb_spec (length cards) 5); [lia|].
  destruct (best_loop (combinations cards 5)) as (best & -> & Hfrom & Hmax).
  { apply combinations_cons_ne. lia. }
  { apply combinations_length. }
  exists best. simpl. split; [done|split].
  - destruct Hfrom as (combo & [??]%elem_of_combinations & ?). eauto.
  - intros combo Hsub Hlen. apply Hmax. by apply elem_of_combinations.
Qed.

Lemma evaluate_best_ok (cards : list Card) :
  (5 ≤ length cards)%nat → ∃ hv, evaluate_best cards = Ok hv.
Proof.
  intros Hlen. destruct (decide (length cards = 5%nat)) as [Heq|Hne].
  - rewrite (evaluate_best_five _ Heq). by apply evaluate_5cards_total.
  - destruct (evaluate_best_more cards) as (best & ? & _); [lia|eauto].
Qed.

(** C1.  [evaluate_best] raises [TooFewCards] on fewer than five cards; on
    five cards it is [_evaluate_5cards], which returns; on more than five
    cards (six and seven among them) it returns the value of one of the
    five-card sub-sequences of the input, and no five-card sub-sequence
    has a greater value in the order of hand values.  The sub-sequences
    tried are exactly those of five positions; seven cards have 21 of
    them, six cards have 6. *)
Theorem evaluate_best_spec (cards : list Card) :
  ((length cards < 5)%nat → evaluate_best cards = Err TooFewCards)
  ∧ (length cards = 5%nat →
       evaluate_best cards = evaluate_5cards cards
       ∧ ∃ hv, evaluate_best cards = Ok hv)
  ∧ ((5 < length cards)%nat →
       ∃ best,
         evaluate_best cards = Ok best
         ∧ (∃ combo, combo `sublist_of` cards ∧ length combo = 5%nat
                     ∧ evaluate_5cards combo = Ok best)
         ∧ (∀ combo, combo `sublist_of` cards → length combo = 5%nat →
              ∃ hv, evaluate_5cards combo = Ok hv
                    ∧ HandValue_le hv best = true))
  ∧ (∀ combo, combo ∈ combinations cards 5
              ↔ combo `sublist_of` cards ∧ length combo = 5%nat)
  ∧ (length cards = 7%nat → length (combinations cards 5) = 21%nat)
  ∧ (length cards = 6%nat → length (combinations cards 5) = 6%nat).
Proof.
  split; [|split; [|split; [|split; [|split]]]].
  - apply evaluate_best_too_few.
  - intros Heq. split; [by apply evaluate_best_five|].
    apply evaluate_best_ok. lia.
  - apply evaluate_best_more.
  - intros combo. apply elem_of_combinations.
  - apply combinations_7_5.
  - apply combinations_6_5.
Qed.

(** Seven cards: a pair of aces and three kings make kings over aces. *)
Example evaluate_best_seven :
  evaluate_best [mkCard ACE SPADES; mkCard KING DIAMONDS; mkCard ACE HEARTS;
                 mkCard KING HEARTS; mkCard KING CLUBS; mkCard TWO SPADES;
                 mkCard THREE DIAMONDS]
  = Ok (mkHandValue FULL_HOUSE [13; 14]).
Proof. by vm_compute. Qed.

(* ================================================================== *)
(** * Uniqueness of the cards                                          *)
(* ================================================================== *)

Section unique_cards.
Implicit Types (hole_hands : list (list Card)) (board : list Card).
Implicit Types (seen : gmap Card Origin) (pre l : list (Origin * Card)).

Lemma labeled_holes_cards (g : nat → Origin) hole_hands :
  (mjoin (imap (λ i hole, (λ c, (g i, c)) <$> hole) hole_hands)).*2
  = mjoin hole_hands.
Proof.
  revert g. induction hole_hands as [|hole rest IH]; intros g; [done|].
  simpl. rewrite fmap_app. f_equal; [|apply (IH (g ∘ S))].
  rewrite <- list_fmap_compose.
  by rewrite (list_fmap_ext _ id hole), list_fmap_id.
Qed.

(** The cards of [labeled_cards] are the hole cards, player after player,
    then the board. *)
Lemma labeled_cards_cards hole_hands board :
  (labeled_cards hole_hands board).*2 = mjoin hole_hands ++ board.
Proof.
  unfold labeled_cards. rewrite fmap_app, labeled_holes_cards. f_equal.
  rewrite fmap_imap. rewrite (imap_ext _ (const id)); [|done].
  by rewrite imap_const, list_fmap_id.
Qed.

(** Each label says where its card stands. *)
Lemma labeled_cards_origin hole_hands board (o : Origin) (c : Card) :
  (o, c) ∈ labeled_cards hole_hands board →
  match o with
  | PlayerHole i => ∃ hole, hole_hands !! i = Some hole ∧ c ∈ hole
  | BoardAt j => board !! j = Some c
  end.
Proof.
  unfold labeled_cards. rewrite elem_of_app.
  intros [(l & Hin & Hl)%list_elem_of_join|Hb].
  - apply elem_of_lookup_imap in Hl as (i & hole & -> & Hi).
    apply list_elem_of_fmap in Hin as (c' & [= -> ->] & Hc). eauto.
  - by apply elem_of_lookup_imap in Hb as (j & c' & [= -> ->] & Hj).
Qed.

Lemma seen_after_fresh seen pre c :
  seen_after seen pre → seen !! c = None → c ∉ pre.*2.
Proof.
  intros Hinv Hnone ([o c'] & -> & Hin)%list_elem_of_fmap. simpl in Hnone.
  apply Hinv in Hin. congruence.
Qed.

Lemma seen_after_insert seen pre o c :
  seen_after seen pre → seen !! c = None →
  seen_after (<[c := o]> seen) (pre ++ [(o, c)]).
Proof.
  intros Hinv Hnone c' o'. rewrite elem_of_app, list_elem_of_singleton.
  destruct (decide (c = c')) as [<-|Hne].
  - rewrite lookup_insert_eq. split.
    + intros [= ->]. by right.
    + intros [Hin|[= -> ]]; [|done]. apply Hinv in Hin. congruence.
  - rewrite lookup_insert_ne by done. split.
    + intros H. left. by apply Hinv.
    + intros [?|[= -> ->]]; [by apply Hinv|done].
Qed.

Lemma seen_step_met seen o c prev :
  seen !! c = Some prev → seen_step seen (o, c) = Err (DuplicateCard c o prev).
Proof. unfold seen_step. by intros ->. Qed.

Lemma seen_step_new seen o c :
  seen !! c = None → seen_step seen (o, c) = Ok (<[c := o]> seen).
Proof. unfold seen_step. by intros ->. Qed.

(** The scan succeeds on cards without repetition. *)
Lemma scan_unique seen pre l :
  seen_after seen pre → NoDup (pre ++ l).*2 →
  ∃ seen', foldlM seen_step seen l = Ok seen'.
Proof.
  revert seen pre. induction l as [|[o c] l IH]; intros seen pre Hinv Hnd.
  { simpl. eauto. }
  cbn [foldlM].
  destruct (seen !! c) as [prev|] eqn:Hc.
  - exfalso. apply Hinv in Hc.
    rewrite fmap_app, NoDup_app in Hnd. destruct Hnd as (_ & Hdisj & _).
    apply (Hdisj c).
    + by apply (list_elem_of_fmap_2 snd _ (prev, c)).
    + simpl. left.
  - rewrite (seen_step_new _ _ _ Hc). simpl.
    apply (IH _ (pre ++ [(o, c)])).
    + by apply seen_after_insert.
    + by rewrite <- app_assoc.
Qed.

(** The scan stops at the first card that has been met before, and
    reports where it stands and where it was met. *)
Lemma scan_duplicate seen pre l :
  seen_after seen pre → NoDup pre.*2 → ¬ NoDup (pre ++ l).*2 →
  ∃ l1 origin card l2 prev_origin,
    l = l1 ++ (origin, card) :: l2
    ∧ NoDup (pre ++ l1).*2
    ∧ (prev_origin, card) ∈ pre ++ l1
    ∧ foldlM seen_step seen l = Err (DuplicateCard card origin prev_origin).
Proof.
  revert seen pre. induction l as [|[o c] l IH]; intros seen pre Hinv Hnd Hdup.
  { exfalso. apply Hdup. by rewrite app_nil_r. }
  cbn [foldlM].
  destruct (seen !! c) as [prev|] eqn:Hc.
  - rewrite (seen_step_met _ _ _ _ Hc).
    exists [], o, c, l, prev. rewrite app_nil_r.
    repeat split; [done|by apply Hinv].
  - rewrite (seen_step_new _ _ _ Hc). simpl.
    destruct (IH (<[c := o]> seen) (pre ++ [(o, c)]))
      as (l1 & origin & card & l2 & prev & -> & Hnd1 & Hin & Hres).
    + by apply seen_after_insert.
    + rewrite fmap_app. apply NoDup_app. repeat split; [done| |].
      * intros x Hx [->|[]%elem_of_nil]%elem_of_cons.
        by apply (seen_after_fresh seen pre c).
      * simpl. apply NoDup_singleton.
    + by rewrite <- app_assoc.
    + exists ((o, c) :: l1), origin, card, l2, prev.
      rewrite <- app_assoc in Hnd1, Hin. by repeat split.
Qed.

Lemma seen_after_empty : seen_after ∅ [].
Proof.
  intros c o. rewrite lookup_empty, elem_of_nil. split; [done|intros []].
Qed.

Lemma validate_unique_cards_ok hole_hands board :
  NoDup (mjoin hole_hands ++ board) →
  validate_unique_cards hole_hands board = Ok tt.
Proof.
  intros Hnd. unfold validate_unique_cards.
  destruct (scan_unique ∅ [] (labeled_cards hole_hands board)) as [seen' ->].
  - apply seen_after_empty.
  - simpl. by rewrite labeled_cards_cards.
  - done.
Qed.

Lemma validate_unique_cards_duplicate hole_hands board :
  ¬ NoDup (mjoin hole_hands ++ board) →
  ∃ l1 origin card l2 prev_origin,
    labeled_cards hole_hands board = l1 ++ (origin, card) :: l2
    ∧ NoDup l1.*2
    ∧ (prev_origin, card) ∈ l1
    ∧ validate_unique_cards hole_hands board
      = Err (DuplicateCard card origin prev_origin).
Proof.
  intros Hdup. unfold validate_unique_cards.
  destruct (scan_duplicate ∅ [] (labeled_cards hole_hands board))
    as (l1 & origin & card & l2 & prev & Hl & Hnd & Hin & Hres).
  - apply seen_after_empty.
  - apply NoDup_nil_2.
  - simpl. by rewrite labeled_cards_cards.
  - exists l1, origin, card, l2, prev. rewrite Hres. by repeat split.
Qed.
End unique_cards.

(* ================================================================== *)
(** * Winner resolution                                                *)
(* ================================================================== *)

Section winners.
Implicit Types (hole_hands : list (list Card)) (board hole : list Card).
Implicit Types (hand_values : list HandValue).

Lemma check_hole_sizes_ok (i0 : nat) hole_hands :
  Forall (λ hole, (2 ≤ length hole)%nat) hole_hands →
  check_hole_sizes i0 hole_hands = Ok tt.
Proof.
  intros H. revert i0. induction H as [|hole rest Hh _ IH]; intros i0; [done|].
  simpl. by destruct (Nat.ltb_spec (length hole) 2); [lia|].
Qed.

(** The first player with fewer than two hole cards is the one named. *)
Lemma check_hole_sizes_short (i0 : nat) hole_hands (i : nat) hole :
  hole_hands !! i = Some hole → (length hole < 2)%nat →
  (∀ j h, (j < i)%nat → hole_hands !! j = Some h → (2 ≤ length h)%nat) →
  check_hole_sizes i0 hole_hands = Err (TooFewHoleCards (i0 + i)).
Proof.
  revert i0 i. induction hole_hands as [|h rest IH]; intros i0 i Hi Hlen Hbefore.
  { done. }
  destruct i as [|i]; simpl in *.
  - injection Hi as ->. rewrite Nat.add_0_r.
    by destruct (Nat.ltb_spec (length hole) 2); [|lia].
  - destruct (Nat.ltb_spec (length h) 2) as [Hlt|_].
    { specialize (Hbefore 0%nat h). simpl in Hbefore.
      assert (2 ≤ length h)%nat by (apply Hbefore; [lia|done]). lia. }
    rewrite (IH (S i0) i); [f_equal; f_equal; lia|done|done|].
    intros j h' Hj Hh'. apply (Hbefore (S j) h'); [lia|done].
Qed.

(** Every player's best hand, when every player has five cards to choose
    from. *)
Lemma hand_values_ok hole_hands board :
  Forall (λ hole, (5 ≤ length (hole ++ board))%nat) hole_hands →
  ∃ hand_values,
    mapR (λ hole, evaluate_best (hole ++ board)) hole_hands = Ok hand_values
    ∧ Forall2 (λ hole hv, evaluate_best (hole ++ board) = Ok hv)
              hole_hands hand_values.
Proof.
  induction 1 as [|hole rest Hh _ (hvs & IH & Hall)].
  { exists []. by split; [|constructor]. }
  destruct (evaluate_best_ok _ Hh) as [hv Hhv].
  exists (hv :: hvs). simpl. rewrite Hhv. simpl. rewrite IH.
  split; [done|by constructor].
Qed.

Lemma hand_values_too_few hole_hands board :
  Exists (λ hole, (length (hole ++ board) < 5)%nat) hole_hands →
  mapR (λ hole, evaluate_best (hole ++ board)) hole_hands = Err TooFewCards.
Proof.
  induction 1 as [hole rest Hh|hole rest _ IH]; simpl.
  - by rewrite (evaluate_best_too_few _ Hh).
  - destruct (Nat.lt_ge_cases (length (hole ++ board)) 5) as [Hlt|Hge].
    + by rewrite (evaluate_best_too_few _ Hlt).
    + destruct (evaluate_best_ok _ Hge) as [hv ->]. simpl. by rewrite IH.
Qed.

(** [max(hand_values)] is one of the values and none exceeds it. *)
Lemma max_from (b : HandValue) hand_values :
  let best := foldl (λ m y, if HandValue_gt y m then y else m) b hand_values in
  HandValue_le b best = true
  ∧ (best = b ∨ best ∈ hand_values)
  ∧ ∀ hv, hv ∈ hand_values → HandValue_le hv best = true.
Proof.
  revert b. induction hand_values as [|x rest IH]; intros b; simpl.
  { split; [apply HandValue_le_refl|]. split; [by left|].
    intros hv []%elem_of_nil. }
  destruct (HandValue_gt x b) eqn:Hgt.
  - destruct (IH x) as (Hle & Hin & Hmax). repeat split.
    + eapply HandValue_le_trans; [by apply HandValue_gt_le|done].
    + right. destruct Hin as [->|?]; [left|by right].
    + intros hv [->|?]%elem_of_cons; auto.
  - destruct (IH b) as (Hle & Hin & Hmax). repeat split; [done| |].
    + destruct Hin as [->|?]; [by left|right; by right].
    + intros hv [->|?]%elem_of_cons; [|auto].
      eapply HandValue_le_trans; [by apply HandValue_not_gt_le|done].
Qed.

Lemma py_max_hand_values hand_values :
  hand_values ≠ [] →
  ∃ best, py_max HandValue_gt hand_values = Ok best
          ∧ best ∈ hand_values
          ∧ ∀ hv, hv ∈ hand_values → HandValue_le hv best = true.
Proof.
  destruct hand_values as [|b rest]; [done|]. intros _. simpl.
  eexists. split; [done|].
  destruct (max_from b rest) as (Hle & Hin & Hmax). split.
  - destruct Hin as [->|?]; [left|by right].
  - intros hv [->|?]%elem_of_cons; auto.
Qed.

(** The indices kept are those of the values equal to the best one. *)
Lemma elem_of_indices_equal_to (best : HandValue) hand_values (i : nat) :
  i ∈ indices_equal_to best hand_values ↔ hand_values !! i = Some best.
Proof.
  unfold indices_equal_to. rewrite list_elem_of_fmap. split.
  - intros ([j hv] & -> & [Heq Hin]%list_elem_of_filter). simpl in *.
    apply elem_of_lookup_imap in Hin as (k & hv' & [= -> ->] & Hk).
    by subst.
  - intros Hi. exists (i, best). split; [done|].
    apply list_elem_of_filter. split; [done|].
    by apply (elem_of_lookup_imap_2 (λ i hv, (i, hv))).
Qed.

(** A value is the greatest of the list exactly when it is the best
    value. *)
Lemma greatest_is_best (best hv : HandValue) hand_values :
  best ∈ hand_values →
  (∀ hv', hv' ∈ hand_values → HandValue_le hv' best = true) →
  hv ∈ hand_values →
  (hv = best ↔ ∀ hv', hv' ∈ hand_values → HandValue_le hv' hv = true).
Proof.
  intros Hin Hmax Hhv. split; [by intros ->|].
  intros Hmax'. apply HandValue_le_antisym; auto.
Qed.
End winners.

(** The body of [determine_winners] past its first test. *)
Lemma determine_winners_players (hole_hands : list (list Card)) (board : list Card) :
  hole_hands ≠ [] →
  determine_winners hole_hands board
  = (_ ← validate_unique_cards hole_hands board;
     _ ← check_hole_sizes 0 hole_hands;
     hand_values ← mapR (λ hole, evaluate_best (hole ++ board)) hole_hands;
     best_value ← py_max HandValue_gt hand_values;
     Ok (indices_equal_to best_value hand_values, hand_values)).
Proof. by destruct hole_hands. Qed.

(** The returning case of [determine_winners]. *)
Lemma determine_winners_ok (hole_hands : list (list Card)) (board : list Card) :
  hole_hands ≠ [] → NoDup (mjoin hole_hands ++ board) →
  Forall (λ hole, (2 ≤ length hole)%nat) hole_hands →
  Forall (λ hole, (5 ≤ length (hole ++ board))%nat) hole_hands →
  ∃ winners hand_values,
    determine_winners hole_hands board = Ok (winners, hand_values)
    ∧ Forall2 (λ hole hv, evaluate_best (hole ++ board) = Ok hv)
              hole_hands hand_values
    ∧ ∀ i, i ∈ winners ↔
        ∃ hv, hand_values !! i = Some hv
              ∧ ∀ hv', hv' ∈ hand_values → HandValue_le hv' hv = true.
Proof.
  intros Hne Hnd H2 H5. rewrite (determine_winners_players _ _ Hne).
  rewrite (validate_unique_cards_ok _ _ Hnd). simpl.
  rewrite (check_hole_sizes_ok _ _ H2). simpl.
  destruct (hand_values_ok _ _ H5) as (hvs & -> & Hall). simpl.
  destruct (py_max_hand_values hvs) as (best & -> & Hin & Hmax).
  { intros ->. apply Forall2_nil_inv_r in Hall. congruence. }
  simpl. exists (indices_equal_to best hvs), hvs.
  split; [done|]. split; [done|].
  intros i. rewrite elem_of_indices_equal_to. split.
  - intros Hi. exists best. by split.
  - intros (hv & Hi & Hmax').
    assert (hv = best) as ->; [|done].
    apply (greatest_is_best best hv hvs); try done.
    by apply list_elem_of_lookup_2 in Hi.
Qed.

(** C2 as the claim states it fails: one player with two distinct hole
    cards and an empty board is a list of players that is not empty, with
    no card twice and two hole cards for everyone, and [determine_winners]
    raises [TooFewCards] instead of returning winners. *)
Lemma determine_winners_short_board :
  let hole_hands := [[mkCard ACE SPADES; mkCard KING DIAMONDS]] in
  hole_hands ≠ []
  ∧ NoDup (mjoin hole_hands ++ [])
  ∧ Forall (λ hole, (2 ≤ length hole)%nat) hole_hands
  ∧ determine_winners hole_hands [] = Err TooFewCards
  ∧ ¬ ∃ winners hand_values,
        determine_winners hole_hands [] = Ok (winners, hand_values).
Proof.
  intros hole_hands. split; [done|]. split; [by apply (bool_decide_unpack _)|].
  split; [by repeat constructor|]. split; [reflexivity|].
  by intros (? & ? & ?).
Qed.

(** C2, amended.  [determine_winners] raises [NoPlayers] on an empty list
    of players.  Otherwise, if a card stands twice among the hole cards and
    the board, it raises [DuplicateCard] for the first labelled card, in
    the order players then board, that was met before, with its own
    origin and the origin where it was met.  Otherwise, if a player has
    fewer than two hole cards, it raises [TooFewHoleCards] for the first
    such player.  Otherwise, if a player has fewer than five cards between
    hole cards and board, it raises [TooFewCards].  Otherwise it returns
    every player's best hand value and the indices of the players whose
    value no player's value exceeds. *)
Theorem determine_winners_spec (hole_hands : list (list Card)) (board : list Card) :
  let all_cards := mjoin hole_hands ++ board in
  (hole_hands = [] → determine_winners hole_hands board = Err NoPlayers)
  ∧ (hole_hands ≠ [] → ¬ NoDup all_cards →
       ∃ before origin card rest prev_origin,
         labeled_cards hole_hands board = before ++ (origin, card) :: rest
         ∧ NoDup before.*2
         ∧ (prev_origin, card) ∈ before
         ∧ determine_winners hole_hands board
           = Err (DuplicateCard card origin prev_origin))
  ∧ (hole_hands ≠ [] → NoDup all_cards →
       ∀ i hole, hole_hands !! i = Some hole → (length hole < 2)%nat →
         (∀ j h, (j < i)%nat → hole_hands !! j = Some h → (2 ≤ length h)%nat) →
         determine_winners hole_hands board = Err (TooFewHoleCards i))
  ∧ (hole_hands ≠ [] → NoDup all_cards →
       Forall (λ hole, (2 ≤ length hole)%nat) hole_hands →
       Exists (λ hole, (length (hole ++ board) < 5)%nat) hole_hands →
       determine_winners hole_hands board = Err TooFewCards)
  ∧ (hole_hands ≠ [] → NoDup all_cards →
       Forall (λ hole, (2 ≤ length hole)%nat) hole_hands →
       Forall (λ hole, (5 ≤ length (hole ++ board))%nat) hole_hands →
       ∃ winners hand_values,
         determine_winners hole_hands board = Ok (winners, hand_values)
         ∧ Forall2 (λ hole hv, evaluate_best (hole ++ board) = Ok hv)
                   hole_hands hand_values
         ∧ ∀ i, i ∈ winners ↔
             ∃ hv, hand_values !! i = Some hv
                   ∧ ∀ hv', hv' ∈ hand_values → HandValue_le hv' hv = true).
Proof.
  intros all_cards. split; [by intros ->|].
  split; [|split; [|split]]; intros Hne;
    [rewrite (determine_winners_players _ _ Hne)..|].
  - intros Hdup.
    destruct (validate_unique_cards_duplicate _ _ Hdup)
      as (before & origin & card & rest' & prev & Hl & Hnd & Hin & ->).
    by exists before, origin, card, rest', prev.
  - intros Hnd i hole Hi Hlen Hbefore.
    rewrite (validate_unique_cards_ok _ _ Hnd). simpl.
    by rewrite (check_hole_sizes_short 0 hole_hands i hole).
  - intros Hnd H2 Hfew.
    rewrite (validate_unique_cards_ok _ _ Hnd). simpl.
    rewrite (check_hole_sizes_ok _ _ H2). simpl.
    by rewrite (hand_values_too_few _ _ Hfew).
  - by apply determine_winners_ok.
Qed.

(* ================================================================== *)
(** * Equity on a complete board                                       *)
(* ================================================================== *)

Lemma list_assign_ok (counts : list Z) (i : nat) (v : Z) :
  (i < length counts)%nat → list_assign counts i v = Ok (<[i := v]> counts).
Proof.
  intros Hi. unfold list_assign.
  by destruct (lookup_lt_is_Some_2 counts i Hi) as [x ->].
Qed.

(** Writing 1 at the positions [ws] of a list of counters. *)
Lemma assign_ones (ws : list nat) (counts : list Z) :
  (∀ w, w ∈ ws → (w < length counts)%nat) →
  ∃ counts',
    foldlM (λ tc w, list_assign tc w 1) counts ws = Ok counts'
    ∧ length counts' = length counts
    ∧ (∀ i, i ∈ ws → counts' !! i = Some 1)
    ∧ (∀ i, i ∉ ws → counts' !! i = counts !! i).
Proof.
  revert counts. induction ws as [|w ws IH]; intros counts Hlt.
  { exists counts. split_and!; [done|done| |done]. intros i []%elem_of_nil. }
  assert (w < length counts)%nat as Hw by (apply Hlt; left).
  cbn [foldlM]. rewrite (list_assign_ok _ _ _ Hw). simpl.
  destruct (IH (<[w := 1]> counts)) as (counts' & -> & Hlen & Hin & Hout).
  { intros w' Hw'. rewrite length_insert. apply Hlt. by right. }
  exists counts'. rewrite length_insert in Hlen. split_and!; [done|done| |].
  - intros i Hi. destruct (decide (i ∈ ws)) as [?|Hni]; [auto|].
    apply elem_of_cons in Hi as [->|?]; [|done].
    rewrite (Hout _ Hni). by apply list_lookup_insert_eq.
  - intros i Hi. apply not_elem_of_cons in Hi as [Hne Hni].
    rewrite (Hout _ Hni). by apply list_lookup_insert_ne.
Qed.

Lemma div_one_lookup (counts : list Z) (i : nat) (v : Z) (q : Q) :
  div_one v = q → counts !! i = Some v → (div_one <$> counts) !! i = Some q.
Proof. intros <- H. by rewrite list_lookup_fmap, H. Qed.

(** The winners returned by [determine_winners] are positions of
    players. *)
Lemma winners_are_players (hole_hands : list (list Card)) (board : list Card)
    (winners : list nat) (hand_values : list HandValue) :
  Forall2 (λ hole hv, evaluate_best (hole ++ board) = Ok hv) hole_hands hand_values →
  (∀ i, i ∈ winners ↔
     ∃ hv, hand_values !! i = Some hv
           ∧ ∀ hv', hv' ∈ hand_values → HandValue_le hv' hv = true) →
  ∀ w, w ∈ winners → (w < length hole_hands)%nat.
Proof.
  intros Hall Hwin w (hv & Hw & _)%Hwin.
  rewrite (Forall2_length _ _ _ Hall). by apply lookup_lt_Some in Hw.
Qed.

(** The probabilities of the complete-board branch, from the winners. *)
Lemma complete_board_probabilities (n : nat) (winners : list nat) :
  (∀ w, w ∈ winners → (w < n)%nat) →
  ∃ win_counts tie_counts,
    complete_board_counts n winners = Ok (win_counts, tie_counts)
    ∧ length win_counts = n ∧ length tie_counts = n
    ∧ (∀ w, winners = [w] → ∀ i, (i < n)%nat →
         (div_one <$> win_counts) !! i = Some (if decide (i = w) then 1%Q else 0%Q)
         ∧ (div_one <$> tie_counts) !! i = Some 0%Q)
    ∧ (length winners ≠ 1%nat → ∀ i, (i < n)%nat →
         (div_one <$> win_counts) !! i = Some 0%Q
         ∧ (div_one <$> tie_counts) !! i
           = Some (if decide (i ∈ winners) then 1%Q else 0%Q)).
Proof.
  intros Hlt. unfold complete_board_counts. case_bool_decide as Hone.
  - destruct winners as [|w [|??]]; try done.
    assert (w < n)%nat as Hw by (apply Hlt; left).
    rewrite list_assign_ok by (by rewrite length_replicate).
    simpl. eexists _, _. split; [done|].
    rewrite length_insert, !length_replicate.
    split_and!; [done|done| |done].
    intros w' [= <-] i Hi. split.
    + destruct (decide (i = w)) as [->|Hne].
      * apply (div_one_lookup _ _ 1); [done|].
        apply list_lookup_insert_eq. by rewrite length_replicate.
      * apply (div_one_lookup _ _ 0); [done|].
        rewrite list_lookup_insert_ne by done. by apply lookup_replicate_2.
    + apply (div_one_lookup _ _ 0); [done|]. by apply lookup_replicate_2.
  - destruct (assign_ones winners (replicate n 0))
      as (tc & -> & Hlen & Hin & Hout).
    { intros w Hw. rewrite length_replicate. by apply Hlt. }
    simpl. eexists _, _. split; [done|].
    rewrite length_replicate in *. split_and!; [done|done| |].
    { intros w ->. done. }
    intros _ i Hi. split.
    + apply (div_one_lookup _ _ 0); [done|]. by apply lookup_replicate_2.
    + destruct (decide (i ∈ winners)) as [Hiw|Hiw].
      * apply (div_one_lookup _ _ 1); [done|]. by apply Hin.
      * apply (div_one_lookup _ _ 0); [done|].
        rewrite (Hout _ Hiw). by apply lookup_replicate_2.
Qed.

(** [simulate_equity] on a complete board, past its tests. *)
Lemma simulate_equity_complete {RNG} (random_shuffle : list Card → RNG → list Card * RNG)
    (hole_hands : list (list Card)) (board : list Card) (num_samples : Z) (g : RNG)
    (r : list nat * list HandValue) (counts : list Z * list Z) :
  hole_hands ≠ [] → length board = 5%nat →
  Forall (λ hole, (2 ≤ length hole)%nat) hole_hands →
  determine_winners hole_hands board = Ok r →
  complete_board_counts (length hole_hands) r.1 = Ok counts →
  simulate_equity random_shuffle hole_hands board num_samples g
  = (Ok (div_one <$> counts.1, div_one <$> counts.2), g).
Proof.
  intros Hne Hlen H2 Hdw Hcounts. unfold simulate_equity.
  destruct hole_hands as [|h0 rest] eqn:E; [done|]. rewrite <- E in *.
  rewrite Hlen. simpl.
  unfold mbind at 1, M_bind, lift at 1.
  rewrite (check_hole_sizes_ok _ _ H2).
  unfold mbind at 1, M_bind, lift at 1. rewrite Hdw.
  unfold mbind at 1, M_bind, lift at 1. by rewrite Hcounts.
Qed.

(** C4.  On a complete board, with at least one player, two hole cards or
    more for each and no card twice, [simulate_equity] returns, whatever
    the number of samples and the generator, the assignment read off one
    call of [determine_winners]: a single winner has win probability 1 and
    the others 0, with tie probability 0 for all; two winners or more have
    tie probability 1 each, the others 0, with win probability 0 for all.
    Aces against kings on Q♠ Q♥ 2♣ 3♦ 4♥ gives win [1; 0] and tie [0; 0]. *)
Theorem simulate_equity_complete_board {RNG}
    (random_shuffle random_shuffle' : list Card → RNG → list Card * RNG)
    (hole_hands : list (list Card)) (board : list Card)
    (num_samples num_samples' : Z) (g g' : RNG) :
  let n := length hole_hands in
  (hole_hands ≠ [] → length board = 5%nat →
   Forall (λ hole, (2 ≤ length hole)%nat) hole_hands →
   NoDup (mjoin hole_hands ++ board) →
   ∃ winners hand_values win_probs tie_probs,
     determine_winners hole_hands board = Ok (winners, hand_values)
     ∧ simulate_equity random_shuffle hole_hands board num_samples g
       = (Ok (win_probs, tie_probs), g)
     ∧ simulate_equity random_shuffle' hole_hands board num_samples' g'
       = (Ok (win_probs, tie_probs), g')
     ∧ length win_probs = n ∧ length tie_probs = n
     ∧ (∀ w, winners = [w] → ∀ i, (i < n)%nat →
          win_probs !! i = Some (if decide (i = w) then 1%Q else 0%Q)
          ∧ tie_probs !! i = Some 0%Q)
     ∧ (length winners ≠ 1%nat → ∀ i, (i < n)%nat →
          win_probs !! i = Some 0%Q
          ∧ tie_probs !! i = Some (if decide (i ∈ winners) then 1%Q else 0%Q)))
  ∧ (simulate_equity random_shuffle
       [[mkCard ACE SPADES; mkCard ACE HEARTS];
        [mkCard KING SPADES; mkCard KING HEARTS]]
       [mkCard QUEEN SPADES; mkCard QUEEN HEARTS; mkCard TWO CLUBS;
        mkCard THREE DIAMONDS; mkCard FOUR HEARTS] num_samples g).1
    = Ok ([1%Q; 0%Q], [0%Q; 0%Q]).
Proof.
  intros n. split; [|by vm_compute].
  intros Hne Hlen H2 Hnd.
  destruct (determine_winners_ok hole_hands board) as (winners & hvs & Hdw & Hall & Hwin);
    try done.
  { eapply Forall_impl; [exact H2|]. intros hole ?. rewrite length_app. simpl in *. lia. }
  destruct (complete_board_probabilities n winners)
    as (wc & tc & Hcounts & Hlw & Hlt & Hone & Hmany).
  { by apply (winners_are_players hole_hands board winners hvs). }
  exists winners, hvs, (div_one <$> wc), (div_one <$> tc).
  rewrite !(simulate_equity_complete _ _ _ _ _ (winners, hvs) (wc, tc)) by done.
  simpl. rewrite !length_fmap. by split_and!.
Qed.

Lemma simulate_equity_complete_board_witness :
  ∃ winners hand_values win_probs tie_probs,
    determine_winners
      [[mkCard ACE SPADES; mkCard KING SPADES];
       [mkCard ACE HEARTS; mkCard KING HEARTS]]
      [mkCard QUEEN CLUBS; mkCard QUEEN DIAMONDS; mkCard TWO CLUBS;
       mkCard THREE DIAMONDS; mkCard FOUR CLUBS]
    = Ok (winners, hand_values)
    ∧ simulate_equity (λ cards (g : unit), (cards, g))
        [[mkCard ACE SPADES; mkCard KING SPADES];
         [mkCard ACE HEARTS; mkCard KING HEARTS]]
        [mkCard QUEEN CLUBS; mkCard QUEEN DIAMONDS; mkCard TWO CLUBS;
         mkCard THREE DIAMONDS; mkCard FOUR CLUBS] 1000 tt
      = (Ok (win_probs, tie_probs), tt)
    ∧ length winners = 2%nat
    ∧ win_probs !! 0%nat = Some 0%Q ∧ tie_probs !! 0%nat = Some 1%Q
    ∧ win_probs !! 1%nat = Some 0%Q ∧ tie_probs !! 1%nat = Some 1%Q.
Proof.
  destruct (proj1 (simulate_equity_complete_board
    (λ cards (g : unit), (cards, g)) (λ cards (g : unit), (cards, g))
    [[mkCard ACE SPADES; mkCard KING SPADES];
     [mkCard ACE HEARTS; mkCard KING HEARTS]]
    [mkCard QUEEN CLUBS; mkCard QUEEN DIAMONDS; mkCard TWO CLUBS;
     mkCard THREE DIAMONDS; mkCard FOUR CLUBS] 1000 7 tt tt))
    as (winners & hvs & wp & tp & Hdw & Hsim & _ & _ & _ & _ & Hmany).
  - done.
  - reflexivity.
  - repeat constructor.
  - by apply (bool_decide_unpack _).
  - exists winners, hvs, wp, tp.
    assert (winners = [0; 1]%nat) as Hw by (vm_compute in Hdw; congruence).
    split; [done|]. split; [done|]. subst winners. split; [done|].
    destruct (Hmany ltac:(done) 0%nat ltac:(simpl; lia)) as [-> ->].
    destruct (Hmany ltac:(done) 1%nat ltac:(simpl; lia)) as [-> ->].
    done.
Defined.

(* ================================================================== *)
(** * Dealing from a reduced deck                                      *)
(* ================================================================== *)

Section dealing.
Implicit Types (cards base used : list Card) (c : Card).

Lemma full_deck_NoDup : NoDup (Deck_init None).
Proof. by apply (bool_decide_unpack _). Qed.

Lemma full_deck_length : length (Deck_init None) = 52%nat.
Proof. done. Qed.

Lemma full_deck_complete c : c ∈ Deck_init None.
Proof. destruct c as [[] []]; by apply (bool_decide_unpack _). Qed.

Lemma elem_of_remaining used c : c ∈ remaining_of used ↔ c ∉ used.
Proof.
  unfold remaining_of. rewrite list_elem_of_filter, not_elem_of_list_to_set.
  split; [by intros [? _]|]. intros ?. split; [done|apply full_deck_complete].
Qed.

Lemma remaining_NoDup used : NoDup (remaining_of used).
Proof. apply NoDup_filter, full_deck_NoDup. Qed.

Lemma used_remaining_NoDup used : NoDup used → NoDup (used ++ remaining_of used).
Proof.
  intros Hnd. apply NoDup_app. split_and!; [done| |apply remaining_NoDup].
  intros c Hc Hr. by apply elem_of_remaining in Hr.
Qed.

Lemma remaining_length used :
  NoDup used → (length used + length (remaining_of used) = 52)%nat.
Proof.
  intros Hnd. rewrite <- length_app, <- full_deck_length.
  apply Permutation_length, NoDup_Permutation.
  - by apply used_remaining_NoDup.
  - apply full_deck_NoDup.
  - intros c. rewrite elem_of_app, elem_of_remaining.
    split; [intros _; apply full_deck_complete|].
    intros _. destruct (decide (c ∈ used)); auto.
Qed.

(** Drawing as many cards as a list [xs] has, from a deck that ends with
    [xs] reversed, returns [xs] and leaves the cards before. *)
Lemma Deck_draw_many_rev base (xs : list Card) :
  Deck_draw_many (Z.of_nat (length xs)) (base ++ reverse xs) = (Ok xs, base).
Proof.
  unfold Deck_draw_many.
  destruct (Z.ltb_spec (Z.of_nat (length xs)) 0); [lia|].
  rewrite length_app, length_reverse.
  destruct (Z.of_nat (length xs) >? Z.of_nat (length base + length xs)) eqn:Hgt.
  { apply Z.gtb_lt in Hgt. lia. }
  rewrite Nat2Z.id, repeat_draw by (rewrite length_app, length_reverse; lia).
  rewrite length_app, length_reverse.
  replace (length base + length xs - length xs)%nat with (length base) by lia.
  by rewrite drop_app_length, take_app_length, reverse_involutive.
Qed.

(** Drawing pairs. *)
Lemma draw_pairs base (hands : list (list Card)) :
  Forall (λ hand, length hand = 2%nat) hands →
  repeatM (length hands) (Deck_draw_many 2) (base ++ reverse (mjoin hands))
  = (Ok hands, base).
Proof.
  intros Hall. revert base. induction Hall as [|hand hands Hh _ IH]; intros base.
  { simpl. by rewrite app_nil_r. }
  simpl. rewrite reverse_app, app_assoc.
  unfold mbind at 1, M_bind.
  change 2 with (Z.of_nat 2). rewrite <- Hh, Deck_draw_many_rev.
  unfold mbind at 1, M_bind. rewrite Hh. change (Z.of_nat 2) with 2.
  by rewrite IH.
Qed.

(** A list of at least [2 * k] cards begins with [k] pairs. *)
Lemma split_pairs (k : nat) (xs : list Card) :
  (2 * k ≤ length xs)%nat →
  ∃ hands rest,
    xs = mjoin hands ++ rest ∧ length hands = k
    ∧ Forall (λ hand, length hand = 2%nat) hands.
Proof.
  revert xs. induction k as [|k IH]; intros xs Hlen.
  { exists [], xs. by split_and!. }
  destruct xs as [|a [|b xs]]; simpl in Hlen; [lia..|].
  destruct (IH xs) as (hands & rest & -> & Hk & Hall); [lia|].
  exists ([a; b] :: hands), rest. split_and!; simpl; [done|lia|].
  by constructor.
Qed.

(** The dealing of one trial succeeds on a deck with enough cards, and
    deals its last cards. *)
Lemma deal_ok (hero_hole : list Card) (k m : nat) cards :
  (2 * k + m ≤ length cards)%nat →
  ∃ opp_hands drawn base,
    cards = base ++ reverse (mjoin opp_hands ++ drawn)
    ∧ length opp_hands = k ∧ length drawn = m
    ∧ Forall (λ hand, length hand = 2%nat) opp_hands
    ∧ deal_opponents_and_board hero_hole (Z.of_nat k) (Z.of_nat m) cards
      = (Ok (hero_hole :: opp_hands, drawn), base).
Proof.
  intros Hlen.
  set (t := (2 * k + m)%nat) in *.
  set (base := take (length cards - t) cards).
  set (xs := reverse (drop (length cards - t) cards)).
  assert (cards = base ++ reverse xs) as Hcards.
  { unfold base, xs. by rewrite reverse_involutive, take_drop. }
  assert (length xs = t) as Hxs.
  { unfold xs. rewrite length_reverse, length_drop. lia. }
  destruct (split_pairs k xs) as (hands & rest & Hsplit & Hk & Hall); [lia|].
  assert (length rest = m) as Hrest.
  { assert (length (mjoin hands) = (2 * k)%nat) as Hj.
    { clear -Hk Hall. revert k Hk.
      induction Hall as [|h hs Hh _ IH]; intros k <-; [done|].
      simpl. rewrite length_app, Hh, (IH _ eq_refl). lia. }
    apply (f_equal length) in Hsplit.
    rewrite length_app, Hj in Hsplit. lia. }
  exists hands, rest, base. split_and!; try done.
  { by rewrite <- Hsplit. }
  unfold deal_opponents_and_board.
  rewrite Hcards, Hsplit, reverse_app, app_assoc, Nat2Z.id, <- Hk.
  unfold mbind at 1, M_bind. rewrite (draw_pairs _ _ Hall).
  unfold mbind at 1, M_bind. rewrite <- Hrest, Deck_draw_many_rev.
  done.
Qed.
End dealing.

(* ================================================================== *)
(** * The hero against random opponents                                *)
(* ================================================================== *)

(** One trial moves the hero's counters by at most one step, of one
    counter: a win only for the single winner 0, a tie only for a hero
    among two winners or more. *)
Lemma record_hero_step (winners : list nat) (hero_win hero_tie : Z) :
  ∃ hero_win' hero_tie',
    record_hero winners (hero_win, hero_tie) = Ok (hero_win', hero_tie')
    ∧ ((hero_win' = hero_win + 1 ∧ hero_tie' = hero_tie ∧ winners = [0%nat])
       ∨ (hero_win' = hero_win ∧ hero_tie' = hero_tie + 1
          ∧ (1 < length winners)%nat ∧ 0%nat ∈ winners)
       ∨ (hero_win' = hero_win ∧ hero_tie' = hero_tie)).
Proof.
  unfold record_hero. case_bool_decide as Hone.
  - destruct winners as [|w0 [|??]]; try done.
    case_bool_decide as Hw; subst; eexists _, _; (split; [done|]); auto.
  - case_bool_decide as Hin; eexists _, _; (split; [done|]); [|auto].
    right. left. split_and!; try done.
    destruct winners as [|? [|??]]; simpl in *; try lia.
    by apply elem_of_nil in Hin.
Qed.

Section hero.
Context {RNG : Type}.
Variable random_shuffle : list Card → RNG → list Card * RNG.
Hypothesis shuffle_Permutation :
  ∀ cards g, (random_shuffle cards g).1 ≡ₚ cards.

Implicit Types (hero_hole board : list Card) (g : RNG).

#[local] Arguments determine_winners : simpl never.
#[local] Arguments validate_unique_cards : simpl never.

(** The cards in play in a trial are all different. *)
Lemma trial_cards_NoDup hero_hole board (deck base drawn : list Card)
    (opp_hands : list (list Card)) :
  NoDup (hero_hole ++ board) →
  deck ≡ₚ remaining_of (hero_hole ++ board) →
  deck = base ++ reverse (mjoin opp_hands ++ drawn) →
  NoDup (mjoin (hero_hole :: opp_hands) ++ board ++ drawn).
Proof.
  intros Hnd Hperm Hdeck.
  pose proof (used_remaining_NoDup _ Hnd) as Hall.
  rewrite <- Hperm, Hdeck, reverse_Permutation in Hall.
  assert ((hero_hole ++ board) ++ base ++ mjoin opp_hands ++ drawn
          ≡ₚ base ++ mjoin (hero_hole :: opp_hands) ++ board ++ drawn) as Hp.
  { simpl. solve_Permutation. }
  rewrite Hp in Hall. by apply NoDup_app in Hall as (_ & _ & ?).
Qed.

(** A trial on valid input ends by recording the winners of a showdown. *)
Lemma hero_trial_ok hero_hole board (k : nat) (counts : Z * Z) g :
  (2 ≤ length hero_hole)%nat → (length board ≤ 5)%nat →
  NoDup (hero_hole ++ board) →
  (2 * k + 5 + length hero_hole ≤ 52)%nat →
  ∃ winners g',
    hero_trial random_shuffle hero_hole board (Z.of_nat k)
      (5 - Z.of_nat (length board)) counts g
    = (record_hero winners counts, g').
Proof.
  intros Hhero Hboard Hnd Hroom. unfold hero_trial.
  fold (remaining_of (hero_hole ++ board)).
  unfold mbind at 1, M_bind, Deck_shuffle. simpl.
  pose proof (shuffle_Permutation (remaining_of (hero_hole ++ board)) g) as Hperm.
  destruct (random_shuffle (remaining_of (hero_hole ++ board)) g) as [deck g'].
  simpl in Hperm.
  pose proof (remaining_length _ Hnd) as Hlen.
  rewrite <- (Permutation_length Hperm), length_app in Hlen.
  replace (5 - Z.of_nat (length board)) with (Z.of_nat (5 - length board)) by lia.
  destruct (deal_ok hero_hole k (5 - length board) deck)
    as (opp & drawn & base & Hdeck & Hk & Hm & Hpairs & Hdeal); [lia|].
  unfold mbind at 1, M_bind, lift at 1. rewrite Hdeal. simpl.
  assert (NoDup (mjoin (hero_hole :: opp) ++ board ++ drawn)) as Hcards.
  { by apply (trial_cards_NoDup hero_hole board deck base). }
  unfold mbind at 1, M_bind, lift at 1.
  rewrite (validate_unique_cards_ok _ _ Hcards).
  destruct (determine_winners_ok (hero_hole :: opp) (board ++ drawn))
    as (winners & hvs & Hdw & _); try done.
  { constructor; [done|]. eapply Forall_impl; [exact Hpairs|].
    intros hand Hh. simpl in Hh. lia. }
  { assert (length (board ++ drawn) = 5%nat) as H5.
    { rewrite length_app. lia. }
    constructor.
    - rewrite length_app, H5. lia.
    - eapply Forall_impl; [exact Hpairs|].
      intros hand Hh. simpl in Hh. rewrite length_app, H5. lia. }
  unfold mbind at 1, M_bind, lift at 1. rewrite Hdw. simpl.
  exists winners, g'. done.
Qed.

(** The counters after any number of trials. *)
Lemma hero_loop hero_hole board (k n : nat) (hero_win hero_tie : Z) g :
  (2 ≤ length hero_hole)%nat → (length board ≤ 5)%nat →
  NoDup (hero_hole ++ board) →
  (2 * k + 5 + length hero_hole ≤ 52)%nat →
  ∃ hero_win' hero_tie' g',
    loopM n (hero_trial random_shuffle hero_hole board (Z.of_nat k)
               (5 - Z.of_nat (length board))) (hero_win, hero_tie) g
    = (Ok (hero_win', hero_tie'), g')
    ∧ hero_win ≤ hero_win' ∧ hero_tie ≤ hero_tie'
    ∧ hero_win' + hero_tie' ≤ hero_win + hero_tie + Z.of_nat n.
Proof.
  intros Hhero Hboard Hnd Hroom. revert hero_win hero_tie g.
  induction n as [|n IH]; intros hero_win hero_tie g.
  { exists hero_win, hero_tie, g. simpl. split_and!; [done|lia..]. }
  cbn [loopM]. unfold mbind at 1, M_bind.
  destruct (hero_trial_ok hero_hole board k (hero_win, hero_tie) g)
    as (winners & g1 & ->); try done.
  destruct (record_hero_step winners hero_win hero_tie)
    as (w1 & t1 & -> & Hstep).
  destruct (IH w1 t1 g1) as (w2 & t2 & g2 & -> & Hw & Ht & Hsum).
  exists w2, t2, g2. split; [done|]. lia.
Qed.
End hero.

(** Quotients of counters by the number of samples. *)
Lemma true_div_unit_interval (a n : Z) :
  0 ≤ a ≤ n → 1 ≤ n →
  true_div a n = Ok (inject_Z a / inject_Z n)%Q
  ∧ (0 <= inject_Z a / inject_Z n)%Q ∧ (inject_Z a / inject_Z n <= 1)%Q.
Proof.
  intros Ha Hn. unfold true_div.
  destruct (Z.eqb_spec n 0); [lia|]. split; [done|].
  destruct n as [|p|p]; try lia.
  unfold Qle, Qdiv, Qmult, Qinv, inject_Z. simpl. split; lia.
Qed.

Lemma quotients_sum (a b n : Z) :
  0 ≤ a → 0 ≤ b → a + b ≤ n → 1 ≤ n →
  (inject_Z a / inject_Z n + inject_Z b / inject_Z n <= 1)%Q.
Proof.
  intros Ha Hb Hab Hn. destruct n as [|p|p]; try lia.
  unfold Qle, Qplus, Qdiv, Qmult, Qinv, inject_Z. simpl. nia.
Qed.

(** C10.  A trial of [simulate_hero_vs_random_opponents] adds one to at
    most one of the two counters: to hero-win only when the hero, index 0,
    is the single winner, to hero-tie only when there are two winners or
    more and the hero is one of them.  So for a hero with two hole cards
    or more, a board of at most five cards, no card twice among them, at
    least one opponent, enough cards in the deck for the deal and at least
    one sample, the function returns, with a shuffle that permutes the
    deck, the quotients of two counters that are not negative and whose
    sum is at most the number of samples: each quotient lies in [0, 1] and
    their sum is at most 1. *)
Theorem simulate_hero_probabilities {RNG}
    (random_shuffle : list Card → RNG → list Card * RNG)
    (hero_hole board : list Card) (num_opponents num_samples : Z) (g : RNG) :
  (∀ cards g, (random_shuffle cards g).1 ≡ₚ cards) →
  (2 ≤ length hero_hole)%nat → (length board ≤ 5)%nat →
  NoDup (hero_hole ++ board) →
  1 ≤ num_opponents →
  2 * num_opponents + 5 + Z.of_nat (length hero_hole) ≤ 52 →
  1 ≤ num_samples →
  (∀ winners hero_win hero_tie,
     ∃ hero_win' hero_tie',
       record_hero winners (hero_win, hero_tie) = Ok (hero_win', hero_tie')
       ∧ ((hero_win' = hero_win + 1 ∧ hero_tie' = hero_tie ∧ winners = [0%nat])
          ∨ (hero_win' = hero_win ∧ hero_tie' = hero_tie + 1
             ∧ (1 < length winners)%nat ∧ 0%nat ∈ winners)
          ∨ (hero_win' = hero_win ∧ hero_tie' = hero_tie)))
  ∧ ∃ hero_win hero_tie win_prob tie_prob g',
      simulate_hero_vs_random_opponents random_shuffle hero_hole board
        num_opponents num_samples g
      = (Ok (win_prob, tie_prob), g')
      ∧ 0 ≤ hero_win ∧ 0 ≤ hero_tie ∧ hero_win + hero_tie ≤ num_samples
      ∧ win_prob = (inject_Z hero_win / inject_Z num_samples)%Q
      ∧ tie_prob = (inject_Z hero_tie / inject_Z num_samples)%Q
      ∧ (0 <= win_prob)%Q ∧ (win_prob <= 1)%Q
      ∧ (0 <= tie_prob)%Q ∧ (tie_prob <= 1)%Q
      ∧ (win_prob + tie_prob <= 1)%Q.
Proof.
  intros Hperm Hhero Hboard Hnd Hopp Hroom Hsamples.
  split; [apply record_hero_step|].
  unfold simulate_hero_vs_random_opponents.
  destruct (Nat.ltb_spec (length hero_hole) 2); [lia|].
  destruct (Nat.ltb_spec 5 (length board)); [lia|].
  destruct (Z.ltb_spec num_opponents 1); [lia|].
  destruct (Z.ltb_spec (5 - Z.of_nat (length board)) 0); [lia|].
  destruct (hero_loop random_shuffle Hperm hero_hole board
              (Z.to_nat num_opponents) (Z.to_nat num_samples) 0 0 g)
    as (hw & ht & g' & Hloop & Hw & Ht & Hsum); try done; [lia|].
  rewrite Z2Nat.id in Hloop, Hsum by lia.
  unfold mbind at 1, M_bind. rewrite Hloop. simpl.
  destruct (true_div_unit_interval hw num_samples) as (Hdw & Hw0 & Hw1); [lia..|].
  destruct (true_div_unit_interval ht num_samples) as (Hdt & Ht0 & Ht1); [lia..|].
  unfold mbind at 1, M_bind, lift at 1. rewrite Hdw.
  unfold mbind at 1, M_bind, lift at 1. rewrite Hdt.
  exists hw, ht, (inject_Z hw / inject_Z num_samples)%Q,
    (inject_Z ht / inject_Z num_samples)%Q, g'.
  split_and!; try done.
  apply quotients_sum; lia.
Qed.

Lemma simulate_hero_probabilities_witness :
  ∃ hero_win hero_tie win_prob tie_prob g',
    simulate_hero_vs_random_opponents (λ cards (g : unit), (cards, g))
      [mkCard ACE SPADES; mkCard KING DIAMONDS]
      [mkCard QUEEN HEARTS; mkCard TWO CLUBS; mkCard SEVEN SPADES] 2 3 tt
    = (Ok (win_prob, tie_prob), g')
    ∧ 0 ≤ hero_win ∧ 0 ≤ hero_tie ∧ hero_win + hero_tie ≤ 3
    ∧ win_prob = (inject_Z hero_win / inject_Z 3)%Q
    ∧ tie_prob = (inject_Z hero_tie / inject_Z 3)%Q
    ∧ (0 <= win_prob)%Q ∧ (win_prob <= 1)%Q
    ∧ (0 <= tie_prob)%Q ∧ (tie_prob <= 1)%Q
    ∧ (win_prob + tie_prob <= 1)%Q.
Proof.
  apply (simulate_hero_probabilities (λ cards (g : unit), (cards, g))
           [mkCard ACE SPADES; mkCard KING DIAMONDS]
           [mkCard QUEEN HEARTS; mkCard TWO CLUBS; mkCard SEVEN SPADES] 2 3 tt).
  - intros cards g. reflexivity.
  - simpl. lia.
  - simpl. lia.
  - by apply (bool_decide_unpack _).
  - lia.
  - simpl. lia.
  - lia.
Defined.

(* ================================================================== *)
(** * More on cards and the deck                                       *)
(* ================================================================== *)

Lemma upper_is_rank_label (ch : ascii) (r : Rank) :
  upper ch = Rank_label r →
  Rank_from_char ch = Ok r ∧ isspace ch = false.
Proof.
  destruct ch as [[] [] [] [] [] [] [] []]; destruct r; try discriminate; done.
Qed.

Lemma upper_is_suit_letter (ch : ascii) (s : Suit) :
  upper ch = Suit_letter s →
  Suit_from_char ch = Ok s ∧ isspace ch = false.
Proof.
  destruct ch as [[] [] [] [] [] [] [] []]; destruct s; try discriminate; done.
Qed.

Lemma strip_two (a b : ascii) :
  isspace a = false → isspace b = false →
  strip (String a (String b EmptyString)) = String a (String b EmptyString).
Proof.
  intros Ha Hb. unfold strip. cbn [lstrip]. rewrite Ha.
  cbn [rstrip]. by rewrite Hb.
Qed.

(** X1.  [Rank.from_char] undoes [Rank.label], and a two-character text
    whose characters are, up to case, the rank label and the suit letter
    of a card parses to that card. *)
Theorem card_code_round_trip (c : Card) :
  Rank_from_char (Rank_label (rank c)) = Ok (rank c)
  ∧ Suit_from_char (Suit_letter (suit c)) = Ok (suit c)
  ∧ ∀ r_ch s_ch,
      upper r_ch = Rank_label (rank c) → upper s_ch = Suit_letter (suit c) →
      Card_from_str (String r_ch (String s_ch EmptyString)) = Ok c.
Proof.
  split_and!; [by destruct c as [[] ?]|by destruct c as [? []]|].
  intros r_ch s_ch [Hr Hrs]%upper_is_rank_label [Hs Hss]%upper_is_suit_letter.
  unfold Card_from_str. rewrite (strip_two _ _ Hrs Hss), Hr. simpl.
  rewrite Hs. by destruct c.
Qed.

(** X2.  A deck built without arguments holds 52 cards, no card twice,
    and every card. *)
Theorem full_deck_spec :
  length (Deck_init None) = 52%nat
  ∧ NoDup (Deck_init None)
  ∧ ∀ c : Card, c ∈ Deck_init None.
Proof.
  split_and!; [done|apply full_deck_NoDup|apply full_deck_complete].
Qed.

(** X3.  [draw] on an empty deck raises [DeckExhausted] and leaves it
    empty; on any other deck it returns the last card and leaves the cards
    before it; and it returns a card only in that way. *)
Theorem Deck_draw_spec (cards : Deck) :
  (cards = [] → Deck_draw cards = (Err DeckExhausted, []))
  ∧ (∀ c rest, cards = rest ++ [c] → Deck_draw cards = (Ok c, rest))
  ∧ (∀ c rest, Deck_draw cards = (Ok c, rest) → cards = rest ++ [c])
  ∧ (∀ e rest, Deck_draw cards = (Err e, rest) → cards = [] ∧ rest = []
                                                 ∧ e = DeckExhausted).
Proof.
  split_and!.
  - by intros ->.
  - intros c rest ->. apply Deck_draw_snoc.
  - intros c rest. destruct (decide (cards = [])) as [->|Hne]; [done|].
    destruct (snoc_inv cards Hne) as (l & x & ->).
    rewrite Deck_draw_snoc. by intros [= -> ->].
  - intros e rest. destruct (decide (cards = [])) as [->|Hne].
    + by intros [= <- <-].
    + destruct (snoc_inv cards Hne) as (l & x & ->).
      by rewrite Deck_draw_snoc.
Qed.

(** [draw_many(n)] within the size of the deck, in closed form. *)
Lemma Deck_draw_many_ok (n : nat) (cards : Deck) :
  (n ≤ length cards)%nat →
  Deck_draw_many (Z.of_nat n) cards
  = (Ok (reverse (drop (length cards - n) cards)), take (length cards - n) cards).
Proof.
  intros Hn. unfold Deck_draw_many.
  destruct (Z.ltb_spec (Z.of_nat n) 0); [lia|].
  destruct (Z.of_nat n >? Z.of_nat (length cards)) eqn:Hgt.
  { apply Z.gtb_lt in Hgt. lia. }
  by rewrite Nat2Z.id, repeat_draw.
Qed.

Lemma Deck_draw_many_ok_Z (n : Z) (cards : Deck) :
  0 ≤ n ≤ Z.of_nat (length cards) →
  Deck_draw_many n cards
  = (Ok (reverse (drop (length cards - Z.to_nat n) cards)),
     take (length cards - Z.to_nat n) cards).
Proof.
  intros Hn. pose proof (Deck_draw_many_ok (Z.to_nat n) cards) as H.
  rewrite Z2Nat.id in H by lia. apply H. lia.
Qed.

(** A returning [draw_many] is within the size of the deck. *)
Lemma Deck_draw_many_returns (n : Z) (cards drawn rest : Deck) :
  Deck_draw_many n cards = (Ok drawn, rest) →
  0 ≤ n ≤ Z.of_nat (length cards).
Proof.
  unfold Deck_draw_many, raise.
  destruct (Z.ltb_spec n 0); [done|].
  destruct (n >? Z.of_nat (length cards)) eqn:Hgt; [done|].
  rewrite Z.gtb_ltb in Hgt. apply Z.ltb_ge in Hgt. lia.
Qed.

Lemma drop_take_drop {A} (l : list A) (i j : nat) :
  (i ≤ j)%nat → drop i l = drop i (take j l) ++ drop j l.
Proof.
  revert i j. induction l as [|x l IH]; intros [|i] [|j] Hij; simpl;
    try lia; try done.
  - by rewrite take_drop.
  - apply IH. lia.
Qed.

(** X4.  Two calls of [draw_many] in a row return, one after the other,
    what a single call for the sum returns, and leave the same deck. *)
Theorem Deck_draw_many_twice (n m : Z) (cards : Deck) :
  0 ≤ n → 0 ≤ m → n + m ≤ Z.of_nat (length cards) →
  ∃ first second rest rest',
    Deck_draw_many n cards = (Ok first, rest)
    ∧ Deck_draw_many m rest = (Ok second, rest')
    ∧ Deck_draw_many (n + m) cards = (Ok (first ++ second), rest').
Proof.
  intros Hn Hm Hsum.
  rewrite <- (Z2Nat.id n), <- (Z2Nat.id m) by lia.
  rewrite <- Nat2Z.inj_add.
  set (a := Z.to_nat n). set (b := Z.to_nat m).
  assert (a + b ≤ length cards)%nat as Hab by lia.
  rewrite (Deck_draw_many_ok a), (Deck_draw_many_ok (a + b)) by lia.
  eexists _, _, _, _. split; [done|].
  rewrite Deck_draw_many_ok by (rewrite length_take; lia).
  split; [done|].
  rewrite length_take, take_take, <- reverse_app.
  replace ((length cards - a) `min` length cards)%nat
    with (length cards - a)%nat by lia.
  replace (length cards - a - b)%nat with (length cards - (a + b))%nat by lia.
  replace ((length cards - (a + b)) `min` (length cards - a))%nat
    with (length cards - (a + b))%nat by lia.
  do 3 f_equal. apply drop_take_drop. lia.
Qed.

Lemma Deck_draw_many_twice_witness :
  ∃ first second rest rest',
    Deck_draw_many 2 (Deck_init None) = (Ok first, rest)
    ∧ Deck_draw_many 3 rest = (Ok second, rest')
    ∧ Deck_draw_many (2 + 3) (Deck_init None) = (Ok (first ++ second), rest').
Proof. apply (Deck_draw_many_twice 2 3 (Deck_init None)); simpl; lia. Defined.

(** X5.  For [1 <= n] within the size of the deck, [peek(n)] returns,
    in the opposite order, the cards that [draw_many(n)] returns, and
    leaves the deck as it is; beyond the size of the deck it returns every
    card; a negative [n] raises [InvalidArgument]. *)
Theorem Deck_peek_shows_next_draw (n : Z) (cards : Deck) :
  (n < 0 → Deck_peek n cards = (Err InvalidArgument, cards))
  ∧ (1 ≤ n ≤ Z.of_nat (length cards) →
       ∃ drawn rest,
         Deck_draw_many n cards = (Ok drawn, rest)
         ∧ Deck_peek n cards = (Ok (reverse drawn), cards)
         ∧ length drawn = Z.to_nat n)
  ∧ (Z.of_nat (length cards) ≤ n → 1 ≤ n → Deck_peek n cards = (Ok cards, cards)).
Proof.
  split_and!.
  - intros Hn. unfold Deck_peek, raise. by destruct (Z.ltb_spec n 0); [|lia].
  - intros Hn. rewrite Deck_draw_many_ok_Z, Deck_peek_positive by lia.
    eexists _, _. split; [done|]. rewrite reverse_involutive. split; [done|].
    rewrite length_reverse, length_drop. lia.
  - intros Hn H1. rewrite Deck_peek_positive by lia.
    replace (length cards - Z.to_nat n)%nat with 0%nat by lia. done.
Qed.

(** X6.  What [draw_many] returns and what it leaves make up the deck it
    was called on: the deck is the cards left followed by the cards
    returned in the opposite order.  No card is lost or made, and in a
    deck without repetition the cards returned are different from each
    other and from the cards left. *)
Theorem Deck_draw_many_conserves (n : Z) (cards drawn rest : Deck) :
  Deck_draw_many n cards = (Ok drawn, rest) →
  cards = rest ++ reverse drawn
  ∧ length drawn = Z.to_nat n
  ∧ (length rest + length drawn = length cards)%nat
  ∧ drawn ++ rest ≡ₚ cards
  ∧ (NoDup cards → NoDup drawn ∧ NoDup rest ∧ ∀ c, c ∈ drawn → c ∉ rest).
Proof.
  intros Hdraw. pose proof (Deck_draw_many_returns _ _ _ _ Hdraw) as Hn.
  rewrite Deck_draw_many_ok_Z in Hdraw by lia.
  injection Hdraw as <- <-.
  rewrite reverse_involutive, take_drop, length_reverse, length_drop, length_take.
  assert (reverse (drop (length cards - Z.to_nat n) cards)
          ++ take (length cards - Z.to_nat n) cards ≡ₚ cards) as Hperm.
  { rewrite reverse_Permutation, Permutation_app_comm. by rewrite take_drop. }
  split_and!; [done|lia|lia|done|].
  intros Hnd. rewrite <- Hperm in Hnd.
  apply NoDup_app in Hnd as (? & ? & ?). done.
Qed.

Lemma Deck_draw_many_conserves_witness :
  let drawn := [mkCard ACE SPADES; mkCard KING SPADES] in
  let rest := take 50 (Deck_init None) in
  Deck_init None = rest ++ reverse drawn
  ∧ length drawn = Z.to_nat 2
  ∧ (length rest + length drawn = length (Deck_init None))%nat
  ∧ drawn ++ rest ≡ₚ Deck_init None
  ∧ (NoDup (Deck_init None) →
     NoDup drawn ∧ NoDup rest ∧ ∀ c, c ∈ drawn → c ∉ rest).
Proof.
  apply (Deck_draw_many_conserves 2 (Deck_init None)). reflexivity.
Defined.

(* ================================================================== *)
(** * The evaluator does not depend on the order of the cards          *)
(* ================================================================== *)

#[local] Instance flip_Zle_trans : Transitive (flip Z.le).
Proof. intros x y z. unfold flip. lia. Qed.

#[local] Instance flip_Zle_total : Total (flip Z.le).
Proof. intros x y. unfold flip. lia. Qed.

Lemma sorted_desc_perm (xs ys : list Z) :
  xs ≡ₚ ys → sorted_desc xs = sorted_desc ys.
Proof.
  intros Hperm. unfold sorted_desc.
  apply (Sorted_unique_strong (flip Z.le)).
  - intros x y _ _. unfold flip. lia.
  - apply Sorted_merge_sort, _.
  - apply Sorted_merge_sort, _.
  - by rewrite !merge_sort_Permutation.
Qed.

Lemma Counter_step_comm (m : gmap Z Z) (x y : Z) :
  <[y := default 0 (<[x := default 0 (m !! x) + 1]> m !! y) + 1]>
    (<[x := default 0 (m !! x) + 1]> m)
  = <[x := default 0 (<[y := default 0 (m !! y) + 1]> m !! x) + 1]>
      (<[y := default 0 (m !! y) + 1]> m).
Proof.
  destruct (decide (x = y)) as [->|Hne]; [done|].
  rewrite !lookup_insert_ne by done. by apply insert_insert_ne.
Qed.

Lemma Counter_perm (xs ys : list Z) : xs ≡ₚ ys → Counter xs = Counter ys.
Proof.
  unfold Counter. generalize (∅ : gmap Z Z).
  intros m Hperm. revert m.
  induction Hperm as [|x xs ys _ IH|x y xs|xs ys zs _ IH1 _ IH2]; intros m; simpl.
  - done.
  - apply IH.
  - by rewrite Counter_step_comm.
  - by rewrite IH1.
Qed.

(** [_evaluate_5cards] gives the same value, or raises the same, on the
    same cards in another order. *)
Lemma evaluate_5cards_perm (cards cards' : list Card) :
  cards ≡ₚ cards' → evaluate_5cards cards = evaluate_5cards cards'.
Proof.
  intros Hperm. unfold evaluate_5cards.
  rewrite <- (Permutation_length Hperm).
  assert (((λ c, Rank_value (rank c)) <$> cards)
          ≡ₚ ((λ c, Rank_value (rank c)) <$> cards')) as Hranks.
  { by apply fmap_Permutation. }
  assert ((suit <$> cards) ≡ₚ (suit <$> cards')) as Hsuits.
  { by apply fmap_Permutation. }
  rewrite <- (Counter_perm _ _ Hranks), <- (sorted_desc_perm _ _ Hranks).
  by rewrite <- (list_to_set_perm_L _ _ Hsuits),
    <- (list_to_set_perm_L _ _ Hranks).
Qed.

(** X7.  The value of five cards, and whether the five-card evaluator
    returns at all, do not depend on the order of the cards; it raises
    [InvalidHandSize] exactly when it is not given five cards. *)
Theorem evaluate_5cards_order_free (cards cards' : list Card) :
  (cards ≡ₚ cards' → evaluate_5cards cards = evaluate_5cards cards')
  ∧ ((∃ hv, evaluate_5cards cards = Ok hv) ↔ length cards = 5%nat)
  ∧ (length cards ≠ 5%nat ↔ evaluate_5cards cards = Err InvalidHandSize).
Proof.
  split_and!.
  - apply evaluate_5cards_perm.
  - split; [|apply evaluate_5cards_total].
    intros [hv Hhv]. destruct (decide (length cards = 5%nat)) as [|Hne]; [done|].
    by rewrite (evaluate_5cards_wrong_size _ Hne) in Hhv.
  - split; [apply evaluate_5cards_wrong_size|].
    intros Herr Hlen. destruct (evaluate_5cards_total _ Hlen) as [hv Hhv].
    congruence.
Qed.

(** Five cards taken from a hand, in any order, are worth at most the
    best hand. *)
Lemma evaluate_best_dominates (cards combo : list Card) (best : HandValue) :
  evaluate_best cards = Ok best →
  combo ⊆+ cards → length combo = 5%nat →
  ∃ hv, evaluate_5cards combo = Ok hv ∧ HandValue_le hv best = true.
Proof.
  intros Hbest Hsub Hlen.
  destruct (decide (length cards = 5%nat)) as [Heq|Hne].
  - assert (combo ≡ₚ cards) as Hperm.
    { apply submseteq_length_Permutation; [done|lia]. }
    rewrite (evaluate_5cards_perm _ _ Hperm), <- (evaluate_best_five _ Heq).
    exists best. split; [done|apply HandValue_le_refl].
  - pose proof (submseteq_length _ _ Hsub) as Hle.
    destruct (evaluate_best_more cards) as (best' & Hbest' & _ & Hmax); [lia|].
    assert (best' = best) as -> by congruence.
    apply submseteq_sublist_r in Hsub as (combo' & Hperm & Hsub).
    rewrite (evaluate_5cards_perm _ _ Hperm). apply Hmax; [done|].
    by rewrite <- (Permutation_length Hperm).
Qed.

(** The best hand is the value of five of the cards. *)
Lemma evaluate_best_attained (cards : list Card) (best : HandValue) :
  evaluate_best cards = Ok best →
  ∃ combo, combo `sublist_of` cards ∧ length combo = 5%nat
           ∧ evaluate_5cards combo = Ok best.
Proof.
  intros Hbest.
  destruct (Nat.lt_ge_cases (length cards) 5) as [Hlt|Hge].
  { by rewrite (evaluate_best_too_few _ Hlt) in Hbest. }
  destruct (decide (length cards = 5%nat)) as [Heq|Hne].
  - exists cards. rewrite <- (evaluate_best_five _ Heq). done.
  - destruct (evaluate_best_more cards) as (best' & Hbest' & Hatt & _); [lia|].
    by assert (best' = best) as -> by congruence.
Qed.

Lemma evaluate_best_returns (cards : list Card) (best : HandValue) :
  evaluate_best cards = Ok best → (5 ≤ length cards)%nat.
Proof.
  intros Hbest. destruct (Nat.lt_ge_cases (length cards) 5) as [Hlt|Hge]; [|done].
  by rewrite (evaluate_best_too_few _ Hlt) in Hbest.
Qed.

(** More cards never make a worse best hand. *)
Lemma evaluate_best_mono (cards cards' : list Card) (best : HandValue) :
  cards ⊆+ cards' → evaluate_best cards = Ok best →
  ∃ best', evaluate_best cards' = Ok best' ∧ HandValue_le best best' = true.
Proof.
  intros Hsub Hbest.
  pose proof (evaluate_best_returns _ _ Hbest) as Hlen.
  pose proof (submseteq_length _ _ Hsub) as Hle.
  destruct (evaluate_best_ok cards') as [best' Hbest']; [lia|].
  exists best'. split; [done|].
  destruct (evaluate_best_attained _ _ Hbest) as (combo & Hc & Hlen5 & Hval).
  destruct (evaluate_best_dominates cards' combo best') as (hv & Hhv & Hmax);
    [done| |done|].
  { etrans; [by apply sublist_submseteq|done]. }
  congruence.
Qed.

Lemma evaluate_best_perm (cards cards' : list Card) :
  cards ≡ₚ cards' → evaluate_best cards = evaluate_best cards'.
Proof.
  intros Hperm.
  destruct (Nat.lt_ge_cases (length cards) 5) as [Hlt|Hge].
  { rewrite !evaluate_best_too_few; [done| |done].
    by rewrite <- (Permutation_length Hperm). }
  destruct (evaluate_best_ok cards Hge) as [a Ha].
  destruct (evaluate_best_mono cards cards' a) as (b & Hb & Hab); [|done|].
  { by rewrite Hperm. }
  destruct (evaluate_best_mono cards' cards b) as (a' & Ha' & Hba); [|done|].
  { by rewrite Hperm. }
  assert (a' = a) as -> by congruence.
  rewrite Ha, Hb. f_equal. by apply HandValue_le_antisym.
Qed.

(** X8.  [evaluate_best] does not depend on the order of the cards: on the
    same cards in another order it returns the same value, or raises the
    same. *)
Theorem evaluate_best_order_free (cards cards' : list Card) :
  cards ≡ₚ cards' → evaluate_best cards = evaluate_best cards'.
Proof. apply evaluate_best_perm. Qed.

Lemma evaluate_best_order_free_witness :
  evaluate_best [mkCard ACE SPADES; mkCard KING SPADES; mkCard TWO HEARTS;
                 mkCard TWO CLUBS; mkCard SEVEN DIAMONDS; mkCard NINE SPADES]
  = evaluate_best [mkCard NINE SPADES; mkCard TWO CLUBS; mkCard ACE SPADES;
                   mkCard SEVEN DIAMONDS; mkCard TWO HEARTS; mkCard KING SPADES].
Proof.
  apply evaluate_best_order_free.
  apply (bool_decide_unpack _). by vm_compute.
Defined.

(** X9.  A hand that returns a best value keeps at least that value when
    cards are added to it, in any positions: if every card of [cards]
    occurs in [cards'], the best value of [cards'] is not below the best
    value of [cards].  And the best value is the value of five of the
    cards. *)
Theorem evaluate_best_monotone (cards cards' : list Card) (best : HandValue) :
  cards ⊆+ cards' → evaluate_best cards = Ok best →
  (∃ best', evaluate_best cards' = Ok best' ∧ HandValue_le best best' = true)
  ∧ (∃ combo, combo `sublist_of` cards ∧ length combo = 5%nat
              ∧ evaluate_5cards combo = Ok best).
Proof.
  intros Hsub Hbest. split.
  - by apply (evaluate_best_mono cards).
  - by apply evaluate_best_attained.
Qed.

Lemma evaluate_best_monotone_witness :
  let flop := [mkCard ACE SPADES; mkCard KING SPADES; mkCard TWO HEARTS;
               mkCard TWO CLUBS; mkCard SEVEN DIAMONDS] in
  let turn := flop ++ [mkCard TWO SPADES] in
  let best := mkHandValue ONE_PAIR [2; 14; 13; 7] in
  (∃ best', evaluate_best turn = Ok best' ∧ HandValue_le best best' = true)
  ∧ (∃ combo, combo `sublist_of` flop ∧ length combo = 5%nat
              ∧ evaluate_5cards combo = Ok best).
Proof.
  apply evaluate_best_monotone.
  - apply submseteq_inserts_r. done.
  - reflexivity.
Defined.

(* ================================================================== *)
(** * Comparing two hands                                              *)
(* ================================================================== *)

(** The sign returned by [compare_hands], from the two best values. *)
Lemma compare_hands_value (cards1 cards2 : list Card) (h1 h2 : HandValue) :
  evaluate_best cards1 = Ok h1 → evaluate_best cards2 = Ok h2 →
  compare_hands cards1 cards2
  = Ok (match HandValue_compare h1 h2 with Lt => -1 | Eq => 0 | Gt => 1 end).
Proof.
  intros H1 H2. unfold compare_hands. rewrite H1, H2. simpl.
  unfold HandValue_lt, HandValue_gt. by destruct (HandValue_compare h1 h2).
Qed.

Lemma compare_hands_returns (cards1 cards2 : list Card) (r : Z) :
  compare_hands cards1 cards2 = Ok r →
  ∃ h1 h2, evaluate_best cards1 = Ok h1 ∧ evaluate_best cards2 = Ok h2.
Proof.
  unfold compare_hands.
  destruct (evaluate_best cards1) as [h1|]; [|done].
  destruct (evaluate_best cards2) as [h2|]; [|done]. eauto.
Qed.

(** X10.  [compare_hands] raises [TooFewCards] when one of the hands has
    fewer than five cards (the first hand is looked at first) and
    otherwise returns -1, 0 or 1.  Swapping the hands changes the sign; 0
    is returned exactly when the two best values are equal; and "not
    worse than" is transitive. *)
Theorem compare_hands_spec (cards1 cards2 cards3 : list Card) :
  (((length cards1 < 5)%nat ∨ (length cards2 < 5)%nat) →
     compare_hands cards1 cards2 = Err TooFewCards)
  ∧ ((5 ≤ length cards1)%nat → (5 ≤ length cards2)%nat →
       ∃ r, compare_hands cards1 cards2 = Ok r ∧ (r = -1 ∨ r = 0 ∨ r = 1))
  ∧ (∀ r, compare_hands cards1 cards2 = Ok r →
          compare_hands cards2 cards1 = Ok (- r))
  ∧ (compare_hands cards1 cards2 = Ok 0 ↔
       ∃ hv, evaluate_best cards1 = Ok hv ∧ evaluate_best cards2 = Ok hv)
  ∧ (∀ r r', compare_hands cards1 cards2 = Ok r → 0 ≤ r →
             compare_hands cards2 cards3 = Ok r' → 0 ≤ r' →
             ∃ r'', compare_hands cards1 cards3 = Ok r'' ∧ 0 ≤ r'').
Proof.
  split_and!.
  - intros Hshort. unfold compare_hands.
    destruct (Nat.lt_ge_cases (length cards1) 5) as [Hlt|Hge].
    + by rewrite (evaluate_best_too_few _ Hlt).
    + destruct (evaluate_best_ok _ Hge) as [h1 ->]. simpl.
      destruct Hshort as [?|Hlt]; [lia|].
      by rewrite (evaluate_best_too_few _ Hlt).
  - intros H1 H2.
    destruct (evaluate_best_ok _ H1) as [h1 Hh1].
    destruct (evaluate_best_ok _ H2) as [h2 Hh2].
    rewrite (compare_hands_value _ _ _ _ Hh1 Hh2).
    eexists. split; [done|]. destruct (HandValue_compare h1 h2); auto.
  - intros r Hr.
    destruct (compare_hands_returns _ _ _ Hr) as (h1 & h2 & Hh1 & Hh2).
    rewrite (compare_hands_value _ _ _ _ Hh1 Hh2) in Hr.
    rewrite (compare_hands_value _ _ _ _ Hh2 Hh1).
    rewrite (HandValue_compare_antisym h1 h2).
    injection Hr as <-. by destruct (HandValue_compare h1 h2).
  - split.
    + intros Hr.
      destruct (compare_hands_returns _ _ _ Hr) as (h1 & h2 & Hh1 & Hh2).
      rewrite (compare_hands_value _ _ _ _ Hh1 Hh2) in Hr.
      exists h1. split; [done|]. rewrite Hh2. f_equal. symmetry.
      apply HandValue_compare_eq.
      by destruct (HandValue_compare h1 h2).
    + intros (hv & H1 & H2).
      rewrite (compare_hands_value _ _ _ _ H1 H2).
      by rewrite HandValue_compare_refl.
  - intros r r' Hr Hr0 Hr' Hr'0.
    destruct (compare_hands_returns _ _ _ Hr) as (h1 & h2 & Hh1 & Hh2).
    destruct (compare_hands_returns _ _ _ Hr') as (? & h3 & Hh2' & Hh3).
    rewrite (compare_hands_value _ _ _ _ Hh1 Hh2) in Hr.
    rewrite (compare_hands_value _ _ _ _ Hh2 Hh3) in Hr'.
    rewrite (compare_hands_value _ _ _ _ Hh1 Hh3).
    eexists. split; [done|].
    assert (HandValue_le h3 h2 = true) as H32.
    { unfold HandValue_le. rewrite (HandValue_compare_antisym h2 h3).
      injection Hr' as <-. destruct (HandValue_compare h2 h3); simpl; try done; lia. }
    assert (HandValue_le h2 h1 = true) as H21.
    { unfold HandValue_le. rewrite (HandValue_compare_antisym h1 h2).
      injection Hr as <-. destruct (HandValue_compare h1 h2); simpl; try done; lia. }
    pose proof (HandValue_le_trans _ _ _ H32 H21) as H31.
    unfold HandValue_le in H31. rewrite (HandValue_compare_antisym h1 h3) in H31.
    destruct (HandValue_compare h1 h3); simpl in *; try done; lia.
Qed.

(* ================================================================== *)
(** * The shape of a hand value, and its description                   *)
(* ================================================================== *)

Section shape.
Implicit Types (xs : list Z) (rc : gmap Z Z).

Lemma Counter_from_elem (m : gmap Z Z) xs (r v : Z) :
  foldl (λ m x, <[x := default 0 (m !! x) + 1]> m) m xs !! r = Some v →
  r ∈ xs ∨ is_Some (m !! r).
Proof.
  revert m. induction xs as [|x xs IH]; intros m; simpl.
  { intros ->. right. eauto. }
  intros [Hin|Hsome]%IH; [left; right; done|].
  destruct (decide (x = r)) as [->|Hne]; [left; left|].
  rewrite lookup_insert_ne in Hsome by done. by right.
Qed.

Lemma Counter_lookup_elem xs (r v : Z) : Counter xs !! r = Some v → r ∈ xs.
Proof.
  intros [?|[? Hsome]]%Counter_from_elem; [done|].
  by rewrite lookup_empty in Hsome.
Qed.

Lemma ranks_with_subset (n : Z) xs (r : Z) :
  r ∈ ranks_with n (Counter xs) → r ∈ xs.
Proof.
  unfold ranks_with.
  intros ([r' v] & -> & [_ Hin]%list_elem_of_filter)%list_elem_of_fmap.
  apply elem_of_map_to_list in Hin. by apply Counter_lookup_elem in Hin.
Qed.

Lemma py_max_elem {A} (gt : A → A → bool) (l : list A) (x : A) :
  py_max gt l = Ok x → x ∈ l.
Proof.
  destruct l as [|a l]; [done|]. simpl. intros [= <-].
  revert a. induction l as [|b l IH]; intros a; simpl; [left|].
  destruct (gt b a).
  - destruct (proj1 (elem_of_cons _ _ _) (IH b)) as [->|?];
      [right; left|by do 2 right].
  - destruct (proj1 (elem_of_cons _ _ _) (IH a)) as [->|?];
      [left|by do 2 right].
Qed.

Lemma filter_snd_length (n : Z) (l : list (Z * Z)) :
  length (filter (λ p, p.2 = n) l) = length (filter (λ v, v = n) l.*2).
Proof.
  induction l as [|[r v] l IH]; [done|]. simpl.
  rewrite !filter_cons. simpl. destruct (decide (v = n)); simpl; by rewrite IH.
Qed.

Lemma ranks_with_length (n : Z) rc (sig : list Z) :
  sorted_desc (map_to_list rc).*2 = sig →
  length (ranks_with n rc) = length (filter (λ v, v = n) sig).
Proof.
  intros <-. unfold ranks_with. rewrite length_fmap, filter_snd_length.
  apply Permutation_length. by rewrite sorted_desc_Permutation.
Qed.

Lemma find_straight_elem (us : list Z) (h : Z) :
  find_straight us = Some h → h ∈ us.
Proof.
  unfold find_straight. destruct us as [|a [|b [|c [|d [|e [|??]]]]]]; try done.
  case_bool_decide as Hw.
  - intros [= <-]. rewrite Hw. set_solver.
  - destruct (a - e =? 4); [|done]. intros [= <-]. left.
Qed.

Lemma elem_of_sorted_desc xs (x : Z) : x ∈ sorted_desc xs ↔ x ∈ xs.
Proof. by rewrite sorted_desc_Permutation. Qed.

Lemma length_sorted_desc xs : length (sorted_desc xs) = length xs.
Proof. by rewrite sorted_desc_Permutation. Qed.

Lemma Forall_sorted_desc (P : Z → Prop) xs : Forall P xs → Forall P (sorted_desc xs).
Proof. by rewrite sorted_desc_Permutation. Qed.

Lemma ranks_with_Forall (n : Z) xs : Forall (λ r, r ∈ xs) (ranks_with n (Counter xs)).
Proof. apply Forall_forall. intros r. apply ranks_with_subset. Qed.

(** The value of five cards has the tiebreaker length of its category,
    and every entry of the tiebreaker is the rank of one of the cards. *)
Lemma evaluate_5cards_shape (cards : list Card) (hv : HandValue) :
  evaluate_5cards cards = Ok hv →
  length (tiebreaker hv) = tiebreaker_arity (category hv)
  ∧ Forall (λ r, r ∈ ranks_of cards) (tiebreaker hv).
Proof.
  unfold evaluate_5cards.
  destruct (Nat.eqb_spec (length cards) 5) as [Hlen|]; [simpl|done].
  fold (ranks_of cards).
  assert (length (ranks_of cards) = 5%nat) as Hrl.
  { unfold ranks_of. by rewrite length_fmap. }
  set (rc := Counter (ranks_of cards)).
  pose proof (ranks_with_Forall 1 (ranks_of cards)) as Hin1.
  pose proof (ranks_with_Forall 2 (ranks_of cards)) as Hin2.
  pose proof (ranks_with_Forall 3 (ranks_of cards)) as Hin3.
  pose proof (ranks_with_Forall 4 (ranks_of cards)) as Hin4.
  fold rc in Hin1, Hin2, Hin3, Hin4.
  assert (∀ h, find_straight
                 (sorted_desc (elements (list_to_set (ranks_of cards) : gset Z)))
               = Some h → h ∈ ranks_of cards) as Hstraight.
  { intros h Hh%find_straight_elem.
    apply elem_of_sorted_desc, elem_of_elements in Hh.
    by apply elem_of_list_to_set in Hh. }
  assert (∀ n x, py_max Z.gtb (ranks_with n rc) = Ok x → x ∈ ranks_of cards)
    as Hmax.
  { intros n x Hx%py_max_elem. by apply ranks_with_subset in Hx. }
  assert (Forall (λ r, r ∈ ranks_of cards) (sorted_desc (ranks_of cards))) as Hall.
  { apply Forall_sorted_desc, Forall_forall. auto. }
  destruct (bool_decide (size _ = 1%nat));
    destruct (find_straight _) as [h|] eqn:Hfs;
    try (intros [= <-]; simpl; split; [done|]; repeat constructor; auto; fail);
    repeat case_bool_decide;
    repeat match goal with
    | |- context [py_max Z.gtb (ranks_with ?n rc)] =>
        let E := fresh "E" in
        destruct (py_max Z.gtb (ranks_with n rc)) eqn:E; simpl; [|done]
    end;
    intros [= <-]; simpl;
    repeat match goal with
    | H : sorted_desc _ = _ |- _ =>
        pose proof (ranks_with_length 1 rc _ H);
        pose proof (ranks_with_length 2 rc _ H);
        clear H
    end;
    rewrite ?length_app, ?length_sorted_desc; simpl in *;
    (split; [lia|]);
    rewrite ?Forall_app; repeat constructor;
    eauto using Forall_sorted_desc.
Qed.
End shape.

Lemma Rank_value_range (r : Rank) : 2 ≤ Rank_value r ≤ 14.
Proof. destruct r; simpl; lia. Qed.

Lemma ranks_of_range (cards : list Card) (r : Z) :
  r ∈ ranks_of cards → 2 ≤ r ≤ 14.
Proof.
  unfold ranks_of. intros (c & -> & _)%list_elem_of_fmap.
  apply Rank_value_range.
Qed.

(** X11.  The value returned by [evaluate_best] has a tiebreaker of the
    length of its category (1 for the straights, 2 for four of a kind and
    full house, 3 for three of a kind and two pair, 4 for one pair, 5 for
    flush and high card), and every entry of the tiebreaker is the rank
    of one of the cards given, so between 2 and 14. *)
Theorem hand_value_shape (cards : list Card) (hv : HandValue) :
  evaluate_best cards = Ok hv →
  length (tiebreaker hv) = tiebreaker_arity (category hv)
  ∧ Forall (λ r, r ∈ ranks_of cards) (tiebreaker hv)
  ∧ Forall (λ r, 2 ≤ r ≤ 14) (tiebreaker hv).
Proof.
  intros (combo & Hsub & _ & Hval)%evaluate_best_attained.
  destruct (evaluate_5cards_shape _ _ Hval) as [Hlen Hin].
  assert (Forall (λ r, r ∈ ranks_of cards) (tiebreaker hv)) as Hin'.
  { eapply Forall_impl; [exact Hin|]. intros r Hr. simpl in Hr.
    unfold ranks_of in *. apply list_elem_of_fmap in Hr as (c & -> & Hc).
    apply (list_elem_of_fmap_2 (λ c, Rank_value (rank c))).
    eapply elem_of_submseteq; [exact Hc|by apply sublist_submseteq]. }
  split_and!; [done|done|].
  eapply Forall_impl; [exact Hin'|]. intros r. apply ranks_of_range.
Qed.

Lemma hand_value_shape_witness :
  let hv := mkHandValue FULL_HOUSE [13; 14] in
  length (tiebreaker hv) = tiebreaker_arity (category hv)
  ∧ Forall (λ r, r ∈ ranks_of
       [mkCard ACE SPADES; mkCard KING DIAMONDS; mkCard ACE HEARTS;
        mkCard KING HEARTS; mkCard KING CLUBS; mkCard TWO SPADES;
        mkCard THREE DIAMONDS]) (tiebreaker hv)
  ∧ Forall (λ r, 2 ≤ r ≤ 14) (tiebreaker hv).
Proof. apply hand_value_shape. by vm_compute. Defined.

Lemma rank_word_ok (r : Z) : 2 ≤ r ≤ 14 → ∃ w, rank_word r = Described w.
Proof.
  intros Hr.
  assert (r = 2 ∨ r = 3 ∨ r = 4 ∨ r = 5 ∨ r = 6 ∨ r = 7 ∨ r = 8 ∨ r = 9
          ∨ r = 10 ∨ r = 11 ∨ r = 12 ∨ r = 13 ∨ r = 14) as H by lia.
  repeat (destruct H as [->|H]; [simpl; eauto|]). subst. simpl. eauto.
Qed.

Lemma rank_word_plural_ok (r : Z) :
  2 ≤ r ≤ 14 → ∃ w, rank_word_plural r = Described w.
Proof.
  intros Hr.
  assert (r = 2 ∨ r = 3 ∨ r = 4 ∨ r = 5 ∨ r = 6 ∨ r = 7 ∨ r = 8 ∨ r = 9
          ∨ r = 10 ∨ r = 11 ∨ r = 12 ∨ r = 13 ∨ r = 14) as H by lia.
  repeat (destruct H as [->|H]; [simpl; eauto|]). subst. simpl. eauto.
Qed.

Lemma rank_words_ok (rs : list Z) :
  Forall (λ r, 2 ≤ r ≤ 14) rs → ∃ ws, rank_words rs = Described ws.
Proof.
  induction 1 as [|r rs Hr _ [ws IH]]; [simpl; eauto|].
  destruct (rank_word_ok r Hr) as [w Hw].
  simpl. rewrite Hw. simpl. rewrite IH. simpl. eauto.
Qed.

(** A value of the right shape has a description. *)
Lemma describe_hand_value_ok (hv : HandValue) :
  length (tiebreaker hv) = tiebreaker_arity (category hv) →
  Forall (λ r, 2 ≤ r ≤ 14) (tiebreaker hv) →
  ∃ text, describe_hand_value hv = Described text.
Proof.
  destruct hv as [cat tb]. simpl. intros Hlen Hall.
  unfold describe_hand_value. simpl.
  destruct (rank_words_ok tb Hall) as [ws Hws].
  destruct cat; simpl in Hlen;
    destruct tb as [|a [|b [|c [|d [|e [|??]]]]]]; try done;
    repeat match goal with
    | H : Forall _ (_ :: _) |- _ => apply Forall_cons in H as [? H]
    end;
    repeat match goal with
    | |- context [rank_words ?l] =>
        let E := fresh in
        destruct (rank_words_ok l) as [? E];
          [repeat (apply Forall_cons_2; [done|]); apply Forall_nil_2|];
        rewrite E; simpl
    | |- context [rank_word_plural ?r] =>
        let E := fresh in
        destruct (rank_word_plural_ok r) as [? E]; [done|]; rewrite E; simpl
    | |- context [rank_word ?r] =>
        let E := fresh in
        destruct (rank_word_ok r) as [? E]; [done|]; rewrite E; simpl
    | |- context [Z.eqb ?x ?y] => destruct (Z.eqb x y)
    end; eauto.
Qed.

(** A hand of five cards or more has a description. *)
Lemma describe_best_hand_ok (cards : list Card) :
  (5 ≤ length cards)%nat → ∃ text, describe_best_hand cards = Described text.
Proof.
  intros Hlen. unfold describe_best_hand.
  destruct (evaluate_best_ok _ Hlen) as [hv Hhv]. rewrite Hhv.
  destruct (evaluate_best_attained _ _ Hhv) as (combo & Hsub & _ & Hval).
  destruct (evaluate_5cards_shape _ _ Hval) as [Hl Hin].
  apply describe_hand_value_ok; [done|].
  eapply Forall_impl; [exact Hin|]. intros r. apply ranks_of_range.
Qed.

(** X12.  [describe_best_hand] returns a description for every hand of
    five cards or more: no rank is missing from the two dictionaries and
    no tiebreaker has the wrong length for its category.  On fewer than
    five cards it raises what [evaluate_best] raises. *)
Theorem describe_best_hand_returns (cards : list Card) :
  ((5 ≤ length cards)%nat → ∃ text, describe_best_hand cards = Described text)
  ∧ ((length cards < 5)%nat →
       describe_best_hand cards = NotDescribed (Evaluation TooFewCards)).
Proof.
  split; [apply describe_best_hand_ok|].
  intros Hlt. unfold describe_best_hand. by rewrite (evaluate_best_too_few _ Hlt).
Qed.

(** Two hands and their descriptions. *)
Example describe_best_hand_examples :
  describe_best_hand [mkCard ACE CLUBS; mkCard ACE DIAMONDS; mkCard KING CLUBS;
                      mkCard KING SPADES; mkCard ACE HEARTS]
  = Described "Full house, Aces over Kings"%string
  ∧ describe_best_hand [mkCard ACE SPADES; mkCard KING DIAMONDS; mkCard ACE HEARTS;
                        mkCard KING HEARTS; mkCard KING CLUBS; mkCard TWO SPADES;
                        mkCard THREE DIAMONDS]
    = Described "Full house, Kings over Aces"%string
  ∧ describe_best_hand (wheel_of HEARTS)
    = Described "Five-high straight flush"%string
  ∧ describe_best_hand [mkCard ACE CLUBS; mkCard TWO CLUBS; mkCard TEN CLUBS;
                        mkCard FOUR CLUBS; mkCard FIVE HEARTS]
    = Described "Ace-high (Ace, Ten, Five, Four, Two)"%string.
Proof. split_and!; by vm_compute. Qed.

(* ================================================================== *)
(** * More on winner resolution                                        *)
(* ================================================================== *)

Lemma validate_unique_cards_inv (hole_hands : list (list Card)) (board : list Card) :
  validate_unique_cards hole_hands board = Ok tt →
  NoDup (mjoin hole_hands ++ board).
Proof.
  intros Hok. destruct (decide (NoDup (mjoin hole_hands ++ board))) as [|Hdup]; [done|].
  destruct (validate_unique_cards_duplicate _ _ Hdup)
    as (? & ? & ? & ? & ? & _ & _ & _ & Herr).
  congruence.
Qed.

(** X13.  [validate_unique_cards] returns exactly when no card stands
    twice among the hole cards and the board; when it raises, it raises
    [DuplicateCard] for a card that stands at the two places it names,
    the second of them met earlier in the scan. *)
Theorem validate_unique_cards_iff (hole_hands : list (list Card)) (board : list Card) :
  (validate_unique_cards hole_hands board = Ok tt
   ↔ NoDup (mjoin hole_hands ++ board))
  ∧ (∀ e, validate_unique_cards hole_hands board = Err e →
       ∃ card origin prev_origin,
         e = DuplicateCard card origin prev_origin
         ∧ stands_at hole_hands board origin card
         ∧ stands_at hole_hands board prev_origin card).
Proof.
  split.
  - split; [apply validate_unique_cards_inv|apply validate_unique_cards_ok].
  - intros e He.
    destruct (decide (NoDup (mjoin hole_hands ++ board))) as [Hnd|Hdup].
    { rewrite (validate_unique_cards_ok _ _ Hnd) in He. done. }
    destruct (validate_unique_cards_duplicate _ _ Hdup)
      as (l1 & origin & card & l2 & prev & Hl & _ & Hin & Herr).
    exists card, origin, prev. split; [congruence|]. split.
    + apply (labeled_cards_origin hole_hands board origin card).
      rewrite Hl. apply elem_of_app. right. left.
    + apply (labeled_cards_origin hole_hands board prev card).
      rewrite Hl. apply elem_of_app. by left.
Qed.

Lemma check_hole_sizes_inv (i0 : nat) (hole_hands : list (list Card)) :
  check_hole_sizes i0 hole_hands = Ok tt →
  Forall (λ hole, (2 ≤ length hole)%nat) hole_hands.
Proof.
  revert i0. induction hole_hands as [|hole rest IH]; intros i0; simpl.
  { constructor. }
  destruct (Nat.ltb_spec (length hole) 2); [done|].
  intros H'. constructor; [done|]. by apply (IH (S i0)).
Qed.

Lemma mapR_length {A B} (f : A → result B) (l : list A) (l' : list B) :
  mapR f l = Ok l' → length l' = length l.
Proof.
  revert l'. induction l as [|x l IH]; intros l'; simpl.
  { by intros [= <-]. }
  destruct (f x); [|done]. simpl.
  destruct (mapR f l) as [ys|]; [|done]. simpl.
  intros [= <-]. simpl. f_equal. by apply IH.
Qed.

Lemma mapR_ext {A B} (f g : A → result B) (l l' : list A) :
  Forall2 (λ x y, f x = g y) l l' → mapR f l = mapR g l'.
Proof.
  induction 1 as [|x y l l' Hxy _ IH]; [done|]. simpl. by rewrite Hxy, IH.
Qed.

(** What a returning [determine_winners] went through. *)
Lemma determine_winners_inv (hole_hands : list (list Card)) (board : list Card)
    (winners : list nat) (hand_values : list HandValue) :
  determine_winners hole_hands board = Ok (winners, hand_values) →
  hole_hands ≠ []
  ∧ NoDup (mjoin hole_hands ++ board)
  ∧ Forall (λ hole, (2 ≤ length hole)%nat) hole_hands
  ∧ mapR (λ hole, evaluate_best (hole ++ board)) hole_hands = Ok hand_values
  ∧ ∃ best, py_max HandValue_gt hand_values = Ok best
            ∧ winners = indices_equal_to best hand_values.
Proof.
  intros Hdw.
  assert (hole_hands ≠ []) as Hne by (by intros ->).
  rewrite (determine_winners_players _ _ Hne) in Hdw.
  destruct (validate_unique_cards hole_hands board) as [[]|] eqn:Hv; [|done].
  destruct (check_hole_sizes 0 hole_hands) as [[]|] eqn:Hc; [|done].
  simpl in Hdw.
  destruct (mapR _ hole_hands) as [hvs|] eqn:Hm; [|done]. simpl in Hdw.
  destruct (py_max HandValue_gt hvs) as [best|] eqn:Hb; [|done]. simpl in Hdw.
  injection Hdw as <- <-.
  split_and!; [done|by apply validate_unique_cards_inv
              |by apply (check_hole_sizes_inv 0)|done|eauto].
Qed.

(** The indices kept by the comprehension go up. *)
Lemma indices_from_sorted (P : nat * HandValue → Prop) `{!∀ p, Decision (P p)}
    (k : nat) (hand_values : list HandValue) :
  StronglySorted lt (filter P (imap (λ i hv, (k + i, hv)%nat) hand_values)).*1
  ∧ Forall (λ i, k ≤ i)%nat
      (filter P (imap (λ i hv, (k + i, hv)%nat) hand_values)).*1.
Proof.
  revert k. induction hand_values as [|hv rest IH]; intros k; simpl.
  { split; constructor. }
  destruct (IH (S k)) as [Hs Hge].
  rewrite (imap_ext _ (λ i hv, (S k + i, hv)%nat)) by (intros; simpl; f_equal; lia).
  rewrite filter_cons. destruct (decide (P _)); simpl.
  - split.
    + constructor; [done|]. eapply Forall_impl; [exact Hge|]. simpl. lia.
    + constructor; [lia|]. eapply Forall_impl; [exact Hge|]. simpl. lia.
  - split; [done|]. eapply Forall_impl; [exact Hge|]. simpl. lia.
Qed.

Lemma indices_equal_to_sorted (best : HandValue) (hand_values : list HandValue) :
  StronglySorted lt (indices_equal_to best hand_values).
Proof.
  apply (indices_from_sorted (λ p, p.2 = best) 0 hand_values).
Qed.

Lemma determine_winners_facts (hole_hands : list (list Card)) (board : list Card)
    (winners : list nat) (hand_values : list HandValue) :
  determine_winners hole_hands board = Ok (winners, hand_values) →
  length hand_values = length hole_hands
  ∧ winners ≠ []
  ∧ StronglySorted lt winners
  ∧ (∀ i, i ∈ winners → (i < length hole_hands)%nat)
  ∧ ∃ best,
      (∀ i, i ∈ winners ↔ hand_values !! i = Some best)
      ∧ (∀ j hv, hand_values !! j = Some hv → j ∉ winners →
           HandValue_lt hv best = true).
Proof.
  intros (Hne & Hnd & H2 & Hm & best & Hb & ->)%determine_winners_inv.
  pose proof (mapR_length _ _ _ Hm) as Hlen.
  destruct (py_max_hand_values hand_values) as (best' & Hb' & Hin & Hmax).
  { intros ->. simpl in Hlen. destruct hole_hands; done. }
  assert (best' = best) as -> by congruence.
  split_and!; [done| |apply indices_equal_to_sorted| |].
  - apply list_elem_of_lookup in Hin as [i Hi].
    apply elem_of_indices_equal_to in Hi. intros Hnil. rewrite Hnil in Hi.
    by apply elem_of_nil in Hi.
  - intros i Hi%elem_of_indices_equal_to. rewrite <- Hlen.
    by apply lookup_lt_Some in Hi.
  - exists best. split; [intros i; apply elem_of_indices_equal_to|].
    intros j hv Hj Hnw.
    assert (HandValue_le hv best = true) as Hle.
    { apply Hmax. by apply list_elem_of_lookup_2 in Hj. }
    unfold HandValue_lt. unfold HandValue_le in Hle.
    destruct (HandValue_compare hv best) eqn:Hcmp; try done.
    apply HandValue_compare_eq in Hcmp as ->.
    exfalso. apply Hnw. by apply elem_of_indices_equal_to.
Qed.

(** X14.  When [determine_winners] returns, there is a hand value for
    every player, the list of winners is not empty, goes up strictly and
    holds positions of players only; the winners all have the same value,
    and every other player has a value strictly below it. *)
Theorem determine_winners_result (hole_hands : list (list Card)) (board : list Card)
    (winners : list nat) (hand_values : list HandValue) :
  determine_winners hole_hands board = Ok (winners, hand_values) →
  length hand_values = length hole_hands
  ∧ winners ≠ []
  ∧ StronglySorted lt winners
  ∧ (∀ i, i ∈ winners → (i < length hole_hands)%nat)
  ∧ ∃ best,
      (∀ i, i ∈ winners ↔ hand_values !! i = Some best)
      ∧ (∀ j hv, hand_values !! j = Some hv → j ∉ winners →
           HandValue_lt hv best = true).
Proof. apply determine_winners_facts. Qed.

Lemma determine_winners_result_witness :
  let hole_hands := [[mkCard ACE SPADES; mkCard ACE HEARTS];
                     [mkCard KING SPADES; mkCard KING HEARTS]] in
  let hand_values := [mkHandValue TWO_PAIR [14; 12; 4];
                      mkHandValue TWO_PAIR [13; 12; 4]] in
  let winners := [0%nat] in
  length hand_values = length hole_hands
  ∧ winners ≠ []
  ∧ StronglySorted lt winners
  ∧ (∀ i, i ∈ winners → (i < length hole_hands)%nat)
  ∧ ∃ best,
      (∀ i, i ∈ winners ↔ hand_values !! i = Some best)
      ∧ (∀ j hv, hand_values !! j = Some hv → j ∉ winners →
           HandValue_lt hv best = true).
Proof.
  apply (determine_winners_result _
    [mkCard QUEEN SPADES; mkCard QUEEN HEARTS; mkCard TWO CLUBS;
     mkCard THREE DIAMONDS; mkCard FOUR HEARTS]).
  by vm_compute.
Defined.

Lemma join_Forall2_perm (ls ls' : list (list Card)) :
  Forall2 (≡ₚ) ls ls' → mjoin ls ≡ₚ mjoin ls'.
Proof.
  induction 1 as [|l l' ls ls' Hl _ IH]; [done|]. simpl. by rewrite Hl, IH.
Qed.

(** X15.  The order in which the cards of the board and of each player
    are given does not matter to [determine_winners]: when it returns,
    it returns the same winners and the same values on the same cards in
    another order. *)
Theorem determine_winners_order_free
    (hole_hands hole_hands' : list (list Card)) (board board' : list Card)
    (winners : list nat) (hand_values : list HandValue) :
  Forall2 (≡ₚ) hole_hands hole_hands' → board ≡ₚ board' →
  determine_winners hole_hands board = Ok (winners, hand_values) →
  determine_winners hole_hands' board' = Ok (winners, hand_values).
Proof.
  intros Hh Hb (Hne & Hnd & H2 & Hm & best & Hbest & ->)%determine_winners_inv.
  assert (hole_hands' ≠ []) as Hne'.
  { intros ->. apply Forall2_nil_inv_r in Hh. done. }
  rewrite (determine_winners_players _ _ Hne').
  rewrite validate_unique_cards_ok; simpl.
  2:{ by rewrite <- (join_Forall2_perm _ _ Hh), <- Hb. }
  rewrite check_hole_sizes_ok; simpl.
  2:{ clear -Hh H2. induction Hh as [|l l' ls ls' Hl _ IH]; [constructor|].
      apply Forall_cons in H2 as [? ?]. constructor; [|auto].
      by rewrite <- (Permutation_length Hl). }
  rewrite <- (mapR_ext (λ hole, evaluate_best (hole ++ board)) _ hole_hands).
  2:{ eapply Forall2_impl; [exact Hh|]. intros l l' Hl. simpl.
      apply evaluate_best_perm. by rewrite Hl, Hb. }
  rewrite Hm. simpl. by rewrite Hbest.
Qed.

Lemma determine_winners_order_free_witness :
  determine_winners
    [[mkCard ACE HEARTS; mkCard ACE SPADES];
     [mkCard KING SPADES; mkCard KING HEARTS]]
    [mkCard FOUR HEARTS; mkCard QUEEN HEARTS; mkCard TWO CLUBS;
     mkCard THREE DIAMONDS; mkCard QUEEN SPADES]
  = Ok ([0%nat], [mkHandValue TWO_PAIR [14; 12; 4];
                  mkHandValue TWO_PAIR [13; 12; 4]]).
Proof.
  apply (determine_winners_order_free
    [[mkCard ACE SPADES; mkCard ACE HEARTS];
     [mkCard KING SPADES; mkCard KING HEARTS]] _
    [mkCard QUEEN SPADES; mkCard QUEEN HEARTS; mkCard TWO CLUBS;
     mkCard THREE DIAMONDS; mkCard FOUR HEARTS]).
  - repeat constructor.
  - apply (bool_decide_unpack _). by vm_compute.
  - by vm_compute.
Defined.

(* ================================================================== *)
(** * More on the equity simulators                                    *)
(* ================================================================== *)

(** X16.  The reduced deck holds exactly the cards that are not used, each
    once, in the order of the full deck; with the used cards all
    different it has 52 cards less their number. *)
Theorem build_reduced_deck_spec (used_cards : list Card) :
  NoDup (build_reduced_deck used_cards)
  ∧ (∀ c, c ∈ build_reduced_deck used_cards ↔ c ∉ used_cards)
  ∧ build_reduced_deck used_cards `sublist_of` Deck_init None
  ∧ (NoDup used_cards →
       (length used_cards + length (build_reduced_deck used_cards) = 52)%nat).
Proof.
  change (build_reduced_deck used_cards) with (remaining_of used_cards).
  split_and!.
  - apply remaining_NoDup.
  - apply elem_of_remaining.
  - apply sublist_filter.
  - apply remaining_length.
Qed.

Section equity_edges.
Context {RNG : Type}.
Variable random_shuffle : list Card → RNG → list Card * RNG.
Implicit Types (hole_hands : list (list Card)) (board : list Card) (g : RNG).

(** [simulate_equity] past its tests, on an incomplete board. *)
Lemma simulate_equity_sampling hole_hands board (num_samples : Z) g :
  hole_hands ≠ [] → (length board < 5)%nat →
  Forall (λ hole, (2 ≤ length hole)%nat) hole_hands →
  simulate_equity random_shuffle hole_hands board num_samples g
  = (counts ← loopM (Z.to_nat num_samples)
       (equity_trial random_shuffle hole_hands board (mjoin hole_hands ++ board)
          (5 - Z.of_nat (length board)))
       (replicate (length hole_hands) 0, replicate (length hole_hands) 0);
     win_probs ← lift (mapR (λ w, true_div w num_samples) counts.1);
     tie_probs ← lift (mapR (λ t, true_div t num_samples) counts.2);
     mret (win_probs, tie_probs)) g.
Proof.
  intros Hne Hlen H2. unfold simulate_equity.
  destruct hole_hands as [|h0 rest] eqn:E; [done|]. rewrite <- E in *.
  destruct (Nat.ltb_spec 5 (length board)); [lia|].
  unfold mbind at 1, M_bind, lift at 1.
  rewrite (check_hole_sizes_ok _ _ H2).
  destruct (Nat.eqb_spec (length board) 5); [lia|].
  by destruct (Z.ltb_spec (5 - Z.of_nat (length board)) 0); [lia|].
Qed.

Lemma mapR_true_div_zero (counts : list Z) :
  counts ≠ [] → mapR (λ w, true_div w 0) counts = Err ZeroDivision.
Proof. by destruct counts. Qed.

(** X17.  [simulate_equity] tests its arguments before it touches the
    generator, in this order: no player raises [NoPlayers], a board of
    more than five cards raises [BoardSizeOutOfRange], a player with
    fewer than two hole cards raises [TooFewHoleCards] for the first such
    player; the generator is left as it was and the number of samples
    plays no part.  Past these tests, on an incomplete board, zero
    samples raise [ZeroDivision], whatever the cards are. *)
Theorem simulate_equity_rejects hole_hands board (num_samples : Z) g :
  (hole_hands = [] →
     simulate_equity random_shuffle hole_hands board num_samples g
     = (Err NoPlayers, g))
  ∧ (hole_hands ≠ [] → (5 < length board)%nat →
     simulate_equity random_shuffle hole_hands board num_samples g
     = (Err BoardSizeOutOfRange, g))
  ∧ (∀ i hole, hole_hands !! i = Some hole → (length hole < 2)%nat →
       (∀ j h, (j < i)%nat → hole_hands !! j = Some h → (2 ≤ length h)%nat) →
       (length board ≤ 5)%nat →
       simulate_equity random_shuffle hole_hands board num_samples g
       = (Err (TooFewHoleCards i), g))
  ∧ (hole_hands ≠ [] → (length board < 5)%nat →
     Forall (λ hole, (2 ≤ length hole)%nat) hole_hands →
     simulate_equity random_shuffle hole_hands board 0 g
     = (Err ZeroDivision, g)).
Proof.
  split_and!.
  - by intros ->.
  - intros Hne Hlen. unfold simulate_equity.
    destruct hole_hands; [done|].
    by destruct (Nat.ltb_spec 5 (length board)); [|lia].
  - intros i hole Hi Hshort Hbefore Hlen. unfold simulate_equity.
    destruct hole_hands as [|h0 rest] eqn:E; [done|]. rewrite <- E in *.
    destruct (Nat.ltb_spec 5 (length board)); [lia|].
    unfold mbind at 1, M_bind, lift at 1.
    by rewrite (check_hole_sizes_short 0 hole_hands i hole).
  - intros Hne Hlen H2. rewrite simulate_equity_sampling by done.
    simpl. unfold mbind at 1, M_bind, lift at 1. unfold mret, M_ret. simpl.
    rewrite mapR_true_div_zero; [done|].
    destruct hole_hands; done.
Qed.
End equity_edges.


Lemma M_bind_eq {S A B} (f : A → M S B) (m : M S A) (s : S) :
  (m ≫= f) s
  = match m s with
    | (Ok a, s') => f a s'
    | (Err e, s') => (Err e, s')
    end.
Proof. done. Qed.





(* ================================================================== *)
(** * Dealing a new hand                                               *)
(* ================================================================== *)

(** A new hand: two cards for the hero, the 50 others in the deck. *)
Lemma deal_new_hand_ok {RNG}
    (random_shuffle : list Card → RNG → list Card * RNG)
    (num_opponents : Z) (g : RNG) :
  (∀ cards g, (random_shuffle cards g).1 ≡ₚ cards) →
  ∃ deck hero g',
    deal_new_hand random_shuffle num_opponents g = (Ok (deck, hero, []), g')
    ∧ length hero = 2%nat ∧ length deck = 50%nat
    ∧ NoDup (hero ++ deck)
    ∧ hero ++ deck ≡ₚ Deck_init None
    ∧ ∀ c : Card, c ∈ hero ∨ c ∈ deck.
Proof.
  intros Hperm. unfold deal_new_hand, new_deck.
  unfold mbind at 1, M_bind, Deck_shuffle.
  pose proof (Hperm (Deck_init None) g) as Hp.
  destruct (random_shuffle (Deck_init None) g) as [shuffled g']. simpl in Hp.
  assert (length shuffled = 52%nat) as Hlen.
  { rewrite (Permutation_length Hp). apply full_deck_length. }
  rewrite (Deck_draw_many_ok_Z 2) by lia.
  change (Z.to_nat 2) with 2%nat. rewrite Hlen.
  unfold mbind at 1, M_bind, lift at 1. unfold mret, M_ret.
  eexists _, _, _. split; [done|].
  assert (reverse (drop 50 shuffled) ++ take 50 shuffled ≡ₚ Deck_init None) as Hall.
  { rewrite reverse_Permutation, Permutation_app_comm, take_drop. done. }
  rewrite length_reverse, length_drop, length_take, Hlen.
  split_and!; [done|done| | |].
  - rewrite Hall. apply full_deck_NoDup.
  - done.
  - intros c. apply elem_of_app. rewrite Hall. apply full_deck_complete.
Qed.

(** X19.  With a shuffle that permutes the deck, [deal_new_hand] returns an
    empty board, two different cards for the hero and a deck of the 50
    other cards: the hero's cards and the deck together are the 52 cards,
    each once. *)
Theorem deal_new_hand_spec {RNG}
    (random_shuffle : list Card → RNG → list Card * RNG)
    (num_opponents : Z) (g : RNG) :
  (∀ cards g, (random_shuffle cards g).1 ≡ₚ cards) →
  ∃ deck hero g',
    deal_new_hand random_shuffle num_opponents g = (Ok (deck, hero, []), g')
    ∧ length hero = 2%nat ∧ length deck = 50%nat
    ∧ NoDup (hero ++ deck)
    ∧ hero ++ deck ≡ₚ Deck_init None
    ∧ ∀ c : Card, c ∈ hero ∨ c ∈ deck.
Proof. by apply deal_new_hand_ok. Qed.

Lemma deal_new_hand_spec_witness :
  ∃ deck hero g',
    deal_new_hand (λ cards (g : unit), (reverse cards, g)) 3 tt
    = (Ok (deck, hero, []), g')
    ∧ length hero = 2%nat ∧ length deck = 50%nat
    ∧ NoDup (hero ++ deck)
    ∧ hero ++ deck ≡ₚ Deck_init None
    ∧ ∀ c : Card, c ∈ hero ∨ c ∈ deck.
Proof.
  apply (deal_new_hand_spec (λ cards (g : unit), (reverse cards, g)) 3 tt).
  intros cards g. simpl. apply reverse_Permutation.
Defined.

(* ================================================================== *)
(** * The sampling loop of [simulate_equity]                           *)
(* ================================================================== *)

Lemma list_incr_ok (counts : list Z) (i : nat) (v : Z) :
  counts !! i = Some v → list_incr counts i = Ok (<[i := v + 1]> counts).
Proof. intros H. unfold list_incr. by rewrite H. Qed.

(** Adding one at the positions [ws], all different, of a list of
    counters. *)
Lemma incr_each (ws : list nat) (counts : list Z) :
  NoDup ws → (∀ w, w ∈ ws → (w < length counts)%nat) →
  ∃ counts',
    foldlM list_incr counts ws = Ok counts'
    ∧ length counts' = length counts
    ∧ (∀ i v, i ∈ ws → counts !! i = Some v → counts' !! i = Some (v + 1))
    ∧ (∀ i, i ∉ ws → counts' !! i = counts !! i).
Proof.
  revert counts. induction ws as [|w ws IH]; intros counts Hnd Hlt.
  { exists counts. split_and!; [done|done| |done]. by intros i v []%elem_of_nil. }
  apply NoDup_cons in Hnd as [Hw Hnd].
  destruct (lookup_lt_is_Some_2 counts w) as [v Hv]; [apply Hlt; left|].
  cbn [foldlM]. rewrite (list_incr_ok _ _ _ Hv). simpl.
  destruct (IH (<[w := v + 1]> counts) Hnd) as (counts' & -> & Hlen & Hin & Hout).
  { intros w' Hw'. rewrite length_insert. apply Hlt. by right. }
  exists counts'. rewrite length_insert in Hlen. split_and!; [done|done| |].
  - intros i u Hi Hu. apply elem_of_cons in Hi as [->|Hi].
    + rewrite (Hout _ Hw). assert (u = v) as -> by congruence.
      apply list_lookup_insert_eq. by apply lookup_lt_Some in Hv.
    + apply Hin; [done|]. rewrite list_lookup_insert_ne; [done|].
      intros ->. done.
  - intros i Hi. apply not_elem_of_cons in Hi as [Hne Hni].
    rewrite (Hout _ Hni). by apply list_lookup_insert_ne.
Qed.

(** One trial adds one to the win counter of a single winner, or one to
    the tie counter of each of several winners, and to nothing else. *)
Lemma record_winners_step (winners : list nat) (wc tc : list Z) :
  winners ≠ [] → NoDup winners →
  (∀ w, w ∈ winners → (w < length wc)%nat) → length tc = length wc →
  ∃ wc' tc',
    record_winners winners (wc, tc) = Ok (wc', tc')
    ∧ length wc' = length wc ∧ length tc' = length tc
    ∧ ∀ i w t, wc !! i = Some w → tc !! i = Some t →
        (wc' !! i = Some (w + 1) ∧ tc' !! i = Some t ∧ winners = [i])
        ∨ (wc' !! i = Some w ∧ tc' !! i = Some (t + 1)
           ∧ (1 < length winners)%nat ∧ i ∈ winners)
        ∨ (wc' !! i = Some w ∧ tc' !! i = Some t ∧ i ∉ winners).
Proof.
  intros Hne Hnd Hlt Hlen. unfold record_winners. case_bool_decide as Hone.
  - destruct winners as [|w0 [|??]]; try done.
    destruct (lookup_lt_is_Some_2 wc w0) as [v Hv]; [apply Hlt; left|].
    rewrite (list_incr_ok _ _ _ Hv). simpl.
    eexists _, _. split; [done|]. rewrite length_insert.
    split_and!; [done|done|].
    intros i w t Hw Ht. destruct (decide (i = w0)) as [->|Hi].
    + left. assert (w = v) as -> by congruence.
      split_and!; [|done|done].
      apply list_lookup_insert_eq. by apply lookup_lt_Some in Hv.
    + right. right. split_and!; [|done|].
      * by rewrite list_lookup_insert_ne.
      * by intros ->%list_elem_of_singleton.
  - destruct (incr_each winners tc Hnd) as (tc' & -> & Hlen' & Hin & Hout).
    { intros w Hw. rewrite Hlen. by apply Hlt. }
    simpl. eexists _, _. split; [done|]. split_and!; [done|done|].
    intros i w t Hw Ht. destruct (decide (i ∈ winners)) as [Hi|Hi].
    + right. left. split_and!; [done|by apply Hin| |done].
      destruct winners as [|? [|??]]; simpl in *; try done; lia.
    + right. right. split_and!; [done| |done]. by rewrite (Hout _ Hi).
Qed.

Lemma mapR_true_div (n : Z) (counts : list Z) :
  n ≠ 0 →
  mapR (λ w, true_div w n) counts
  = Ok ((λ w, inject_Z w / inject_Z n)%Q <$> counts).
Proof.
  intros Hn. induction counts as [|w counts IH]; [done|].
  cbn [mapR]. rewrite IH. unfold true_div.
  by destruct (Z.eqb_spec n 0).
Qed.

Section sampling.
Context {RNG : Type}.
Variable random_shuffle : list Card → RNG → list Card * RNG.
Hypothesis shuffle_Permutation :
  ∀ cards g, (random_shuffle cards g).1 ≡ₚ cards.

Implicit Types (hole_hands : list (list Card)) (board : list Card) (g : RNG).

#[local] Arguments determine_winners : simpl never.

(** A trial on valid input ends by recording the winners of a showdown
    on a board of five cards. *)
Lemma equity_trial_ok hole_hands board (counts : list Z * list Z) g :
  hole_hands ≠ [] → (length board < 5)%nat →
  Forall (λ hole, (2 ≤ length hole)%nat) hole_hands →
  NoDup (mjoin hole_hands ++ board) →
  (length (mjoin hole_hands) + 5 ≤ 52)%nat →
  ∃ winners g',
    equity_trial random_shuffle hole_hands board (mjoin hole_hands ++ board)
      (5 - Z.of_nat (length board)) counts g
    = (record_winners winners counts, g')
    ∧ winners ≠ [] ∧ NoDup winners
    ∧ ∀ w, w ∈ winners → (w < length hole_hands)%nat.
Proof.
  intros Hne Hboard H2 Hnd Hroom. unfold equity_trial.
  change (build_reduced_deck (mjoin hole_hands ++ board))
    with (remaining_of (mjoin hole_hands ++ board)).
  unfold mbind at 1, M_bind, Deck_shuffle. simpl.
  pose proof (shuffle_Permutation (remaining_of (mjoin hole_hands ++ board)) g)
    as Hperm.
  destruct (random_shuffle (remaining_of (mjoin hole_hands ++ board)) g)
    as [deck g'].
  simpl in Hperm.
  pose proof (remaining_length _ Hnd) as Hlen.
  rewrite <- (Permutation_length Hperm), length_app in Hlen.
  rewrite Deck_draw_many_ok_Z by lia.
  replace (Z.to_nat (5 - Z.of_nat (length board))) with (5 - length board)%nat
    by lia.
  set (drawn := reverse (drop (length deck - (5 - length board)) deck)).
  assert (length drawn = (5 - length board)%nat) as Hdrawn.
  { unfold drawn. rewrite length_reverse, length_drop. lia. }
  assert (NoDup (mjoin hole_hands ++ board ++ drawn)) as Hcards.
  { pose proof (used_remaining_NoDup _ Hnd) as Hall.
    rewrite <- Hperm in Hall.
    rewrite <- (take_drop (length deck - (5 - length board)) deck) in Hall.
    rewrite <- (reverse_Permutation (drop _ deck)) in Hall. fold drawn in Hall.
    rewrite (assoc_L (++)).
    apply NoDup_app in Hall as (Hk & Hdisj & Hrest).
    apply NoDup_app in Hrest as (_ & _ & Hd).
    apply NoDup_app. split_and!; [done| |done].
    intros c Hc Hin. apply (Hdisj c Hc). apply elem_of_app. by right. }
  unfold mbind at 1, M_bind, lift at 1. simpl.
  destruct (determine_winners_ok hole_hands (board ++ drawn))
    as (winners & hvs & Hdw & _); try done.
  { eapply Forall_impl; [exact H2|]. intros hole Hh. simpl in Hh.
    rewrite !length_app, Hdrawn. lia. }
  unfold mbind at 1, M_bind, lift at 1. rewrite Hdw. simpl.
  destruct (determine_winners_facts _ _ _ _ Hdw) as (_ & Hw & Hs & Hlt & _).
  exists winners, g'. split_and!; [done|done| |done].
  clear -Hs. induction Hs as [|w ws _ IH Hall]; constructor; [|done].
  intros Hin. rewrite Forall_forall in Hall. specialize (Hall _ Hin). lia.
Qed.

(** The counters after any number of trials: no counter goes down, and a
    player's two counters together go up by the number of trials at
    most. *)
Lemma equity_loop hole_hands board (n : nat) (wc tc : list Z) g :
  hole_hands ≠ [] → (length board < 5)%nat →
  Forall (λ hole, (2 ≤ length hole)%nat) hole_hands →
  NoDup (mjoin hole_hands ++ board) →
  (length (mjoin hole_hands) + 5 ≤ 52)%nat →
  length wc = length hole_hands → length tc = length hole_hands →
  ∃ wc' tc' g',
    loopM n (equity_trial random_shuffle hole_hands board
               (mjoin hole_hands ++ board) (5 - Z.of_nat (length board)))
      (wc, tc) g
    = (Ok (wc', tc'), g')
    ∧ length wc' = length hole_hands ∧ length tc' = length hole_hands
    ∧ ∀ i w t, wc !! i = Some w → tc !! i = Some t →
        ∃ w' t', wc' !! i = Some w' ∧ tc' !! i = Some t'
                 ∧ w ≤ w' ∧ t ≤ t' ∧ w' + t' ≤ w + t + Z.of_nat n.
Proof.
  intros Hne Hboard H2 Hnd Hroom. revert wc tc g.
  induction n as [|n IH]; intros wc tc g Hwc Htc.
  { exists wc, tc, g. split_and!; [done|done|done|].
    intros i w t Hw Ht. exists w, t. split_and!; [done|done|lia..]. }
  cbn [loopM]. rewrite M_bind_eq.
  destruct (equity_trial_ok hole_hands board (wc, tc) g)
    as (winners & g1 & -> & Hw & Hwnd & Hlt); try done.
  destruct (record_winners_step winners wc tc)
    as (wc1 & tc1 & -> & Hwc1 & Htc1 & Hstep); try done.
  { intros w ?. rewrite Hwc. by apply Hlt. }
  { congruence. }
  destruct (IH wc1 tc1 g1) as (wc2 & tc2 & g2 & -> & Hwc2 & Htc2 & Hrest);
    [congruence..|].
  exists wc2, tc2, g2. split_and!; [done|done|done|].
  intros i w t Hiw Hit.
  destruct (Hstep i w t Hiw Hit)
    as [(Hw1 & Ht1 & _)|[(Hw1 & Ht1 & _)|(Hw1 & Ht1 & _)]];
    destruct (Hrest i _ _ Hw1 Ht1) as (w' & t' & ? & ? & ? & ? & ?);
    exists w', t'; split_and!; try done; lia.
Qed.
End sampling.

(** X20.  On an incomplete board, for players with two hole cards or
    more each, no card twice among the hole cards and the board, enough
    cards left in the deck to complete the board, and one sample or more,
    [simulate_equity] returns with a shuffle that permutes the deck.  It
    returns one win and one tie probability for each player, the
    quotients by the number of samples of counters that are not negative
    and together at most the number of samples: for each player both
    probabilities are in [0, 1] and their sum is at most 1. *)
Theorem simulate_equity_probabilities {RNG}
    (random_shuffle : list Card → RNG → list Card * RNG)
    (hole_hands : list (list Card)) (board : list Card) (num_samples : Z)
    (g : RNG) :
  (∀ cards g, (random_shuffle cards g).1 ≡ₚ cards) →
  hole_hands ≠ [] → (length board < 5)%nat →
  Forall (λ hole, (2 ≤ length hole)%nat) hole_hands →
  NoDup (mjoin hole_hands ++ board) →
  (length (mjoin hole_hands) + 5 ≤ 52)%nat →
  1 ≤ num_samples →
  ∃ win_counts tie_counts win_probs tie_probs g',
    simulate_equity random_shuffle hole_hands board num_samples g
    = (Ok (win_probs, tie_probs), g')
    ∧ win_probs = (λ w, inject_Z w / inject_Z num_samples)%Q <$> win_counts
    ∧ tie_probs = (λ t, inject_Z t / inject_Z num_samples)%Q <$> tie_counts
    ∧ length win_probs = length hole_hands
    ∧ length tie_probs = length hole_hands
    ∧ (∀ i, (i < length hole_hands)%nat →
         ∃ w t, win_counts !! i = Some w ∧ tie_counts !! i = Some t
                ∧ 0 ≤ w ∧ 0 ≤ t ∧ w + t ≤ num_samples)
    ∧ (∀ i p q, win_probs !! i = Some p → tie_probs !! i = Some q →
         (0 <= p)%Q ∧ (p <= 1)%Q ∧ (0 <= q)%Q ∧ (q <= 1)%Q ∧ (p + q <= 1)%Q).
Proof.
  intros Hperm Hne Hboard H2 Hnd Hroom Hsamples.
  rewrite simulate_equity_sampling by done.
  destruct (equity_loop random_shuffle Hperm hole_hands board
              (Z.to_nat num_samples)
              (replicate (length hole_hands) 0) (replicate (length hole_hands) 0) g)
    as (wc & tc & g' & Hloop & Hwc & Htc & Hcounts); try done;
    [apply length_replicate..|].
  rewrite Z2Nat.id in Hcounts by lia.
  rewrite M_bind_eq, Hloop. simpl.
  rewrite M_bind_eq. unfold lift at 1. rewrite mapR_true_div by lia.
  rewrite M_bind_eq. unfold lift at 1. rewrite mapR_true_div by lia.
  assert (∀ i, (i < length hole_hands)%nat →
            ∃ w t, wc !! i = Some w ∧ tc !! i = Some t
                   ∧ 0 ≤ w ∧ 0 ≤ t ∧ w + t ≤ num_samples) as Hbounds.
  { intros i Hi.
    destruct (Hcounts i 0 0) as (w & t & Hw & Ht & ? & ? & ?);
      [by apply lookup_replicate_2..|].
    exists w, t. split_and!; [done|done|lia..]. }
  eexists wc, tc, _, _, g'. split; [done|].
  split_and!; [done|done|by rewrite length_fmap|by rewrite length_fmap|done|].
  intros i p q. rewrite !list_lookup_fmap.
  intros Hp Hq.
  destruct (wc !! i) as [w|] eqn:Hw; [|done].
  destruct (tc !! i) as [t|] eqn:Ht; [|done].
  simpl in Hp, Hq. injection Hp as <-. injection Hq as <-.
  destruct (Hbounds i) as (w' & t' & Hw' & Ht' & ? & ? & ?).
  { rewrite <- Hwc. by apply lookup_lt_Some in Hw. }
  assert (w' = w) as -> by congruence. assert (t' = t) as -> by congruence.
  destruct (true_div_unit_interval w num_samples) as (_ & ? & ?); [lia..|].
  destruct (true_div_unit_interval t num_samples) as (_ & ? & ?); [lia..|].
  split_and!; try done. apply quotients_sum; lia.
Qed.

Lemma simulate_equity_probabilities_witness :
  ∃ win_counts tie_counts win_probs tie_probs g',
    simulate_equity (λ cards (g : unit), (cards, g))
      [[mkCard ACE SPADES; mkCard KING DIAMONDS];
       [mkCard QUEEN HEARTS; mkCard QUEEN CLUBS]]
      [mkCard TWO CLUBS; mkCard SEVEN SPADES; mkCard NINE HEARTS] 4 tt
    = (Ok (win_probs, tie_probs), g')
    ∧ win_probs = (λ w, inject_Z w / inject_Z 4)%Q <$> win_counts
    ∧ tie_probs = (λ t, inject_Z t / inject_Z 4)%Q <$> tie_counts
    ∧ length win_probs = 2%nat
    ∧ length tie_probs = 2%nat
    ∧ (∀ i, (i < 2)%nat →
         ∃ w t, win_counts !! i = Some w ∧ tie_counts !! i = Some t
                ∧ 0 ≤ w ∧ 0 ≤ t ∧ w + t ≤ 4)
    ∧ (∀ i p q, win_probs !! i = Some p → tie_probs !! i = Some q →
         (0 <= p)%Q ∧ (p <= 1)%Q ∧ (0 <= q)%Q ∧ (q <= 1)%Q ∧ (p + q <= 1)%Q).
Proof.
  apply (simulate_equity_probabilities (λ cards (g : unit), (cards, g))
           [[mkCard ACE SPADES; mkCard KING DIAMONDS];
            [mkCard QUEEN HEARTS; mkCard QUEEN CLUBS]]
           [mkCard TWO CLUBS; mkCard SEVEN SPADES; mkCard NINE HEARTS] 4 tt).
  - intros cards g. reflexivity.
  - done.
  - simpl. lia.
  - repeat constructor.
  - by apply (bool_decide_unpack _).
  - simpl. lia.
  - lia.
Defined.

(* ================================================================== *)
(** * More on the decisions: probabilities and neutral risk            *)
(* ================================================================== *)

Local Open Scope float_scope.

Lemma float_ltb_leb (x y : float) : (x <? y) = true → (x <=? y) = true.
Proof.
  rewrite FloatAxioms.ltb_spec, FloatAxioms.leb_spec. unfold SFltb, SFleb.
  by destruct (SFcompare (Prim2SF x) (Prim2SF y)) as [[]|].
Qed.

(** The clamp [max(0.0, min(1.0, lp))] lands in [0, 1] for every float,
    the infinities and NaN included. *)
Lemma clamp_unit_interval (lp : float) :
  (0 <=? float_max 0 (float_min 1 lp)) = true
  ∧ (float_max 0 (float_min 1 lp) <=? 1) = true.
Proof.
  unfold float_max, float_min.
  destruct (lp <? 1) eqn:H1.
  - destruct (0 <? lp) eqn:H0; [|done].
    split; by apply float_ltb_leb.
  - done.
Qed.

(** A float that compares equal to zero is one of the two zeros. *)
Lemma float_eqb_zero (x : float) : (x =? 0) = true → x = 0 ∨ x = -0.
Proof.
  rewrite FloatAxioms.eqb_spec. change (Prim2SF 0) with (S754_zero false).
  unfold SFeqb. intros H.
  destruct (Prim2SF x) as [[]|[]| |[] ??] eqn:E; simpl in H; try done.
  - right. apply Prim2SF_inj. by rewrite E.
  - left. apply Prim2SF_inj. by rewrite E.
Qed.

Lemma SFadd_opp (x y : spec_float) : SF64add x (SFopp y) = SF64sub x y.
Proof.
  destruct x as [sx|sx| |sx mx ex], y as [sy|sy| |sy my ey];
    try done; by destruct sx, sy.
Qed.

Lemma SFmul_opp (x y : spec_float) : SF64mul x (SFopp y) = SFopp (SF64mul x y).
Proof.
  destruct x as [sx|sx| |sx mx ex], y as [sy|sy| |sy my ey];
    try done; try (by destruct sx, sy).
  unfold SF64mul, SFmul, SFopp at 1, binary_round_aux.
  replace (xorb sx (negb sy)) with (negb (xorb sx sy)) by (by destruct sx, sy).
  generalize (xorb sx sy). intros s.
  repeat match goal with
         | |- context [shr_fexp ?a ?b ?c ?d ?e] =>
             destruct (shr_fexp a b c d e) as [? ?]
         end.
  match goal with |- context [shr_m ?r] => destruct (shr_m r) end; try done.
  by match goal with |- context [(?a <=? ?b)%Z] => destruct (a <=? b)%Z end.
Qed.

(** [a + p * (-c)] and [a - p * c] are the same float. *)
Lemma float_add_mul_opp (a p c : float) : a + p * (- c) = a - p * c.
Proof.
  apply Prim2SF_inj.
  by rewrite add_spec, sub_spec, !mul_spec, opp_spec, SFmul_opp, SFadd_opp.
Qed.

Lemma float_ltb_zero (x : float) :
  (x <? 0) = true → (x =? 0) = false ∧ (0 <? x) = false.
Proof.
  rewrite !FloatAxioms.ltb_spec, FloatAxioms.eqb_spec.
  change (Prim2SF 0) with (S754_zero false). unfold SFltb, SFeqb.
  by destruct (Prim2SF x) as [[]|[]| |[] ??].
Qed.

Lemma float_zero_ltb (x : float) : (0 <? x) = true → (x =? 0) = false.
Proof.
  rewrite !FloatAxioms.ltb_spec, FloatAxioms.eqb_spec.
  change (Prim2SF 0) with (S754_zero false). unfold SFltb, SFeqb.
  by destruct (Prim2SF x) as [[]|[]| |[] ??].
Qed.

Lemma float_opp_neg_zero (c : float) : - c = -0 → c = 0.
Proof.
  intros H. apply Prim2SF_inj. apply (f_equal Prim2SF) in H.
  rewrite opp_spec in H.
  change (Prim2SF (-0)) with (S754_zero true) in H.
  change (Prim2SF 0) with (S754_zero false).
  by destruct (Prim2SF c) as [[]|[]| |[] ??].
Qed.

Lemma neutral_utility_id (x : float) : x ≠ -0 → neutral_utility x = x.
Proof.
  intros Hx. unfold neutral_utility. destruct (x =? 0) eqn:E; [|done].
  by destruct (float_eqb_zero x E).
Qed.

(** At neutral risk [utility] returns before the power. *)
Lemma utility_neutral (float_pow : float → float → result float)
    (x r cs : float) :
  (r =? 0) = true →
  utility float_pow x r cs default_slider_scale = Ok (neutral_utility x).
Proof.
  intros Hr. unfold utility, neutral_utility.
  destruct (x =? 0); [done|].
  by destruct (float_eqb_zero r Hr) as [-> | ->].
Qed.

(** X21.  The probability of losing that [CallDecision.lose_prob] and
    [RaiseDecision.lose_prob_call] return is a number between 0 and 1
    whatever the win and tie probabilities are, the infinities and NaN
    included: it is never NaN. *)
Theorem lose_prob_unit_interval (d : CallDecision) (rd : RaiseDecision) :
  (0 <=? lose_prob d) = true ∧ (lose_prob d <=? 1) = true
  ∧ (0 <=? lose_prob_call rd) = true ∧ (lose_prob_call rd <=? 1) = true.
Proof.
  unfold lose_prob, lose_prob_call.
  destruct (clamp_unit_interval (1 - win_prob d - tie_prob d)).
  destruct (clamp_unit_interval (1 - win_prob_call rd - tie_prob_call rd)).
  done.
Qed.

(** X22.  With a risk factor of zero [ev_call_utility] returns without
    reaching the power, whatever the decision is: each chip delta stands
    for its own utility, with 0.0 for a zero delta.  When no delta is the
    negative zero, that is when neither the pot nor the tie delta is -0.0
    and the amount to call is not 0.0, the expected utility is the
    expected value in chips of [ev_call_chips], bit for bit. *)
Theorem ev_call_utility_neutral (float_pow : float → float → result float)
    (d : CallDecision) :
  (risk_factor d =? 0) = true →
  ev_call_utility float_pow d
  = Ok (win_prob d * neutral_utility (pot d)
        + tie_prob d * neutral_utility (0.5 * pot d - 0.5 * to_call d)
        + lose_prob d * neutral_utility (- to_call d))
  ∧ (pot d ≠ -0 → 0.5 * pot d - 0.5 * to_call d ≠ -0 → to_call d ≠ 0 →
     ev_call_utility float_pow d = Ok (ev_call_chips d)).
Proof.
  intros Hr.
  assert (ev_call_utility float_pow d
          = Ok (win_prob d * neutral_utility (pot d)
                + tie_prob d * neutral_utility (0.5 * pot d - 0.5 * to_call d)
                + lose_prob d * neutral_utility (- to_call d))) as Heq.
  { unfold ev_call_utility. by rewrite !utility_neutral. }
  split; [done|]. intros HP Ht HC. rewrite Heq.
  rewrite !neutral_utility_id; try done.
  - unfold ev_call_chips. by rewrite float_add_mul_opp.
  - by intros ?%float_opp_neg_zero.
Qed.

Lemma ev_call_utility_neutral_witness :
  ev_call_utility (λ _ _, Err Overflow) (mkCallDecision 100 50 0.4 0.05 0)
  = Ok (ev_call_chips (mkCallDecision 100 50 0.4 0.05 0)).
Proof.
  apply (ev_call_utility_neutral (λ _ _, Err Overflow)
           (mkCallDecision 100 50 0.4 0.05 0)); by vm_compute.
Defined.

(** X23.  With a risk factor of zero [ev_raise_utility] returns without
    reaching the power, and when neither the pot nor one of the three
    deltas of a called raise is the negative zero it returns the expected
    value in chips of [ev_raise_chips], bit for bit. *)
Theorem ev_raise_utility_neutral (float_pow : float → float → result float)
    (rd : RaiseDecision) :
  (raise_risk_factor rd =? 0) = true →
  (∃ eu, ev_raise_utility float_pow rd = Ok eu)
  ∧ (raise_pot rd ≠ -0 →
     raise_pot rd
     + float_max 1 (expected_callers_when_called rd) * bet_size rd ≠ -0 →
     0.5 * raise_pot rd
     + 0.5 * (float_max 1 (expected_callers_when_called rd) - 1) * bet_size rd
     - 0.5 * raise_to_call rd ≠ -0 →
     - bet_size rd - raise_to_call rd ≠ -0 →
     ev_raise_utility float_pow rd = Ok (ev_raise_chips rd)).
Proof.
  intros Hr. unfold ev_raise_utility. rewrite !utility_neutral by done.
  split; [by eexists|]. intros HP Hw Ht Hl.
  by rewrite !neutral_utility_id.
Qed.

Lemma ev_raise_utility_neutral_witness :
  ev_raise_utility (λ _ _, Err Overflow)
    (mkRaiseDecision 100 20 50 0.3 0.45 0.05 0 1)
  = Ok (ev_raise_chips (mkRaiseDecision 100 20 50 0.3 0.45 0.05 0 1)).
Proof.
  apply (ev_raise_utility_neutral (λ _ _, Err Overflow)
           (mkRaiseDecision 100 20 50 0.3 0.45 0.05 0 1)); by vm_compute.
Defined.

(** X24.  [utility] can raise [ZeroDivision]: with an infinite risk
    style the exponent of the side it flattens is 1 / (1 + inf) = 0.0, and
    the division by it raises for every loss at risk style +inf and for
    every gain at risk style -inf, on every chip scale, once the power
    with exponent 0.0 has returned. *)
Theorem utility_infinite_risk (float_pow : float → float → result float)
    (x chip_scale : float) :
  (∀ b, ∃ p, float_pow b 0 = Ok p) →
  ((x <? 0) = true →
     utility float_pow x infinity chip_scale default_slider_scale
     = Err ZeroDivision)
  ∧ ((0 <? x) = true →
     utility float_pow x neg_infinity chip_scale default_slider_scale
     = Err ZeroDivision).
Proof.
  intros Hpow. split.
  - intros [Hx0 Hx]%float_ltb_zero. unfold utility. rewrite Hx0.
    change (infinity * default_slider_scale) with infinity.
    change (abs infinity <? 1e-12) with false.
    change (0 <? infinity) with true.
    change (float_div 1 (1 + abs infinity)) with (Ok 0 : result float).
    cbn [mbind result_bind]. rewrite Hx.
    match goal with
    | |- context [float_div (abs x) ?c] =>
        destruct (float_div (abs x) c) as [s|e] eqn:Hs
    end.
    + cbn [mbind result_bind].
      match goal with
      | |- context [float_pow ?b 0] => destruct (Hpow b) as [p ->]
      end.
      done.
    + unfold float_div in Hs.
      match type of Hs with
      | context [(?c =? 0)] => destruct (c =? 0)
      end; by simplify_eq.
  - intros Hx. pose proof (float_zero_ltb x Hx) as Hx0.
    unfold utility. rewrite Hx0.
    change (neg_infinity * default_slider_scale) with neg_infinity.
    change (abs neg_infinity <? 1e-12) with false.
    change (0 <? neg_infinity) with false.
    change (float_div 1 (1 + abs neg_infinity)) with (Ok 0 : result float).
    cbn [mbind result_bind]. rewrite Hx.
    match goal with
    | |- context [float_div (abs x) ?c] =>
        destruct (float_div (abs x) c) as [s|e] eqn:Hs
    end.
    + cbn [mbind result_bind].
      match goal with
      | |- context [float_pow ?b 0] => destruct (Hpow b) as [p ->]
      end.
      done.
    + unfold float_div in Hs.
      match type of Hs with
      | context [(?c =? 0)] => destruct (c =? 0)
      end; by simplify_eq.
Qed.

Lemma utility_infinite_risk_witness :
  utility (λ _ _, Ok 1) (-5) infinity 100 default_slider_scale
  = Err ZeroDivision.
Proof.
  apply (utility_infinite_risk (λ _ _, Ok 1) (-5) 100).
  - intros b. by exists 1.
  - reflexivity.
Defined.

Local Close Scope float_scope.

(* ================================================================== *)
(** * The session of the page                                          *)
(* ================================================================== *)

(** Burning a card and drawing [n] cards from a deck that holds them. *)
Lemma street_draw (n : nat) (deck : Deck) :
  (S n ≤ length deck)%nat →
  ∃ burned drawn rest,
    (_ ← Deck_draw; Deck_draw_many (Z.of_nat n)) deck = (Ok drawn, rest)
    ∧ length drawn = n ∧ (length rest + n + 1 = length deck)%nat
    ∧ deck ≡ₚ burned :: drawn ++ rest.
Proof.
  intros Hlen. destruct (snoc_inv deck) as (l & x & ->).
  { intros ->. simpl in Hlen. lia. }
  rewrite length_app in Hlen. simpl in Hlen.
  rewrite M_bind_eq, Deck_draw_snoc, Deck_draw_many_ok by lia.
  eexists x, _, _. split; [done|].
  rewrite length_reverse, length_drop, length_take, length_app. simpl.
  split_and!; [lia|lia|].
  rewrite reverse_Permutation, <- Permutation_cons_append.
  constructor. by rewrite Permutation_app_comm, take_drop.
Qed.

(** A street button keeps a session dealt and does not raise. *)
Lemma on_street_dealt (opened n before after : nat) (s : Session) :
  dealt s →
  (opened, before) ∈ [(0, 50); (3, 46); (4, 44); (5, 42)]%nat →
  (opened + n, after)%nat ∈ [(0, 50); (3, 46); (4, 44); (5, 42)]%nat →
  before = (after + n + 1)%nat →
  ∃ s', on_street opened (Z.of_nat n) s = (Ok tt, s') ∧ dealt s'.
Proof.
  intros Hs Hbefore Hafter Hn. unfold on_street, dealt in *.
  destruct s as [[deck|] [hero|] board]; simpl in *; try done; [|eauto].
  case_bool_decide as Hopen; [|by eexists].
  destruct Hs as (Hhero & Hnd & Htable).
  assert (length deck = before) as Hdeck.
  { rewrite Hopen in Htable. clear -Htable Hbefore.
    set_unfold. destruct Htable as [?|[?|[?|[?|[]]]]];
      destruct Hbefore as [?|[?|[?|[?|[]]]]]; simplify_eq; done. }
  destruct (street_draw n deck) as (burned & drawn & rest & -> & Hd & Hr & Hp);
    [lia|].
  eexists. split; [done|]. simpl. split_and!; [done| |].
  - rewrite Hp in Hnd.
    assert (hero ++ board ++ burned :: drawn ++ rest
            ≡ₚ burned :: hero ++ (board ++ drawn) ++ rest) as Hq.
    { solve_Permutation. }
    rewrite Hq in Hnd. by apply NoDup_cons in Hnd as [_ ?].
  - rewrite length_app, Hopen, Hd.
    replace (length rest) with after by lia. done.
Qed.

Section page_facts.
Context {RNG : Type}.
Variable random_shuffle : list Card → RNG → list Card * RNG.
Hypothesis shuffle_Permutation :
  ∀ cards g, (random_shuffle cards g).1 ≡ₚ cards.

Implicit Types (s : Session) (g : RNG).

(** The button for a new hand deals one, whatever the session was. *)
Lemma on_new_hand_dealt (num_opponents : Z) s g :
  ∃ s' g', on_new_hand random_shuffle num_opponents (s, g) = (Ok tt, (s', g'))
           ∧ dealt s'.
Proof.
  unfold on_new_hand.
  destruct (deal_new_hand_ok random_shuffle num_opponents g shuffle_Permutation)
    as (deck & hero & g' & -> & Hh & Hd & Hnd & _).
  eexists _, _. split; [done|]. unfold dealt. simpl.
  split_and!; [done|done|]. rewrite Hd. set_solver.
Qed.

Lemma in_session_street_dealt (opened n before after : nat) s g :
  dealt s →
  (opened, before) ∈ [(0, 50); (3, 46); (4, 44); (5, 42)]%nat →
  (opened + n, after)%nat ∈ [(0, 50); (3, 46); (4, 44); (5, 42)]%nat →
  before = (after + n + 1)%nat →
  ∃ s', in_session (on_street opened (Z.of_nat n)) (s, g) = (Ok tt, (s', g))
        ∧ dealt s'.
Proof.
  intros Hs Hb Ha Hn. unfold in_session.
  destruct (on_street_dealt opened n before after s) as (s' & -> & Hs');
    try done.
  by exists s'.
Qed.

(** One run of the script keeps the session dealt and does not raise,
    whatever buttons are reported as pressed. *)
Lemma rerun_dealt (num_opponents : Z) (pressed : Button → bool) s g :
  dealt s →
  ∃ s' g', rerun random_shuffle num_opponents pressed (s, g) = (Ok tt, (s', g'))
           ∧ dealt s'.
Proof.
  intros Hs. unfold rerun, when_pressed.
  assert (∃ s1 g1,
            (if pressed NewHand then on_new_hand random_shuffle num_opponents
             else mret tt) (s, g) = (Ok tt, (s1, g1)) ∧ dealt s1)
    as (s1 & g1 & H1 & Hs1).
  { destruct (pressed NewHand); [apply on_new_hand_dealt|by eexists _, _]. }
  rewrite M_bind_eq, H1. clear H1 Hs s g.
  assert (∃ s2,
            (if pressed Flop then in_session (on_street 0 3)
             else mret tt) (s1, g1) = (Ok tt, (s2, g1)) ∧ dealt s2)
    as (s2 & H2 & Hs2).
  { destruct (pressed Flop); [|by eexists].
    apply (in_session_street_dealt 0 3 50 46); [done|set_solver..|done]. }
  rewrite M_bind_eq, H2. clear H2 Hs1 s1.
  assert (∃ s3,
            (if pressed Turn then in_session (on_street 3 1)
             else mret tt) (s2, g1) = (Ok tt, (s3, g1)) ∧ dealt s3)
    as (s3 & H3 & Hs3).
  { destruct (pressed Turn); [|by eexists].
    apply (in_session_street_dealt 3 1 46 44); [done|set_solver..|done]. }
  rewrite M_bind_eq, H3. clear H3 Hs2 s2.
  assert (∃ s4,
            (if pressed River then in_session (on_street 4 1)
             else mret tt) (s3, g1) = (Ok tt, (s4, g1)) ∧ dealt s4)
    as (s4 & H4 & Hs4).
  { destruct (pressed River); [|by eexists].
    apply (in_session_street_dealt 4 1 44 42); [done|set_solver..|done]. }
  rewrite H4. by eexists _, _.
Qed.

Lemma reruns_dealt (runs : list (Z * (Button → bool))) s g :
  dealt s →
  ∃ s' g', reruns random_shuffle runs (s, g) = (Ok tt, (s', g')) ∧ dealt s'.
Proof.
  revert s g. induction runs as [|[n pressed] runs IH]; intros s g Hs.
  { by eexists _, _. }
  cbn [reruns]. rewrite M_bind_eq.
  destruct (rerun_dealt n pressed s g Hs) as (s1 & g1 & -> & Hs1).
  by apply IH.
Qed.

(** The simulation of the page returns on a dealt hand. *)
Lemma simulate_hero_returns (hero board : list Card) (num_opponents : Z) g :
  length hero = 2%nat → (length board ≤ 5)%nat → NoDup (hero ++ board) →
  1 ≤ num_opponents ≤ 9 →
  ∃ win_prob tie_prob g',
    simulate_hero_vs_random_opponents random_shuffle hero board
      num_opponents page_samples g
    = (Ok (win_prob, tie_prob), g')
    ∧ (0 <= win_prob)%Q ∧ (0 <= tie_prob)%Q ∧ (win_prob + tie_prob <= 1)%Q.
Proof.
  intros Hhero Hboard Hnd Hopp. unfold simulate_hero_vs_random_opponents.
  destruct (Nat.ltb_spec (length hero) 2); [lia|].
  destruct (Nat.ltb_spec 5 (length board)); [lia|].
  destruct (Z.ltb_spec num_opponents 1); [lia|].
  destruct (Z.ltb_spec (5 - Z.of_nat (length board)) 0); [lia|].
  destruct (hero_loop random_shuffle shuffle_Permutation hero board
              (Z.to_nat num_opponents) (Z.to_nat page_samples) 0 0 g)
    as (hw & ht & g' & Hloop & Hw & Ht & Hsum); try done; [lia|].
  rewrite Z2Nat.id in Hloop by lia.
  rewrite Z2Nat.id in Hsum by done.
  rewrite M_bind_eq, Hloop. simpl.
  destruct (true_div_unit_interval hw page_samples) as (Hdw & Hw0 & Hw1);
    [lia|done|].
  destruct (true_div_unit_interval ht page_samples) as (Hdt & Ht0 & Ht1);
    [lia|done|].
  rewrite M_bind_eq. unfold lift at 1. rewrite Hdw.
  rewrite M_bind_eq. unfold lift at 1. rewrite Hdt.
  eexists _, _, g'. split; [done|]. split_and!; [done|done|].
  apply quotients_sum; [lia|lia|lia|done].
Qed.
End page_facts.

(** X25.  Starting from the session as the script initialises it, no run
    of the script raises in a button, whatever buttons are reported as
    pressed and in whatever order the runs come, with a shuffle that
    permutes the deck; and between two runs the session is dealt: either
    nothing is dealt, or the hero has two cards, the board has 0, 3, 4 or
    5 cards, the deck has the 50, 46, 44 or 42 cards left after the
    burns, and no card stands twice among them. *)
Theorem session_stays_dealt {RNG}
    (random_shuffle : list Card → RNG → list Card * RNG)
    (runs : list (Z * (Button → bool))) (g : RNG) :
  (∀ cards g, (random_shuffle cards g).1 ≡ₚ cards) →
  ∃ s g',
    reruns random_shuffle runs (initial_session, g) = (Ok tt, (s, g'))
    ∧ dealt s.
Proof. intros Hperm. by apply reruns_dealt. Qed.

Lemma session_stays_dealt_witness :
  ∃ s g',
    reruns (λ cards (g : unit), (reverse cards, g))
      [(3, λ b, match b with NewHand => true | _ => false end);
       (3, λ b, match b with Flop => true | _ => false end);
       (3, λ b, match b with Flop => true | _ => false end);
       (3, λ b, match b with Turn => true | _ => false end)]
      (initial_session, tt)
    = (Ok tt, (s, g'))
    ∧ dealt s.
Proof.
  apply (session_stays_dealt (λ cards (g : unit), (reverse cards, g))).
  intros cards g. simpl. apply reverse_Permutation.
Defined.

(** X26.  In every session that the runs of the script reach and in
    which a hand is dealt, the calls that the page makes on it return:
    the simulation of the hero against 1 to 9 random opponents returns
    two probabilities that are not negative and whose sum is at most 1,
    and the best hand has a description when the hero's cards and the
    board are five cards or more, which is the case exactly when the
    board is not empty. *)
Theorem page_calls_return {RNG}
    (random_shuffle : list Card → RNG → list Card * RNG)
    (runs : list (Z * (Button → bool))) (num_opponents : Z) (g g1 g2 : RNG)
    (s : Session) (hero : list Card) :
  (∀ cards g, (random_shuffle cards g).1 ≡ₚ cards) →
  reruns random_shuffle runs (initial_session, g) = (Ok tt, (s, g1)) →
  session_hero s = Some hero →
  1 ≤ num_opponents ≤ 9 →
  (∃ win_prob tie_prob g3,
     simulate_hero_vs_random_opponents random_shuffle hero (session_board s)
       num_opponents page_samples g2
     = (Ok (win_prob, tie_prob), g3)
     ∧ (0 <= win_prob)%Q ∧ (0 <= tie_prob)%Q ∧ (win_prob + tie_prob <= 1)%Q)
  ∧ ((5 ≤ length hero + length (session_board s))%nat →
       ∃ text, describe_best_hand (hero ++ session_board s) = Described text)
  ∧ ((5 ≤ length hero + length (session_board s))%nat ↔ session_board s ≠ []).
Proof.
  intros Hperm Hruns Hhero Hopp.
  destruct (reruns_dealt random_shuffle Hperm runs initial_session g)
    as (s' & g' & Hruns' & Hs); [done|].
  rewrite Hruns in Hruns'. injection Hruns' as <- <-.
  unfold dealt in Hs. rewrite Hhero in Hs.
  destruct (session_deck s) as [deck|]; [|done].
  destruct Hs as (Hlen & Hnd & Htable).
  assert (length (session_board s) = 0 ∨ length (session_board s) = 3
          ∨ length (session_board s) = 4 ∨ length (session_board s) = 5)%nat
    as Hboard.
  { clear -Htable. set_unfold.
    destruct Htable as [?|[?|[?|[?|[]]]]]; simplify_eq; lia. }
  split_and!.
  - apply simulate_hero_returns; [done|done|lia| |done].
    rewrite (assoc_L (++)) in Hnd. by apply NoDup_app in Hnd as (? & _ & _).
  - intros Hfive. apply describe_best_hand_ok. by rewrite length_app.
  - rewrite Hlen. destruct (session_board s); simpl in *; [|split; [done|lia]].
    split; [lia|done].
Qed.

Lemma page_calls_return_witness :
  let shuffle := λ (cards : list Card) (g : unit), (reverse cards, g) in
  let hero := [mkCard TWO CLUBS; mkCard THREE CLUBS] in
  let board := [mkCard FIVE CLUBS; mkCard SIX CLUBS; mkCard SEVEN CLUBS] in
  let s := mkSession (Some (take 46 (reverse (Deck_init None)))) (Some hero)
             board in
  (∃ win_prob tie_prob g3,
     simulate_hero_vs_random_opponents shuffle hero (session_board s)
       2 page_samples tt
     = (Ok (win_prob, tie_prob), g3)
     ∧ (0 <= win_prob)%Q ∧ (0 <= tie_prob)%Q ∧ (win_prob + tie_prob <= 1)%Q)
  ∧ ((5 ≤ length hero + length (session_board s))%nat →
       ∃ text, describe_best_hand (hero ++ session_board s) = Described text)
  ∧ ((5 ≤ length hero + length (session_board s))%nat ↔ session_board s ≠ []).
Proof.
  intros shuffle hero board s.
  apply (page_calls_return shuffle
           [(2, λ b, match b with NewHand => true | _ => false end);
            (2, λ b, match b with Flop => true | _ => false end)]
           2 tt tt tt s hero).
  - intros cards g. simpl. apply reverse_Permutation.
  - by vm_compute.
  - reflexivity.
  - lia.
Defined.

(* ================================================================== *)
(** * The order of hand values, in one statement                       *)
(* ================================================================== *)

(** X27.  The comparison that [order=True] generates for [HandValue] is a
    total order: reflexive, antisymmetric, transitive and total, with
    [<] the converse of [>]; and the category decides first: a value of
    a lower category is below every value of a higher one, whatever the
    tiebreakers are. *)
Theorem HandValue_total_order (a b c : HandValue) :
  HandValue_le a a = true
  ∧ (HandValue_le a b = true → HandValue_le b a = true → a = b)
  ∧ (HandValue_le a b = true → HandValue_le b c = true →
       HandValue_le a c = true)
  ∧ (HandValue_le a b = true ∨ HandValue_le b a = true)
  ∧ (HandValue_lt a b = true ↔ HandValue_gt b a = true)
  ∧ (HandCategory_value (category a) < HandCategory_value (category b) →
       HandValue_lt a b = true).
Proof.
  split_and!.
  - apply HandValue_le_refl.
  - apply HandValue_le_antisym.
  - apply HandValue_le_trans.
  - apply HandValue_le_total.
  - unfold HandValue_lt, HandValue_gt. rewrite (HandValue_compare_antisym a b).
    by destruct (HandValue_compare a b).
  - intros Hcat. unfold HandValue_lt, HandValue_compare.
    apply Z.compare_lt_iff in Hcat. by rewrite Hcat.
Qed.
